(** * Workshop applications: a shallow embedding and its properties

    The repository is a bundle of small Streamlit pages.  This development
    embeds the pieces of program logic those pages contain -- the prime
    checker, the e-mail scanner, the breach checker and the security
    dashboard -- as Rocq functions, and proves what the specification says
    about them.

    Conventions.
    - Python [int] is [Z].  Python [float] is the binary64 type [float] of
      the kernel where rounding matters (the percentage of the assessment,
      [FloatAssessment]); where every value is exact in binary64 the
      arithmetic is written with exact rationals ([Q]), and this is said
      at the place.
    - Python [str] is [string], the bytes of its UTF-8 encoding; where a
      statement depends on how Python treats characters beyond ASCII, it
      is stated for ASCII text.
    - A Python [dict] used as a map is a [gmap]; a dict used as a record is
      a [Record].
    - A call that can raise is a function into [Exc]. *)

From Stdlib Require Import ZArith QArith Qabs Lqa Znumtheory Lia Ascii String.
From Stdlib Require Import Floats.
From stdpp Require Import gmap strings list pretty.

Local Open Scope string_scope.
Local Open Scope Z_scope.
Local Open Scope list_scope.

(** ** Prime checker ([app_3a_prime_checker.py]) *)

Module PrimeChecker.

(** [int(math.sqrt(n))]: the integer part of the floating-point square
    root.  The page's input widget bounds [n] by 100000, far below 2^52,
    where the correctly rounded square root of an integer has the same
    integer part as the exact one; hence [Z.sqrt]. *)
Definition int_sqrt (n : Z) : Z := Z.sqrt n.

(** [range(a, b)] *)
Definition range (a b : Z) : list Z := seqZ a (b - a).

Definition msg_check (n i : Z) : string :=
  "Check if " +:+ pretty n +:+ " is divisible by " +:+ pretty i.
Definition msg_divisible (n i : Z) : string :=
  pretty n +:+ " is divisible by " +:+ pretty i +:+ " (not prime)".
Definition msg_prime (n : Z) : string :=
  "No divisors found. " +:+ pretty n +:+ " is prime!".

(** The body of the [for i in range(...)] loop, with the early [return]. *)
Fixpoint is_prime_loop (n : Z) (candidates : list Z) (steps : list string)
  : bool * list string :=
  match candidates with
  | [] => (true, steps ++ [msg_prime n])
  | i :: rest =>
      let steps := steps ++ [msg_check n i] in
      if n `mod` i =? 0
      then (false, steps ++ [msg_divisible n i])
      else is_prime_loop n rest steps
  end.

Definition is_prime (n : Z) : bool * list string :=
  if n <? 2 then (false, [])
  else is_prime_loop n (range 2 (int_sqrt n + 1)) [].

(** No integer of [[2, floor (sqrt n)]] divides [n]. *)
Definition no_small_divisor (n : Z) : Prop :=
  ∀ i, 2 ≤ i ≤ Z.sqrt n → ¬ (i | n).

Lemma is_prime_loop_true n cands steps :
  Forall (λ i, i ≠ 0) cands →
  (is_prime_loop n cands steps).1 = true ↔ Forall (λ i, ¬ (i | n)) cands.
Proof.
  revert steps. induction cands as [|i rest IH]; intros steps Hnz; simpl.
  - split; [constructor | done].
  - inversion_clear Hnz as [|? ? Hi Hrest].
    destruct (Z.eqb_spec (n `mod` i) 0) as [Hm|Hm]; simpl.
    + split; [done|]. intros Hall. inversion_clear Hall as [|? ? Hd _].
      exfalso. apply Hd. by apply Z.mod_divide.
    + rewrite IH by done. split.
      * intros Hall. constructor; [|done].
        intros Hd. apply Hm. by apply Z.mod_divide.
      * by inversion 1.
Qed.

Lemma elem_of_range a b i : i ∈ range a b ↔ a ≤ i < b.
Proof. unfold range. rewrite elem_of_seqZ. lia. Qed.

Lemma is_prime_no_small_divisor n :
  2 ≤ n → (is_prime n).1 = true ↔ no_small_divisor n.
Proof.
  intros Hn. unfold is_prime, int_sqrt.
  destruct (Z.ltb_spec n 2); [lia|].
  rewrite is_prime_loop_true.
  - rewrite Forall_forall. unfold no_small_divisor.
    split; intros H' i Hi; apply H'.
    + apply elem_of_range. lia.
    + apply elem_of_range in Hi. lia.
  - apply Forall_forall. intros i Hi%elem_of_range. lia.
Qed.

Lemma sqrt_lt_self n : 2 ≤ n → Z.sqrt n < n.
Proof. intros Hn. apply Z.sqrt_lt_lin. lia. Qed.

(** A proper divisor comes with a cofactor, and one of the two is at most
    the square root. *)
Lemma small_divisor_of_divisor n d :
  2 ≤ n → 1 < d < n → (d | n) → ∃ i, 2 ≤ i ≤ Z.sqrt n ∧ (i | n).
Proof.
  intros Hn Hd [q Hq].
  pose proof (Z.sqrt_spec n ltac:(lia)) as [Hlo Hhi].
  pose proof (Z.sqrt_nonneg n) as Hs.
  assert (1 < q) by nia.
  destruct (Z_le_gt_dec d (Z.sqrt n)) as [Hle|Hgt].
  - exists d. split; [lia|]. by exists q.
  - exists q. split; [split; [lia|nia]|]. exists d. lia.
Qed.

Lemma no_small_divisor_prime n : 2 ≤ n → no_small_divisor n ↔ prime n.
Proof.
  intros Hn. rewrite <- prime_alt. split.
  - intros Hns. split; [lia|]. intros d Hd Hdiv.
    destruct (small_divisor_of_divisor n d) as (i & Hi & Hin); try done.
    by apply (Hns i).
  - intros [_ Hp] i Hi. apply Hp.
    pose proof (sqrt_lt_self n Hn). lia.
Qed.

End PrimeChecker.

(** C10.  For every integer [n] with [2 <= n <= 100000], [is_prime n]
    answers [True] exactly when [n] is prime, which is exactly when no
    integer of [[2, floor (sqrt n)]] divides [n]; for every [n < 2] it
    answers [False] (with no steps). *)
Theorem is_prime_correct (n : Z) :
  (2 ≤ n ≤ 100000 →
     ((PrimeChecker.is_prime n).1 = true ↔ prime n) ∧
     (prime n ↔ PrimeChecker.no_small_divisor n)) ∧
  (n < 2 → PrimeChecker.is_prime n = (false, [])).
Proof.
  split.
  - intros [Hn _]. split.
    + rewrite PrimeChecker.is_prime_no_small_divisor by done.
      by apply PrimeChecker.no_small_divisor_prime.
    + symmetry. by apply PrimeChecker.no_small_divisor_prime.
  - intros Hn. unfold PrimeChecker.is_prime.
    by destruct (Z.ltb_spec n 2); [|lia].
Qed.

Lemma is_prime_correct_witness :
  (2 ≤ 97 ≤ 100000 ∧ (PrimeChecker.is_prime 97).1 = true ∧ prime 97) ∧
  (1 < 2 ∧ PrimeChecker.is_prime 1 = (false, [])).
Proof.
  split.
  - assert (H : 2 ≤ 97 ≤ 100000) by lia.
    split; [exact H|].
    destruct (proj1 (is_prime_correct 97) H) as [Hp _].
    split; [reflexivity|]. apply Hp. reflexivity.
  - split; [lia|]. apply (proj2 (is_prime_correct 1)). lia.
Defined.

(** ** Python string operations used by the pages *)

Module PyStr.

(** [c.lower()] on an ASCII character. *)
Definition lower_ascii (c : ascii) : ascii :=
  let n := N_of_ascii c in
  if ((65 <=? n) && (n <=? 90))%N then ascii_of_N (n + 32) else c.

(** [s.lower()] *)
Fixpoint lower (s : string) : string :=
  match s with
  | EmptyString => EmptyString
  | String c s' => String (lower_ascii c) (lower s')
  end.

(** [t.startswith(w)] *)
Fixpoint startswith (w t : string) : bool :=
  match w, t with
  | EmptyString, _ => true
  | String a w', String b t' =>
      if decide (a = b) then startswith w' t' else false
  | String _ _, EmptyString => false
  end.

(** [w in t]: [w] occurs in [t] at some offset. *)
Fixpoint contains (w t : string) : bool :=
  startswith w t ||
  match t with
  | EmptyString => false
  | String _ t' => contains w t'
  end.

(** [w] is a contiguous piece of [t]. *)
Definition substring_of (w t : string) : Prop :=
  ∃ pre post, t = pre +:+ w +:+ post.

Lemma startswith_spec w t : startswith w t = true ↔ ∃ post, t = w +:+ post.
Proof.
  revert t. induction w as [|a w IH]; intros t; simpl.
  - split; [by exists t | done].
  - destruct t as [|b t].
    + split; [done | by intros [post ?]].
    + case_decide as Hab.
      * subst b. rewrite IH. split; intros [post Hpost]; exists post.
        -- by rewrite Hpost.
        -- by injection Hpost.
      * split; [done|]. intros [post Hpost]. by injection Hpost.
Qed.

Lemma contains_spec w t : contains w t = true ↔ substring_of w t.
Proof.
  unfold substring_of. induction t as [|b t IH]; simpl.
  - rewrite orb_false_r, startswith_spec. split.
    + intros [post Hpost]. by exists "", post.
    + intros ([|c pre] & post & Hpost); [by exists post | done].
  - rewrite orb_true_iff, startswith_spec, IH. split.
    + intros [[post Hpost] | (pre & post & Hpost)].
      * by exists "", post.
      * exists (String b pre), post. by rewrite Hpost.
    + intros ([|c pre] & post & Hpost).
      * left. by exists post.
      * right. exists pre, post. by injection Hpost.
Qed.

#[global] Instance substring_of_dec w t : Decision (substring_of w t).
Proof.
  refine (cast_if (decide (contains w t = true))); by rewrite <- contains_spec.
Defined.


(** [s.upper()] *)
Definition upper_ascii (c : ascii) : ascii :=
  let n := N_of_ascii c in
  if ((97 <=? n) && (n <=? 122))%N then ascii_of_N (n - 32) else c.

Fixpoint upper (s : string) : string :=
  match s with
  | EmptyString => EmptyString
  | String c s' => String (upper_ascii c) (upper s')
  end.

(** [s[:n]] and [s[n:]] for [n >= 0] *)
Fixpoint slice_to (n : nat) (s : string) : string :=
  match n, s with
  | S n', String c s' => String c (slice_to n' s')
  | _, _ => EmptyString
  end.

Fixpoint slice_from (n : nat) (s : string) : string :=
  match n, s with
  | S n', String _ s' => slice_from n' s'
  | _, _ => s
  end.

(** [c * n]: a character repeated; nothing when [n <= 0]. *)
Definition repeat_char (c : ascii) (n : Z) : string :=
  string_of_list_ascii (replicate (Z.to_nat n) c).

(** The characters at which [splitlines] cuts, among code points below
    256: LF, VT, FF, CR, FS, GS, RS and NEL. *)
Definition is_linebreak (c : ascii) : bool :=
  bool_decide (N_of_ascii c ∈ [10; 11; 12; 13; 28; 29; 30; 133]%N).

(** [s.splitlines()]: [cur] is the line read so far.  CR LF counts as one
    boundary, and a final boundary opens no further line. *)
Fixpoint splitlines_from (cur s : string) : list string :=
  match s with
  | EmptyString => if decide (cur = "") then [] else [cur]
  | String c s' =>
      if decide (c = "013"%char) then
        match s' with
        | String "010"%char s'' => cur :: splitlines_from "" s''
        | _ => cur :: splitlines_from "" s'
        end
      else if is_linebreak c then cur :: splitlines_from "" s'
      else splitlines_from (cur +:+ String c "") s'
  end.

Definition splitlines (s : string) : list string := splitlines_from "" s.

(** [s.split(sep)] for a one-character separator. *)
Fixpoint split_from (sep : ascii) (cur s : string) : list string :=
  match s with
  | EmptyString => [cur]
  | String c s' =>
      if decide (c = sep) then cur :: split_from sep "" s'
      else split_from sep (cur +:+ String c "") s'
  end.

Definition split (sep : ascii) (s : string) : list string :=
  split_from sep "" s.

(** Whitespace as [str.strip] and [int] see it, among code points below
    256. *)
Definition is_space (c : ascii) : bool :=
  bool_decide
    (N_of_ascii c ∈ [9; 10; 11; 12; 13; 28; 29; 30; 31; 32; 133; 160]%N).

Fixpoint lstrip (s : string) : string :=
  match s with
  | String c s' => if is_space c then lstrip s' else s
  | EmptyString => EmptyString
  end.

Fixpoint rstrip (s : string) : string :=
  match s with
  | String c s' =>
      let r := rstrip s' in
      if is_space c && bool_decide (r = "") then "" else String c r
  | EmptyString => EmptyString
  end.

(** [s.strip()] *)
Definition strip (s : string) : string := rstrip (lstrip s).

Definition digit_value (c : ascii) : option Z :=
  let n := N_of_ascii c in
  if ((48 <=? n) && (n <=? 57))%N then Some (Z.of_N (n - 48)) else None.

(** Decimal digits, single underscores allowed between two digits. *)
Fixpoint int_digits (acc : Z) (after_digit : bool) (s : string) : option Z :=
  match s with
  | EmptyString => if after_digit then Some acc else None
  | String c s' =>
      match digit_value c with
      | Some d => int_digits (10 * acc + d) true s'
      | None =>
          if decide (c = "_"%char) then
            if after_digit then int_digits acc false s' else None
          else None
      end
  end.

(** [int(s)] for a string: surrounding whitespace, an optional sign, then
    the digits.  [None] stands for [ValueError]. *)
Definition int_of_str (s : string) : option Z :=
  match strip s with
  | EmptyString => None
  | String c body =>
      if decide (c = "-"%char) then Z.opp <$> int_digits 0 false body
      else if decide (c = "+"%char) then int_digits 0 false body
      else int_digits 0 false (String c body)
  end.

(** Every character of [s] passes [ok]. *)
Fixpoint all_chars (ok : ascii → bool) (s : string) : bool :=
  match s with
  | EmptyString => true
  | String c s' => ok c && all_chars ok s'
  end.

(** [s.isascii()] *)
Definition is_ascii (s : string) : bool :=
  all_chars (λ c, (N_of_ascii c <? 128)%N) s.

Definition is_digit (c : ascii) : bool :=
  let n := N_of_ascii c in ((48 <=? n) && (n <=? 57))%N.

Definition is_hex_digit (c : ascii) : bool :=
  let n := N_of_ascii c in
  (((48 <=? n) && (n <=? 57)) || ((65 <=? n) && (n <=? 70)) ||
   ((97 <=? n) && (n <=? 102)))%N.

(** A string of hex digits, and a non-empty string of decimal digits. *)
Definition is_hex (s : string) : bool := all_chars is_hex_digit s.
Definition is_decimal (s : string) : bool :=
  negb (bool_decide (s = "")) && all_chars is_digit s.

(** The number a string of decimal digits denotes. *)
Fixpoint decimal_from (acc : Z) (s : string) : Z :=
  match s with
  | EmptyString => acc
  | String c s' => decimal_from (10 * acc + Z.of_N (N_of_ascii c - 48)) s'
  end.
Definition decimal_value (s : string) : Z := decimal_from 0 s.

(** Neither a line boundary nor the separator [sep]. *)
Definition plain (sep : ascii) (c : ascii) : bool :=
  negb (is_linebreak c) && negb (bool_decide (c = sep)).

(** [String.append] is kept folded by [simpl]; these are its equations. *)
Lemma app_cons (x : ascii) (a b : string) :
  String x a +:+ b = String x (a +:+ b).
Proof. reflexivity. Qed.

Lemma app_empty_l (a : string) : "" +:+ a = a.
Proof. reflexivity. Qed.

Ltac simpl_app := rewrite ?app_cons, ?app_empty_l.

Lemma app_assoc (a b c : string) : (a +:+ b) +:+ c = a +:+ b +:+ c.
Proof. induction a as [|x a IH]; simpl_app; [done | by rewrite IH]. Qed.

Lemma app_empty_r (a : string) : a +:+ "" = a.
Proof. induction a as [|x a IH]; simpl_app; [done | by rewrite IH]. Qed.

Lemma app_snoc (a : string) (c : ascii) (b : string) :
  (a +:+ String c "") +:+ b = a +:+ String c b.
Proof. rewrite app_assoc. by simpl_app. Qed.

Lemma all_chars_impl (ok1 ok2 : ascii → bool) s :
  (∀ c, ok1 c = true → ok2 c = true) →
  all_chars ok1 s = true → all_chars ok2 s = true.
Proof.
  intros Himpl. induction s as [|c s IH]; simpl; [done|].
  rewrite !andb_true_iff. intros [? ?]. auto.
Qed.

Lemma all_chars_app ok a b :
  all_chars ok a = true → all_chars ok b = true →
  all_chars ok (a +:+ b) = true.
Proof.
  intros Ha Hb. induction a as [|c a IH]; simpl_app; [done|].
  simpl in *. apply andb_true_iff in Ha as [-> Ha]. by apply IH.
Qed.

(** Membership of a character code in a class: ranges in the hypothesis
    [H], a list of codes in the goal. *)
Ltac char_class H :=
  rewrite ?orb_true_iff, ?andb_true_iff, ?N.leb_le in H;
  rewrite ?bool_decide_eq_false, ?elem_of_cons, ?elem_of_nil; lia.

Lemma is_hex_digit_plain c : is_hex_digit c = true → plain ":" c = true.
Proof.
  unfold is_hex_digit, plain, is_linebreak. intros Hc.
  rewrite andb_true_iff, !negb_true_iff. split; [char_class Hc|].
  apply bool_decide_eq_false. by intros ->.
Qed.

Lemma is_digit_plain c : is_digit c = true → plain ":" c = true.
Proof.
  unfold is_digit, plain, is_linebreak. intros Hc.
  rewrite andb_true_iff, !negb_true_iff. split; [char_class Hc|].
  apply bool_decide_eq_false. by intros ->.
Qed.

Lemma is_digit_not_space c : is_digit c = true → is_space c = false.
Proof. unfold is_digit, is_space. intros Hc. char_class Hc. Qed.

Lemma is_digit_value c :
  is_digit c = true → digit_value c = Some (Z.of_N (N_of_ascii c - 48)).
Proof. unfold is_digit, digit_value. by intros ->. Qed.

(** *** [splitlines] on a text made of lines *)

Lemma splitlines_from_line cur line rest :
  all_chars (λ c, negb (is_linebreak c)) line = true →
  splitlines_from cur (line +:+ rest) = splitlines_from (cur +:+ line) rest.
Proof.
  revert cur. induction line as [|c line IH]; intros cur Hline;
    simpl_app; simpl.
  - by rewrite app_empty_r.
  - simpl in Hline. apply andb_true_iff in Hline as [Hc Hline].
    apply negb_true_iff in Hc.
    destruct (decide (c = "013"%char)) as [->|_]; [done|].
    rewrite Hc, IH by done. by rewrite app_snoc.
Qed.

Lemma splitlines_from_lf cur rest :
  splitlines_from cur (String "010" rest) = cur :: splitlines_from "" rest.
Proof. done. Qed.

Lemma splitlines_from_crlf cur rest :
  splitlines_from cur (String "013" (String "010" rest))
  = cur :: splitlines_from "" rest.
Proof. done. Qed.

(** The two line endings a response may use. *)
Definition line_endings : list string :=
  [String "010" ""; String "013" (String "010" "")].

Lemma splitlines_concat sep (lines : list string) :
  sep ∈ line_endings →
  Forall (λ l, l ≠ "" ∧ all_chars (λ c, negb (is_linebreak c)) l = true)
         lines →
  splitlines (String.concat sep lines) = lines.
Proof.
  intros Hsep Hlines. unfold splitlines.
  induction Hlines as [|l lines [Hne Hl] Hlines IH]; [done|].
  destruct lines as [|l' lines].
  - simpl. rewrite <- (app_empty_r l) at 1.
    rewrite splitlines_from_line by done. simpl_app. simpl.
    by destruct (decide (l = "")).
  - change (String.concat sep (l :: l' :: lines))
      with (l +:+ sep +:+ String.concat sep (l' :: lines)).
    rewrite splitlines_from_line by done. simpl_app.
    unfold line_endings in Hsep.
    apply elem_of_cons in Hsep as [->|Hsep];
      [|apply list_elem_of_singleton in Hsep as ->].
    + simpl_app. by rewrite splitlines_from_lf, IH.
    + simpl_app. by rewrite splitlines_from_crlf, IH.
Qed.

(** *** [split] on a two-field line *)

Lemma split_from_field sep cur field rest :
  all_chars (λ c, negb (bool_decide (c = sep))) field = true →
  split_from sep cur (field +:+ rest) = split_from sep (cur +:+ field) rest.
Proof.
  revert cur. induction field as [|c field IH]; intros cur Hf;
    simpl_app; simpl.
  - by rewrite app_empty_r.
  - simpl in Hf. apply andb_true_iff in Hf as [Hc Hf].
    apply negb_true_iff, bool_decide_eq_false in Hc.
    destruct (decide (c = sep)); [done|].
    rewrite IH by done. by rewrite app_snoc.
Qed.

Lemma split_two_fields sep a b :
  all_chars (λ c, negb (bool_decide (c = sep))) a = true →
  all_chars (λ c, negb (bool_decide (c = sep))) b = true →
  split sep (a +:+ String sep b) = [a; b].
Proof.
  intros Ha Hb. unfold split. rewrite split_from_field by done.
  simpl_app. simpl.
  destruct (decide (sep = sep)); [|done].
  rewrite <- (app_empty_r b) at 1. by rewrite split_from_field.
Qed.

(** *** [int] on a string of digits *)

Lemma lstrip_digits s : all_chars is_digit s = true → lstrip s = s.
Proof.
  destruct s as [|c s]; simpl; [done|].
  intros [Hc _]%andb_true_iff. by rewrite is_digit_not_space.
Qed.

Lemma rstrip_digits s : all_chars is_digit s = true → rstrip s = s.
Proof.
  induction s as [|c s IH]; simpl; [done|].
  intros [Hc Hs]%andb_true_iff. by rewrite IH, is_digit_not_space.
Qed.

Lemma int_digits_decimal acc after s :
  all_chars is_digit s = true → (after = true ∨ s ≠ "") →
  int_digits acc after s = Some (decimal_from acc s).
Proof.
  revert acc after. induction s as [|c s IH]; intros acc after Hs Hne; simpl.
  - by destruct Hne as [->|?].
  - simpl in Hs. apply andb_true_iff in Hs as [Hc Hs].
    rewrite is_digit_value by done. apply IH; auto.
Qed.

Lemma int_of_str_decimal s :
  is_decimal s = true → int_of_str s = Some (decimal_value s).
Proof.
  unfold is_decimal, int_of_str, strip, decimal_value.
  intros [Hne Hs]%andb_true_iff.
  apply negb_true_iff, bool_decide_eq_false in Hne.
  rewrite lstrip_digits, rstrip_digits by done.
  destruct s as [|c s]; [done|].
  assert (Hc : is_digit c = true).
  { simpl in Hs. by apply andb_true_iff in Hs as [? _]. }
  destruct (decide (c = "-"%char)) as [->|_]; [done|].
  destruct (decide (c = "+"%char)) as [->|_]; [done|].
  apply int_digits_decimal; auto.
Qed.

(** *** Lengths *)

Lemma length_upper s : String.length (upper s) = String.length s.
Proof. induction s as [|c s IH]; simpl; [done | by rewrite IH]. Qed.

Lemma length_slice_to n s :
  String.length (slice_to n s) = (n `min` String.length s)%nat.
Proof.
  revert s. induction n as [|n IH]; intros [|c s]; simpl; try done.
  by rewrite IH.
Qed.

Lemma length_slice_from n s :
  String.length (slice_from n s) = (String.length s - n)%nat.
Proof.
  revert s. induction n as [|n IH]; intros [|c s]; simpl; try done.
Qed.

End PyStr.

(** ** E-mail scanner ([workshop_app.py]) *)

Module Workshop.

Inductive sentiment := Positive | Negative | Neutral.
Inductive security := PossiblePhishing | BeCareful | LooksSafe.

(** The strings [ai_check] returns. *)
Definition sentiment_label (s : sentiment) : string :=
  match s with
  | Positive => "😊 Positive"
  | Negative => "😔 Negative"
  | Neutral => "😐 Neutral"
  end.

Definition security_label (s : security) : string :=
  match s with
  | PossiblePhishing => "🚨 Possible Phishing"
  | BeCareful => "⚠️ Be Careful"
  | LooksSafe => "✅ Looks Safe"
  end.

Definition phishing_words : list string :=
  [ "urgent"; "click now"; "verify account"; "suspended";
    "limited time"; "act now"; "money"; "free" ].

(** [sum(1 for word in phishing_words if word.lower() in text.lower())] *)
Definition phishing_count (text : string) : Z :=
  Z.of_nat (length (filter
    (λ word, PyStr.contains (PyStr.lower word) (PyStr.lower text) = true)
    phishing_words)).

Section WithPolarity.

(** [TextBlob(text).sentiment.polarity], an external library: a float
    in [[-1, 1]].  The float literal [0.05] is the float closest to 1/20
    and lies above it, so no float is between the two and comparing a
    float with the literal agrees with comparing it with 1/20. *)
Variable polarity : string → Q.

Definition ai_check (text : string) : string * string * Q :=
  let scores := polarity text in
  let sentiment :=
    if Qle_bool (5 # 100) scores then sentiment_label Positive
    else if Qle_bool scores (- (5 # 100)) then sentiment_label Negative
    else sentiment_label Neutral in
  let phishing_count := phishing_count text in
  let security :=
    if 2 <=? phishing_count then security_label PossiblePhishing
    else if phishing_count =? 1 then security_label BeCareful
    else security_label LooksSafe in
  (sentiment, security, scores).

End WithPolarity.

(** A keyword occurs in the text when case is ignored. *)
Definition occurs_ci (word text : string) : Prop :=
  PyStr.substring_of (PyStr.lower word) (PyStr.lower text).

#[global] Instance occurs_ci_dec word text : Decision (occurs_ci word text).
Proof. unfold occurs_ci. apply _. Defined.

(** How many of the fixed keywords occur in the text. *)
Definition keyword_matches (text : string) : nat :=
  length (filter (λ word, occurs_ci word text) phishing_words).

Lemma phishing_count_matches text :
  phishing_count text = Z.of_nat (keyword_matches text).
Proof.
  unfold phishing_count, keyword_matches. f_equal. f_equal.
  apply list_filter_iff. intros word. unfold occurs_ci.
  apply PyStr.contains_spec.
Qed.

(** The sentiment bucket of a polarity score, by the thresholds ±0.05. *)
Definition in_bucket (p : Q) (s : sentiment) : Prop :=
  match s with
  | Positive => (5 # 100 <= p)%Q
  | Negative => (p <= - (5 # 100))%Q
  | Neutral => (- (5 # 100) < p)%Q ∧ (p < 5 # 100)%Q
  end.

(** The verdict for a number of keyword matches. *)
Definition verdict_for (n : nat) (v : security) : Prop :=
  match v with
  | LooksSafe => n = 0%nat
  | BeCareful => n = 1%nat
  | PossiblePhishing => (2 ≤ n)%nat
  end.

Lemma sentiment_label_inj s1 s2 :
  sentiment_label s1 = sentiment_label s2 → s1 = s2.
Proof. by destruct s1, s2. Qed.

Lemma security_label_inj v1 v2 :
  security_label v1 = security_label v2 → v1 = v2.
Proof. by destruct v1, v2. Qed.

Lemma in_bucket_total p : ∃ s, in_bucket p s.
Proof.
  destruct (Qlt_le_dec p (5 # 100)) as [Hlt|Hge]; [|by exists Positive].
  destruct (Qlt_le_dec (- (5 # 100)) p) as [Hgt|Hle]; [by exists Neutral|].
  by exists Negative.
Qed.

Lemma in_bucket_unique p s1 s2 : in_bucket p s1 → in_bucket p s2 → s1 = s2.
Proof.
  destruct s1, s2; simpl; try done; intros H1 H2; exfalso; lra.
Qed.

Lemma verdict_for_total n : ∃ v, verdict_for n v.
Proof.
  destruct n as [|[|n]];
    [by exists LooksSafe | by exists BeCareful | exists PossiblePhishing].
  simpl. lia.
Qed.

Lemma verdict_for_unique n v1 v2 :
  verdict_for n v1 → verdict_for n v2 → v1 = v2.
Proof. destruct v1, v2; simpl; intros; try done; lia. Qed.

(** *** Ignoring case, without [lower] *)

(** A capital letter of the ASCII alphabet. *)
Definition is_capital (c : ascii) : bool :=
  ((65 <=? N_of_ascii c) && (N_of_ascii c <=? 90))%N.

(** The same character, or the same letter once as a capital and once
    small (the small letter is 32 places after the capital). *)
Definition same_letter (a b : ascii) : Prop :=
  a = b ∨
  (is_capital a = true ∧ N_of_ascii b = (N_of_ascii a + 32)%N) ∨
  (is_capital b = true ∧ N_of_ascii a = (N_of_ascii b + 32)%N).

(** Two texts of the same length that agree letter by letter when case
    is ignored. *)
Fixpoint same_ignoring_case (w v : string) : Prop :=
  match w, v with
  | EmptyString, EmptyString => True
  | String a w', String b v' => same_letter a b ∧ same_ignoring_case w' v'
  | _, _ => False
  end.

(** Some piece of the text reads as the keyword when case is ignored. *)
Definition occurs_ignoring_case (word text : string) : Prop :=
  ∃ pre w post, text = pre +:+ w +:+ post ∧ same_ignoring_case w word.

Lemma N_of_ascii_inj a b : N_of_ascii a = N_of_ascii b → a = b.
Proof.
  intros H. rewrite <- (ascii_N_embedding a), <- (ascii_N_embedding b).
  by rewrite H.
Qed.

Lemma lower_ascii_code c :
  N_of_ascii (PyStr.lower_ascii c) =
  if is_capital c then (N_of_ascii c + 32)%N else N_of_ascii c.
Proof.
  unfold PyStr.lower_ascii, is_capital.
  destruct ((65 <=? N_of_ascii c) && (N_of_ascii c <=? 90))%N eqn:Hc; [|done].
  apply andb_true_iff in Hc as [H1 H2].
  apply N.leb_le in H1, H2. apply N_ascii_embedding. lia.
Qed.

Lemma lower_ascii_same a b :
  PyStr.lower_ascii a = PyStr.lower_ascii b ↔ same_letter a b.
Proof.
  unfold same_letter. split.
  - intros Heq. apply (f_equal N_of_ascii) in Heq.
    rewrite !lower_ascii_code in Heq.
    destruct (is_capital a) eqn:Ha, (is_capital b) eqn:Hb.
    + left. apply N_of_ascii_inj. lia.
    + right. left. split; [done | lia].
    + right. right. split; [done | lia].
    + left. by apply N_of_ascii_inj.
  - intros Hs. apply N_of_ascii_inj. rewrite !lower_ascii_code.
    unfold is_capital in *.
    destruct Hs as [->|[[Ha Hb]|[Hb Ha]]]; [done| |].
    + rewrite Ha. apply andb_true_iff in Ha as [H1 H2].
      apply N.leb_le in H1, H2.
      destruct ((65 <=? N_of_ascii b) && (N_of_ascii b <=? 90))%N eqn:Hc;
        [|done].
      apply andb_true_iff in Hc as [H3 H4]. apply N.leb_le in H3, H4. lia.
    + rewrite Hb. apply andb_true_iff in Hb as [H1 H2].
      apply N.leb_le in H1, H2.
      destruct ((65 <=? N_of_ascii a) && (N_of_ascii a <=? 90))%N eqn:Hc;
        [|done].
      apply andb_true_iff in Hc as [H3 H4]. apply N.leb_le in H3, H4. lia.
Qed.

Lemma lower_same w v :
  PyStr.lower w = PyStr.lower v ↔ same_ignoring_case w v.
Proof.
  revert v. induction w as [|a w IH]; intros [|b v]; simpl; try done.
  rewrite <- IH, <- lower_ascii_same. split.
  - by intros [= ? ?].
  - by intros [-> ->].
Qed.

Lemma lower_append s t :
  PyStr.lower (s +:+ t) = PyStr.lower s +:+ PyStr.lower t.
Proof.
  induction s as [|c s IH]; [done|].
  PyStr.simpl_app. simpl. PyStr.simpl_app. by rewrite IH.
Qed.

Lemma lower_split t x y :
  PyStr.lower t = x +:+ y →
  ∃ t1 t2, t = t1 +:+ t2 ∧ PyStr.lower t1 = x ∧ PyStr.lower t2 = y.
Proof.
  revert t. induction x as [|c x IH]; intros t Ht.
  - exists "", t. by rewrite PyStr.app_empty_l in Ht.
  - destruct t as [|d t]; [done|]. simpl in Ht.
    rewrite PyStr.app_cons in Ht. injection Ht as Hc Ht.
    destruct (IH t Ht) as (t1 & t2 & -> & H1 & H2).
    exists (String d t1), t2. rewrite PyStr.app_cons. simpl.
    by rewrite Hc, H1.
Qed.

(** [word.lower() in text.lower()] holds exactly when the keyword occurs
    in the text with case ignored. *)
Lemma contains_lower_spec word text :
  PyStr.contains (PyStr.lower word) (PyStr.lower text) = true ↔
  occurs_ignoring_case word text.
Proof.
  rewrite PyStr.contains_spec. unfold PyStr.substring_of, occurs_ignoring_case.
  split.
  - intros (pre' & post' & Ht).
    apply lower_split in Ht as (pre & rest & -> & Hpre & Hrest).
    apply lower_split in Hrest as (w & post & -> & Hw & Hpost).
    exists pre, w, post. split; [done|]. by apply lower_same.
  - intros (pre & w & post & -> & Hw). apply lower_same in Hw.
    exists (PyStr.lower pre), (PyStr.lower post).
    by rewrite !lower_append, Hw.
Qed.

#[global] Instance occurs_ignoring_case_dec word text :
  Decision (occurs_ignoring_case word text).
Proof.
  refine (cast_if (decide (PyStr.contains (PyStr.lower word)
                             (PyStr.lower text) = true)));
    by rewrite <- contains_lower_spec.
Defined.

(** How many of the fixed keywords occur in the text, case ignored. *)
Definition caseless_matches (text : string) : nat :=
  length (filter (λ word, occurs_ignoring_case word text) phishing_words).

Lemma phishing_count_caseless text :
  phishing_count text = Z.of_nat (caseless_matches text).
Proof.
  unfold phishing_count, caseless_matches. f_equal. f_equal.
  apply list_filter_iff. intros word. apply contains_lower_spec.
Qed.

End Workshop.

(** C9.  For a text of ASCII characters, [ai_check] returns the polarity
    score unchanged, the label of the one sentiment bucket the score falls
    in by the thresholds ±0.05 (Positive from 0.05 up, Negative from -0.05
    down, Neutral strictly between), and the verdict fixed by the number of
    phishing keywords that occur in the text when case is ignored: safe
    for none, caution for exactly one, possible phishing for two or more.
    A keyword occurs when some piece of the text has its length and agrees
    with it character by character, a capital letter counting as its small
    letter. *)
Theorem ai_check_buckets (polarity : string → Q) (text : string) :
  PyStr.is_ascii text = true →
  ∃ sentiment security,
    Workshop.ai_check polarity text = (sentiment, security, polarity text) ∧
    (∃ s, sentiment = Workshop.sentiment_label s) ∧
    (∃ v, security = Workshop.security_label v) ∧
    (∀ s, sentiment = Workshop.sentiment_label s ↔
          Workshop.in_bucket (polarity text) s) ∧
    (∀ v, security = Workshop.security_label v ↔
          Workshop.verdict_for (Workshop.caseless_matches text) v).
Proof.
  intros _.
  unfold Workshop.ai_check. rewrite Workshop.phishing_count_caseless.
  set (p := polarity text). set (n := Workshop.caseless_matches text).
  eexists _, _. split; [reflexivity|].
  split; [repeat case_match; by eexists|].
  split; [repeat case_match; by eexists|]. split.
  - assert (Hb : Workshop.in_bucket p
      (if Qle_bool (5 # 100) p then Workshop.Positive
       else if Qle_bool p (- (5 # 100)) then Workshop.Negative
       else Workshop.Neutral)).
    { destruct (Qle_bool (5 # 100) p) eqn:Hpos.
      { by apply Qle_bool_iff. }
      destruct (Qle_bool p (- (5 # 100))) eqn:Hneg.
      { by apply Qle_bool_iff. }
      split; apply Qnot_le_lt; rewrite <- Qle_bool_iff; congruence. }
    intros s. split.
    + intros Hs.
      destruct (Qle_bool (5 # 100) p); [|destruct (Qle_bool p (- (5 # 100)))];
        apply Workshop.sentiment_label_inj in Hs; by subst s.
    + intros Hs.
      destruct (Qle_bool (5 # 100) p); [|destruct (Qle_bool p (- (5 # 100)))];
        f_equal; eauto using Workshop.in_bucket_unique.
  - assert (Hv : Workshop.verdict_for n
      (if 2 <=? Z.of_nat n then Workshop.PossiblePhishing
       else if Z.of_nat n =? 1 then Workshop.BeCareful
       else Workshop.LooksSafe)).
    { destruct (Z.leb_spec 2 (Z.of_nat n)); simpl; [lia|].
      destruct (Z.eqb_spec (Z.of_nat n) 1); simpl; lia. }
    intros v. split.
    + intros Hs.
      destruct (2 <=? Z.of_nat n); [|destruct (Z.of_nat n =? 1)];
        apply Workshop.security_label_inj in Hs; by subst v.
    + intros Hs.
      destruct (2 <=? Z.of_nat n); [|destruct (Z.of_nat n =? 1)];
        f_equal; eauto using Workshop.verdict_for_unique.
Qed.

(** A text in capitals: three keywords are found. *)
Lemma ai_check_buckets_witness :
  let text := "URGENT: Click NOW to Verify Account" in
  PyStr.is_ascii text = true ∧
  Workshop.ai_check (λ _, 0%Q) text
  = (Workshop.sentiment_label Workshop.Neutral,
     Workshop.security_label Workshop.PossiblePhishing, 0%Q) ∧
  Workshop.occurs_ignoring_case "click now" text ∧
  (2 ≤ Workshop.caseless_matches text)%nat.
Proof.
  intros text.
  assert (PyStr.is_ascii text = true) as Hascii by (by vm_compute).
  destruct (ai_check_buckets (λ _, 0%Q) text Hascii)
    as (sentiment & security & Heq & _ & _ & _ & Hverdict).
  assert (Workshop.ai_check (λ _, 0%Q) text
          = (Workshop.sentiment_label Workshop.Neutral,
             Workshop.security_label Workshop.PossiblePhishing, 0%Q)) as Hrun
    by (by vm_compute).
  split; [exact Hascii|]. split; [exact Hrun|]. split.
  - exists "URGENT: ", "Click NOW", " to Verify Account".
    split; [reflexivity|]. simpl. unfold Workshop.same_letter.
    repeat split; first [by left | right; left; by vm_compute
                        | right; right; by vm_compute].
  - rewrite Heq in Hrun. injection Hrun as _ Hsec.
    exact (proj1 (Hverdict Workshop.PossiblePhishing) Hsec).
Defined.

(** ** Exceptions *)

(** The exceptions the pages can meet ([Exception] subclasses). *)
Inductive exception :=
  | RequestException   (* requests.exceptions.RequestException *)
  | ValueError
  | KeyError
  | ZeroDivisionError
  | OSError            (* FileNotFoundError, PermissionError, ... *)
  | JSONDecodeError.

(** A computation that returns or raises. *)
Inductive Exc (A : Type) :=
  | Return (a : A)
  | Raise (e : exception).
Arguments Return {A} a.
Arguments Raise {A} e.

#[global] Instance exc_ret : MRet Exc := λ A a, Return a.
#[global] Instance exc_bind : MBind Exc := λ A B k m,
  match m with
  | Return a => k a
  | Raise e => Raise e
  end.

(** ** SHA-1

    [hashlib.sha1] belongs to the Python library, not to the pages.  The
    breach checker below takes the digest function as a parameter; this
    executable SHA-1 (FIPS 180-4) is what the parameter stands for, and the
    examples run the checker with it. *)

Module Sha1.

Definition mask32 (x : Z) : Z := Z.land x 0xFFFFFFFF.
Definition add32 (a b : Z) : Z := mask32 (a + b).
Definition rotl (n x : Z) : Z :=
  mask32 (Z.lor (Z.shiftl x n) (Z.shiftr x (32 - n))).

(** The message bytes, then 0x80, zeros up to 56 modulo 64, and the
    bit length on eight bytes, big end first. *)
Definition pad (msg : list Z) : list Z :=
  let len := Z.of_nat (length msg) in
  let zeros := Z.to_nat ((55 - len) `mod` 64) in
  let bits := 8 * len in
  msg ++ [0x80] ++ replicate zeros 0 ++
  ((λ i, Z.land (Z.shiftr bits (8 * i)) 0xFF) <$> [7; 6; 5; 4; 3; 2; 1; 0]).

(** Big-endian 32-bit words. *)
Fixpoint words (bytes : list Z) : list Z :=
  match bytes with
  | a :: b :: c :: d :: rest =>
      Z.lor (Z.shiftl a 24) (Z.lor (Z.shiftl b 16) (Z.lor (Z.shiftl c 8) d))
      :: words rest
  | _ => []
  end.

(** The message schedule, latest word first. *)
Fixpoint schedule (n : nat) (w_rev : list Z) : list Z :=
  match n with
  | O => w_rev
  | S n' =>
      let at_ i := default 0 (w_rev !! i) in
      let w := rotl 1 (Z.lxor (Z.lxor (at_ 2%nat) (at_ 7%nat))
                              (Z.lxor (at_ 13%nat) (at_ 15%nat))) in
      schedule n' (w :: w_rev)
  end.

Definition round_f (t b c d : Z) : Z :=
  if t <? 20 then Z.lor (Z.land b c) (Z.land (Z.lxor b 0xFFFFFFFF) d)
  else if t <? 40 then Z.lxor (Z.lxor b c) d
  else if t <? 60 then Z.lor (Z.lor (Z.land b c) (Z.land b d)) (Z.land c d)
  else Z.lxor (Z.lxor b c) d.

Definition round_k (t : Z) : Z :=
  if t <? 20 then 0x5A827999
  else if t <? 40 then 0x6ED9EBA1
  else if t <? 60 then 0x8F1BBCDC
  else 0xCA62C1D6.

Definition state : Type := Z * Z * Z * Z * Z.

Fixpoint rounds (t : Z) (ws : list Z) (s : state) : state :=
  match ws with
  | [] => s
  | w :: ws' =>
      let '(a, b, c, d, e) := s in
      let temp :=
        add32 (add32 (add32 (add32 (rotl 5 a) (round_f t b c d)) e)
                     (round_k t)) w in
      rounds (t + 1) ws' (temp, a, rotl 30 b, c, d)
  end.

Definition compress (block : list Z) (h : state) : state :=
  let ws := reverse (schedule 64 (reverse block)) in
  let '(a, b, c, d, e) := rounds 0 ws h in
  let '(h0, h1, h2, h3, h4) := h in
  (add32 h0 a, add32 h1 b, add32 h2 c, add32 h3 d, add32 h4 e).

(** One block of sixteen words at a time; [n] bounds the number of
    blocks. *)
Fixpoint blocks (n : nat) (ws : list Z) (h : state) : state :=
  match n with
  | O => h
  | S n' =>
      match ws with
      | [] => h
      | _ => blocks n' (drop 16 ws) (compress (take 16 ws) h)
      end
  end.

Definition initial : state :=
  (0x67452301, 0xEFCDAB89, 0x98BADCFE, 0x10325476, 0xC3D2E1F0).

Definition hex_digit (n : Z) : ascii :=
  ascii_of_N (Z.to_N (if n <? 10 then 48 + n else 87 + n)).

Definition hex_word (w : Z) : string :=
  string_of_list_ascii
    ((λ i, hex_digit (Z.land (Z.shiftr w (4 * i)) 0xF))
       <$> [7; 6; 5; 4; 3; 2; 1; 0]).

Definition digest (msg : list Z) : state :=
  let ws := words (pad msg) in
  blocks (length ws) ws initial.

(** [hashlib.sha1(s.encode()).hexdigest()] *)
Definition hexdigest (s : string) : string :=
  let '(h0, h1, h2, h3, h4) :=
    digest ((λ c, Z.of_N (N_of_ascii c)) <$> list_ascii_of_string s) in
  hex_word h0 +:+ hex_word h1 +:+ hex_word h2 +:+ hex_word h3 +:+ hex_word h4.

End Sha1.

Example sha1_abc :
  Sha1.hexdigest "abc" = "a9993e364706816aba3e25717850c26c9cd0d89d".
Proof. vm_compute. reflexivity. Qed.

Example sha1_two_blocks :
  Sha1.hexdigest "abcdbcdecdefdefgefghfghighijhijkijkljklmklmnlmnomnopnopq"
  = "84983e441c3bd26ebaae4aa1f95129e5e54670f1".
Proof. vm_compute. reflexivity. Qed.

(** ** Breach checker ([app_1c_breach_checker.py]) *)

Module BreachChecker.

(** What [requests.get] hands back when it does not raise. *)
Record response := { status_code : Z; text : string }.

Definition api_url : string := "https://api.pwnedpasswords.com/range/".

(** What the single check shows. *)
Inductive outcome :=
  | BreachDetected (breach_count : Z)
  | NotBreached
  | UnableToConnect
  | NetworkError
  | UnexpectedError (e : exception).

(** The truth value Python gives a value stored under ['breached']:
    [True], [False] or the string ['Error']. *)
Inductive breached_value :=
  | PyBool (b : bool)
  | PyString (s : string).

Definition truthy (v : breached_value) : bool :=
  match v with
  | PyBool b => b
  | PyString s => negb (bool_decide (s = ""))
  end.

#[global] Instance breached_value_eq_dec : EqDecision breached_value.
Proof. solve_decision. Defined.

(** One row of the batch results. *)
Record result := {
  password : string;          (* masked *)
  breached : breached_value;
  count : Z
}.

(** [for hash_line in hashes: ...] with its [break]; the unpacking of
    [hash_line.split(':')] raises [ValueError] unless there are exactly two
    parts, and [int(count)] raises it on a malformed number. *)
Fixpoint scan_hashes (hashes : list string) (suffix : string)
  : Exc (bool * Z) :=
  match hashes with
  | [] => Return (false, 0)
  | hash_line :: rest =>
      match PyStr.split ":" hash_line with
      | [hash_suffix; count] =>
          if decide (hash_suffix = suffix) then
            match PyStr.int_of_str count with
            | Some breach_count => Return (true, breach_count)
            | None => Raise ValueError
            end
          else scan_hashes rest suffix
      | _ => Raise ValueError
      end
  end.

(** [password[:3] + '*' * (len(password) - 3)] *)
Definition mask (password : string) : string :=
  PyStr.slice_to 3 password +:+
  PyStr.repeat_char "*" (Z.of_nat (String.length password) - 3).

Section WithServices.

(** [hashlib.sha1(s.encode()).hexdigest()]: forty lower-case hex digits. *)
Variable sha1_hexdigest : string → string.

(** [requests.get(url)] for the request numbered [i]: a response, whatever
    its status, or an exception. *)
Variable requests_get : nat → string → Exc response.

Definition sha1_hash (password : string) : string :=
  PyStr.upper (sha1_hexdigest password).
Definition prefix (password : string) : string :=
  PyStr.slice_to 5 (sha1_hash password).
Definition suffix (password : string) : string :=
  PyStr.slice_from 5 (sha1_hash password).

(** The single check: [None] when the button was not pressed or the field
    is empty, so that nothing is shown. *)
Definition check_password (single_check : bool) (check_password : string)
  : option outcome :=
  if single_check && negb (bool_decide (check_password = "")) then
    Some
      match requests_get 0 (api_url +:+ prefix check_password) with
      | Return response =>
          if status_code response =? 200 then
            match scan_hashes (PyStr.splitlines (text response))
                              (suffix check_password) with
            | Return (found, breach_count) =>
                if found then BreachDetected breach_count else NotBreached
            | Raise RequestException => NetworkError
            | Raise e => UnexpectedError e
            end
          else UnableToConnect
      | Raise RequestException => NetworkError
      | Raise e => UnexpectedError e
      end
  else None.

Definition error_result (password : string) : result :=
  {| password := mask password; breached := PyString "Error"; count := 0 |}.

(** The body of [for i, password in enumerate(passwords)]: the rows after
    this password. *)
Definition batch_step (i : nat) (password : string) (results : list result)
  : list result :=
  match requests_get i (api_url +:+ prefix password) with
  | Return response =>
      if status_code response =? 200 then
        match scan_hashes (PyStr.splitlines (text response))
                          (suffix password) with
        | Return (found, breach_count) =>
            results ++ [ {| password := mask password;
                            breached := PyBool found;
                            count := breach_count |} ]
        | Raise _ => results ++ [error_result password]
        end
      else results
  | Raise _ => results ++ [error_result password]
  end.

Fixpoint batch_loop (i : nat) (passwords : list string)
    (results : list result) : list result :=
  match passwords with
  | [] => results
  | password :: rest => batch_loop (S i) rest (batch_step i password results)
  end.

(** [[pwd.strip() for pwd in batch_passwords.split('\n') if pwd.strip()]] *)
Definition parse_passwords (batch_passwords : string) : list string :=
  PyStr.strip <$>
    filter (λ pwd, PyStr.strip pwd ≠ "") (PyStr.split "010" batch_passwords).

Definition batch_check (passwords : list string) : list result :=
  batch_loop 0 passwords [].

End WithServices.

(** The three summary figures. *)
Definition safe_count (results : list result) : nat :=
  length (filter (λ r, truthy (breached r) = false) results).
Definition breached_count (results : list result) : nat :=
  length (filter (λ r, truthy (breached r) = true ∧
                       breached r ≠ PyString "Error") results).
Definition error_count (results : list result) : nat :=
  length (filter (λ r, breached r = PyString "Error") results).

(** *** Range responses *)

(** A response of the range service: one [suffix:count] line per known
    suffix, lines separated by [sep]. *)
Definition render_line (l : string * string) : string :=
  l.1 +:+ String ":" l.2.
Definition render_range (sep : string) (lines : list (string * string))
  : string :=
  String.concat sep (render_line <$> lines).

(** The suffix is made of hex digits and the count is a decimal number. *)
Definition well_formed (l : string * string) : Prop :=
  PyStr.is_hex l.1 = true ∧ PyStr.is_decimal l.2 = true.

Lemma all_chars_plain_linebreak s :
  PyStr.all_chars (PyStr.plain ":") s = true →
  PyStr.all_chars (λ c, negb (PyStr.is_linebreak c)) s = true.
Proof.
  apply PyStr.all_chars_impl. unfold PyStr.plain.
  by intros c [? _]%andb_true_iff.
Qed.

Lemma all_chars_plain_colon s :
  PyStr.all_chars (PyStr.plain ":") s = true →
  PyStr.all_chars (λ c, negb (bool_decide (c = ":"%char))) s = true.
Proof.
  apply PyStr.all_chars_impl. unfold PyStr.plain.
  by intros c [_ ?]%andb_true_iff.
Qed.

Lemma well_formed_plain l :
  well_formed l →
  PyStr.all_chars (PyStr.plain ":") l.1 = true ∧
  PyStr.all_chars (PyStr.plain ":") l.2 = true.
Proof.
  intros [Hhex Hdec]. split.
  - revert Hhex. apply PyStr.all_chars_impl, PyStr.is_hex_digit_plain.
  - apply andb_true_iff in Hdec as [_ Hdec].
    revert Hdec. apply PyStr.all_chars_impl, PyStr.is_digit_plain.
Qed.

Lemma render_line_is_line l :
  well_formed l →
  render_line l ≠ "" ∧
  PyStr.all_chars (λ c, negb (PyStr.is_linebreak c)) (render_line l) = true.
Proof.
  intros [H1 H2]%well_formed_plain. unfold render_line. split.
  - by destruct (l.1).
  - apply PyStr.all_chars_app; [by apply all_chars_plain_linebreak|].
    simpl. by apply all_chars_plain_linebreak.
Qed.

Lemma splitlines_render_range sep lines :
  sep ∈ PyStr.line_endings → Forall well_formed lines →
  PyStr.splitlines (render_range sep lines) = render_line <$> lines.
Proof.
  intros Hsep Hwf. apply PyStr.splitlines_concat; [done|].
  apply Forall_fmap. eapply Forall_impl; [done|].
  intros l. apply render_line_is_line.
Qed.

Lemma split_render_line l :
  well_formed l → PyStr.split ":" (render_line l) = [l.1; l.2].
Proof.
  intros [H1 H2]%well_formed_plain.
  apply PyStr.split_two_fields; by apply all_chars_plain_colon.
Qed.

(** The first line that carries the suffix decides the scan. *)
Lemma scan_hashes_rendered lines suffix :
  Forall well_formed lines →
  scan_hashes (render_line <$> lines) suffix =
  Return match list_find (λ l, l.1 = suffix) lines with
         | Some (_, l) => (true, PyStr.decimal_value l.2)
         | None => (false, 0)
         end.
Proof.
  induction 1 as [|l lines Hl Hlines IH]; [done|].
  rewrite fmap_cons. cbn [scan_hashes list_find].
  rewrite split_render_line by done.
  destruct (decide (l.1 = suffix)) as [Heq|Hne].
  - destruct Hl as [_ Hdec]. by rewrite PyStr.int_of_str_decimal.
  - rewrite IH. by destruct (list_find _ lines) as [[? ?]|].
Qed.

Lemma slice_to_from n s : PyStr.slice_to n s +:+ PyStr.slice_from n s = s.
Proof.
  revert s. induction n as [|n IH]; intros [|c s]; simpl; try done.
  PyStr.simpl_app. by rewrite IH.
Qed.

(** *** Batch results *)

(** X11.  Every row falls under exactly one of the three summary figures. *)
Lemma summary_counts_partition results :
  (safe_count results + breached_count results + error_count results)%nat
  = length results.
Proof.
  unfold safe_count, breached_count, error_count.
  induction results as [|r results IH]; [done|].
  rewrite !filter_cons. destruct r as [pw [[]|s] c]; simpl; [lia..|].
  destruct (decide (s = "Error")) as [->|Herr]; [simpl; lia|].
  destruct (decide (s = "")) as [->|Hempty]; [simpl; lia|].
  rewrite (bool_decide_eq_false_2 (s = "")) by done. simpl.
  rewrite decide_True by (split; congruence).
  rewrite decide_False by congruence. simpl. lia.
Qed.

Section BatchFacts.

Variable sha1_hexdigest : string → string.
Variable requests_get : nat → string → Exc response.

Lemma batch_step_length i password results :
  length (batch_step sha1_hexdigest requests_get i password results)
  = match requests_get i (api_url +:+ prefix sha1_hexdigest password) with
    | Return response =>
        if status_code response =? 200 then S (length results)
        else length results
    | Raise _ => S (length results)
    end.
Proof.
  unfold batch_step.
  destruct (requests_get _ _) as [response|e].
  - destruct (status_code response =? 200); [|done].
    destruct (scan_hashes _ _) as [[found n]|e];
      rewrite length_app; simpl; lia.
  - rewrite length_app; simpl; lia.
Qed.

(** When no request is answered with another status than 200, each
    password adds one row. *)
Lemma batch_loop_length i passwords results :
  (∀ j url response,
     requests_get j url = Return response → status_code response = 200) →
  length (batch_loop sha1_hexdigest requests_get i passwords results)
  = (length results + length passwords)%nat.
Proof.
  intros Hok. revert i results.
  induction passwords as [|password rest IH]; intros i results; simpl.
  - lia.
  - rewrite IH, batch_step_length.
    destruct (requests_get _ _) as [response|e] eqn:Hget; [|lia].
    rewrite (Hok _ _ _ Hget). simpl. lia.
Qed.

End BatchFacts.

End BreachChecker.

(** C6.  Let the range service answer the request for a password with
    status 200 and a body of well-formed [suffix:count] lines, separated by
    LF or CR LF.  The digest is cut into its first five characters (sent)
    and the rest (compared).  If some line carries the rest of the digest,
    the scan reports [found = True] with the count of that line -- the
    first such line, and any such line when no suffix is listed twice --
    and the page shows the breach with that count; if no line does, it
    reports [found = False].  For a digest of forty characters the two
    pieces have five and thirty-five. *)
Theorem check_password_lookup
    (sha1_hexdigest : string → string)
    (requests_get : nat → string → Exc BreachChecker.response)
    (password sep : string) (lines : list (string * string)) :
  password ≠ "" →
  sep ∈ PyStr.line_endings →
  Forall BreachChecker.well_formed lines →
  requests_get 0%nat
    (BreachChecker.api_url +:+ BreachChecker.prefix sha1_hexdigest password)
  = Return {| BreachChecker.status_code := 200;
              BreachChecker.text := BreachChecker.render_range sep lines |} →
  let prefix := BreachChecker.prefix sha1_hexdigest password in
  let suffix := BreachChecker.suffix sha1_hexdigest password in
  PyStr.upper (sha1_hexdigest password) = prefix +:+ suffix ∧
  (String.length (sha1_hexdigest password) = 40%nat →
   String.length prefix = 5%nat ∧ String.length suffix = 35%nat) ∧
  ∃ found breach_count,
    BreachChecker.scan_hashes
      (PyStr.splitlines (BreachChecker.render_range sep lines)) suffix
    = Return (found, breach_count) ∧
    BreachChecker.check_password sha1_hexdigest requests_get true password
    = Some (if found then BreachChecker.BreachDetected breach_count
            else BreachChecker.NotBreached) ∧
    (found = true ↔ ∃ l, l ∈ lines ∧ l.1 = suffix) ∧
    (∀ i l, lines !! i = Some l → l.1 = suffix →
            (∀ j l', lines !! j = Some l' → (j < i)%nat → l'.1 ≠ suffix) →
            found = true ∧ breach_count = PyStr.decimal_value l.2) ∧
    (NoDup lines.*1 → ∀ l, l ∈ lines → l.1 = suffix →
            found = true ∧ breach_count = PyStr.decimal_value l.2) ∧
    ((∀ l, l ∈ lines → l.1 ≠ suffix) → found = false).
Proof.
  intros Hpw Hsep Hwf Hget prefix suffix. split.
  { symmetry. apply BreachChecker.slice_to_from. }
  split.
  { intros Hlen. unfold prefix, suffix, BreachChecker.prefix,
      BreachChecker.suffix, BreachChecker.sha1_hash.
    rewrite PyStr.length_slice_to, PyStr.length_slice_from,
      PyStr.length_upper, Hlen. done. }
  pose proof (BreachChecker.scan_hashes_rendered lines suffix Hwf) as Hscan.
  rewrite <- (BreachChecker.splitlines_render_range sep) in Hscan by done.
  unfold BreachChecker.check_password.
  rewrite bool_decide_eq_false_2 by done. simpl.
  rewrite Hget. simpl. fold suffix. rewrite Hscan. clear Hscan Hget.
  destruct (list_find (λ l, l.1 = suffix) lines) as [[i l]|] eqn:Hfind.
  - apply list_find_Some in Hfind as (Hi & Hl & Hfirst).
    exists true, (PyStr.decimal_value l.2).
    split; [done|]. split; [done|]. split; [|split; [|split]].
    + split; [|done]. intros _. exists l. split; [|done].
      by eapply list_elem_of_lookup_2.
    + intros i' l' Hi' Hl' Hfirst'. split; [done|].
      destruct (Nat.lt_trichotomy i i') as [Hlt|[->|Hgt]].
      * by destruct (Hfirst' i l Hi Hlt).
      * congruence.
      * by destruct (Hfirst i' l' Hi' Hgt).
    + intros Hnodup l' [i' Hi']%list_elem_of_lookup_1 Hl'. split; [done|].
      assert (i = i') as <-; [|congruence].
      eapply NoDup_lookup; [done| |].
      * rewrite list_lookup_fmap, Hi. done.
      * rewrite list_lookup_fmap, Hi'. simpl. congruence.
    + intros Hnone. exfalso. apply (Hnone l); [|done].
      by eapply list_elem_of_lookup_2.
  - apply list_find_None in Hfind. rewrite Forall_forall in Hfind.
    exists false, 0.
    split; [done|]. split; [done|]. split; [|split; [|split]].
    + split; [done|]. intros (l & Hl & Hs). by destruct (Hfind l).
    + intros i l Hi Hs _. destruct (Hfind l); [|done].
      by eapply list_elem_of_lookup_2.
    + intros _ l Hl Hs. by destruct (Hfind l).
    + done.
Qed.

(** The check of ["password"] against a CR LF response that lists the rest
    of its digest on the second line. *)
Lemma check_password_lookup_witness :
  let lines := [ ("0018A45C4D1DEF81644B54AB7F969B88D65", "10");
                 ("1E4C9B93F3F0682250B6CF8331B7EE68FD8", "3730471");
                 ("FFE2E9D1B3EF2B6E1A8C8E3A2B1D3C4F5A6", "2") ] in
  let sep := String "013" (String "010" "") in
  let requests_get := λ (_ : nat) (_ : string),
    Return {| BreachChecker.status_code := 200;
              BreachChecker.text := BreachChecker.render_range sep lines |} in
  BreachChecker.prefix Sha1.hexdigest "password" = "5BAA6" ∧
  BreachChecker.check_password Sha1.hexdigest requests_get true "password"
  = Some (BreachChecker.BreachDetected 3730471).
Proof.
  intros lines sep requests_get.
  split; [by vm_compute|].
  assert (Hwf : Forall BreachChecker.well_formed lines).
  { repeat constructor. }
  assert (Hsep : sep ∈ PyStr.line_endings).
  { apply list_elem_of_further, list_elem_of_here. }
  assert (Hpw : "password" ≠ "") by done.
  destruct (check_password_lookup Sha1.hexdigest requests_get "password"
              sep lines Hpw Hsep Hwf eq_refl)
    as (_ & _ & found & breach_count & _ & Hcheck & _ & Hfirst & _).
  destruct (Hfirst 1%nat ("1E4C9B93F3F0682250B6CF8331B7EE68FD8", "3730471"))
    as [-> ->].
  - reflexivity.
  - by vm_compute.
  - intros j l' Hj Hlt. destruct j as [|j]; [|lia].
    injection Hj as <-. by vm_compute.
  - exact Hcheck.
Defined.

(** C7.  A request that is answered, but with a status other than 200,
    adds no row at all: one password goes in, the results stay empty, and
    the three summary figures add up to 0 instead of 1. *)
Theorem batch_check_drops_non_200 :
  let requests_get := λ (_ : nat) (_ : string),
    Return {| BreachChecker.status_code := 503;
              BreachChecker.text := "" |} in
  let results :=
    BreachChecker.batch_check Sha1.hexdigest requests_get ["hunter2"] in
  results = [] ∧
  (BreachChecker.safe_count results + BreachChecker.breached_count results
   + BreachChecker.error_count results)%nat = 0%nat ∧
  length ["hunter2"] = 1%nat.
Proof. by vm_compute. Qed.

(** ** Security dashboard ([app_1d_security_dashboard.py]): assessment *)

Module Assessment.

(** One entry of the [questions] list. *)
Record question := {
  q_id : string;
  q_question : string;
  q_weight : Z;
  q_category : string
}.

Definition questions : list question := [
  {| q_id := "unique_passwords";
     q_question := "Do you use unique passwords for each important account?";
     q_weight := 20; q_category := "Password Security" |};
  {| q_id := "password_manager";
     q_question := "Do you use a password manager?";
     q_weight := 15; q_category := "Password Security" |};
  {| q_id := "two_factor_auth";
     q_question := "Do you have 2FA enabled on important accounts (email, banking, social media)?";
     q_weight := 20; q_category := "Account Security" |};
  {| q_id := "software_updates";
     q_question := "Do you keep your software and operating system updated?";
     q_weight := 15; q_category := "System Security" |};
  {| q_id := "antivirus";
     q_question := "Do you have antivirus software installed and updated?";
     q_weight := 10; q_category := "System Security" |};
  {| q_id := "secure_browsing";
     q_question := "Do you avoid clicking suspicious links and downloading unknown files?";
     q_weight := 10; q_category := "Browsing Security" |};
  {| q_id := "wifi_security";
     q_question := "Do you avoid using public WiFi for sensitive activities?";
     q_weight := 5; q_category := "Network Security" |};
  {| q_id := "backup_strategy";
     q_question := "Do you have a regular backup strategy for important data?";
     q_weight := 5; q_category := "Data Protection" |}
].

(** The options of every radio button. *)
Definition answer_options : list string := ["Yes"; "Partially"; "No"].

(** [st.radio(label, options)]: the widget returns the option the user
    picked, the first one until they pick. *)
Definition radio (options : list string) (picked : nat) : string :=
  match options !! picked with
  | Some option => option
  | None => default "" (head options)
  end.

(** [for q in questions: responses[q["id"]] = st.radio(...)] *)
Fixpoint collect_responses (qs : list question) (picked : string → nat)
    (responses : gmap string string) : gmap string string :=
  match qs with
  | [] => responses
  | q :: rest =>
      collect_responses rest picked
        (<[q_id q := radio answer_options (picked (q_id q))]> responses)
  end.

(** An entry of [category_scores]. *)
Record category_score := { cs_score : Q; cs_max : Z }.

(** The [if]/[elif]/[else] on the response; [0.5] is exact. *)
Definition question_score (q : question) (response : string) : Q :=
  if decide (response = "Yes") then inject_Z (q_weight q)
  else if decide (response = "Partially")
       then (inject_Z (q_weight q) * (1 # 2))%Q
  else 0%Q.

(** The category bookkeeping of one loop iteration. *)
Definition track_category (q : question) (score : Q)
    (category_scores : gmap string category_score)
  : gmap string category_score :=
  let category_scores :=
    match category_scores !! q_category q with
    | None =>
        <[q_category q := {| cs_score := 0%Q; cs_max := 0 |}]> category_scores
    | Some _ => category_scores
    end in
  alter (λ cs, {| cs_score := (cs_score cs + score)%Q;
                  cs_max := cs_max cs + q_weight q |})
        (q_category q) category_scores.

(** [for q in questions: ...]; [responses[q["id"]]] raises [KeyError] on a
    missing key. *)
Fixpoint score_loop (qs : list question) (responses : gmap string string)
    (total_score : Q) (category_scores : gmap string category_score)
  : Exc (Q * gmap string category_score) :=
  match qs with
  | [] => Return (total_score, category_scores)
  | q :: rest =>
      match responses !! q_id q with
      | None => Raise KeyError
      | Some response =>
          let score := question_score q response in
          score_loop rest responses (total_score + score)%Q
                     (track_category q score category_scores)
      end
  end.

(** [sum(q["weight"] for q in questions)] *)
Definition max_score (qs : list question) : Z :=
  foldr Z.add 0 (q_weight <$> qs).

(** The computation under the button: the percentage and the category
    scores. *)
Definition calculate_score (qs : list question)
    (responses : gmap string string)
  : Exc (Q * gmap string category_score) :=
  '(total_score, category_scores) ← score_loop qs responses 0%Q ∅;
  if decide (max_score qs = 0) then Raise ZeroDivisionError
  else
    let percentage_score :=
      ((total_score / inject_Z (max_score qs)) * 100)%Q in
    Return (percentage_score, category_scores).

(** *** The scoring rule in the words of the specification *)

Inductive answer := Yes | Partially | No.

Definition answer_text (a : answer) : string :=
  match a with
  | Yes => "Yes"
  | Partially => "Partially"
  | No => "No"
  end.

(** Full weight, half the weight, nothing. *)
Definition credit (q : question) (a : answer) : Q :=
  match a with
  | Yes => inject_Z (q_weight q)
  | Partially => (inject_Z (q_weight q) / 2)%Q
  | No => 0%Q
  end.

Definition sumQ (l : list Q) : Q := foldr Qplus 0%Q l.
Definition sumZ (l : list Z) : Z := foldr Z.add 0 l.

(** The questions of a category. *)
Definition in_category (c : string) (qs : list question) : list question :=
  filter (λ q, q_category q = c) qs.

Definition credits (answers : string → answer) (qs : list question)
  : list Q :=
  (λ q, credit q (answers (q_id q))) <$> qs.

(** What [category_scores] holds for a category; nothing counts as zero. *)
Definition cat_totals (category_scores : gmap string category_score)
    (c : string) : Q * Z :=
  match category_scores !! c with
  | Some cs => (cs_score cs, cs_max cs)
  | None => (0%Q, 0)
  end.

Lemma question_score_credit q a :
  (question_score q (answer_text a) == credit q a)%Q.
Proof.
  unfold question_score.
  destruct a; simpl; repeat case_decide; try done; reflexivity.
Qed.

Lemma track_category_lookup q score cats c :
  track_category q score cats !! c =
  if decide (c = q_category q)
  then Some {| cs_score := ((cat_totals cats c).1 + score)%Q;
               cs_max := (cat_totals cats c).2 + q_weight q |}
  else cats !! c.
Proof.
  unfold track_category, cat_totals.
  destruct (decide (c = q_category q)) as [->|Hne].
  - destruct (cats !! q_category q) as [cs|] eqn:Hcat.
    + by rewrite lookup_alter_eq, Hcat.
    + by rewrite lookup_alter_eq, lookup_insert_eq.
  - rewrite lookup_alter_ne by done.
    destruct (cats !! q_category q); [done|].
    by rewrite lookup_insert_ne.
Qed.

Lemma cat_totals_track q score cats c :
  cat_totals (track_category q score cats) c =
  if decide (c = q_category q)
  then (((cat_totals cats c).1 + score)%Q, (cat_totals cats c).2 + q_weight q)
  else cat_totals cats c.
Proof.
  unfold cat_totals at 1. rewrite track_category_lookup.
  by case_decide.
Qed.

Lemma in_category_cons c q qs :
  in_category c (q :: qs) =
  if decide (q_category q = c) then q :: in_category c qs
  else in_category c qs.
Proof. unfold in_category. by rewrite filter_cons. Qed.

(** The loop adds to the running total the credit of every question, and
    to each category the credit and the weight of its questions. *)
Lemma score_loop_spec (answers : string → answer) qs responses total cats :
  (∀ q, q ∈ qs →
        responses !! q_id q = Some (answer_text (answers (q_id q)))) →
  ∃ total' cats',
    score_loop qs responses total cats = Return (total', cats') ∧
    (total' == total + sumQ (credits answers qs))%Q ∧
    ∀ c,
      ((cat_totals cats' c).1 ==
         (cat_totals cats c).1 + sumQ (credits answers (in_category c qs)))%Q ∧
      (cat_totals cats' c).2 =
         (cat_totals cats c).2 + sumZ (q_weight <$> in_category c qs) ∧
      (is_Some (cats' !! c) ↔
         is_Some (cats !! c) ∨ c ∈ q_category <$> qs).
Proof.
  revert total cats. induction qs as [|q qs IH]; intros total cats Hresp.
  - exists total, cats. split; [done|]. split; [simpl; lra|].
    intros c. split; [simpl; lra|]. split; [simpl; lia|].
    rewrite fmap_nil, elem_of_nil. tauto.
  - cbn [score_loop]. rewrite (Hresp q) by apply list_elem_of_here.
    pose proof (question_score_credit q (answers (q_id q))) as Hscore.
    set (score := question_score q (answer_text (answers (q_id q)))) in *.
    destruct (IH (total + score)%Q (track_category q score cats))
      as (total' & cats' & Hloop & Htotal & Hcats).
    { intros q' Hq'. apply Hresp. by apply list_elem_of_further. }
    exists total', cats'. split; [done|]. split.
    { unfold credits in *. rewrite fmap_cons. simpl. lra. }
    intros c. destruct (Hcats c) as (Hs & Hm & Hdom). clear Hcats.
    rewrite cat_totals_track in Hs, Hm.
    rewrite track_category_lookup in Hdom.
    rewrite in_category_cons, fmap_cons, elem_of_cons.
    destruct (decide (c = q_category q)) as [->|Hne].
    + rewrite decide_True by done. simpl in Hs, Hm.
      unfold credits in *. rewrite !fmap_cons. simpl.
      split; [lra|]. split; [lia|].
      rewrite Hdom. split; [tauto|]. intros _. left. by eexists.
    + rewrite decide_False by done.
      split; [done|]. split; [done|]. rewrite Hdom. tauto.
Qed.

Lemma max_score_sumZ qs : max_score qs = sumZ (q_weight <$> qs).
Proof. done. Qed.

(** The computation for any list of questions whose weights do not add up
    to zero. *)
Lemma calculate_score_spec (answers : string → answer) qs responses :
  max_score qs ≠ 0 →
  (∀ q, q ∈ qs →
        responses !! q_id q = Some (answer_text (answers (q_id q)))) →
  ∃ percentage_score category_scores,
    calculate_score qs responses
    = Return (percentage_score, category_scores) ∧
    (percentage_score ==
       100 * sumQ (credits answers qs) / inject_Z (sumZ (q_weight <$> qs)))%Q ∧
    ∀ c,
      match category_scores !! c with
      | Some cs =>
          c ∈ q_category <$> qs ∧
          (cs_score cs == sumQ (credits answers (in_category c qs)))%Q ∧
          cs_max cs = sumZ (q_weight <$> in_category c qs)
      | None => c ∉ q_category <$> qs
      end.
Proof.
  intros Hmax Hresp.
  destruct (score_loop_spec answers qs responses 0%Q ∅ Hresp)
    as (total & cats & Hloop & Htotal & Hcats).
  unfold calculate_score. rewrite Hloop. simpl.
  rewrite decide_False by done.
  eexists _, cats. split; [done|]. split.
  - rewrite <- max_score_sumZ, Htotal.
    assert (Hnz : ¬ (inject_Z (max_score qs) == 0)%Q).
    { unfold Qeq. simpl. lia. }
    field. done.
  - intros c. destruct (Hcats c) as (Hs & Hm & Hdom).
    unfold cat_totals in Hs, Hm. rewrite lookup_empty in Hs, Hm, Hdom.
    simpl in Hs, Hm. destruct (cats !! c) as [cs|] eqn:Hc; simpl in *.
    + split; [|split; [lra|lia]].
      destruct (proj1 Hdom) as [[? [=]]|?]; [by eexists|done].
    + intros Hin. destruct (proj2 Hdom) as [? [=]]. by right.
Qed.

(** *** Answers outside the three options *)

(** What the scoring makes of a response: anything but Yes and Partially
    is treated as No. *)
Definition as_no (response : string) : string :=
  if decide (response = "Yes") then response
  else if decide (response = "Partially") then response
  else "No".

Lemma question_score_other q response :
  response ≠ "Yes" → response ≠ "Partially" →
  question_score q response = 0%Q.
Proof.
  intros H1 H2. unfold question_score. by rewrite !decide_False.
Qed.

Lemma question_score_as_no q response :
  question_score q (as_no response) = question_score q response.
Proof.
  unfold as_no. repeat case_decide; try done.
  by rewrite !question_score_other.
Qed.

Lemma score_loop_as_no qs responses total cats :
  score_loop qs (as_no <$> responses) total cats
  = score_loop qs responses total cats.
Proof.
  revert total cats. induction qs as [|q qs IH]; intros total cats; [done|].
  cbn [score_loop]. rewrite lookup_fmap.
  destruct (responses !! q_id q) as [response|]; [|done].
  simpl. by rewrite question_score_as_no, IH.
Qed.

Lemma calculate_score_as_no qs responses :
  calculate_score qs (as_no <$> responses) = calculate_score qs responses.
Proof. unfold calculate_score. by rewrite score_loop_as_no. Qed.

(** With a response for every question the loop runs to its end. *)
Lemma score_loop_returns qs responses total cats :
  (∀ q, q ∈ qs → is_Some (responses !! q_id q)) →
  ∃ r, score_loop qs responses total cats = Return r.
Proof.
  revert total cats. induction qs as [|q qs IH]; intros total cats Hresp.
  - by eexists.
  - cbn [score_loop].
    destruct (Hresp q) as [response ->]; [apply list_elem_of_here|].
    apply IH. intros q' Hq'. apply Hresp. by apply list_elem_of_further.
Qed.


Lemma collect_responses_lookup qs picked responses id :
  collect_responses qs picked responses !! id =
  if decide (id ∈ q_id <$> qs)
  then Some (radio answer_options (picked id))
  else responses !! id.
Proof.
  revert responses. induction qs as [|q qs IH]; intros responses.
  - rewrite decide_False; [done|]. rewrite fmap_nil. apply not_elem_of_nil.
  - cbn [collect_responses]. rewrite IH, fmap_cons.
    destruct (decide (id ∈ q_id <$> qs)) as [Hin|Hnin].
    + rewrite decide_True; [done|]. by apply list_elem_of_further.
    + destruct (decide (id = q_id q)) as [->|Hne].
      * rewrite lookup_insert_eq, decide_True; [done|].
        apply list_elem_of_here.
      * rewrite lookup_insert_ne by done. rewrite decide_False; [done|].
        rewrite elem_of_cons. tauto.
Qed.


(** *** Sample data *)

(** All answers Yes, except that the antivirus question carries a response
    that is none of the three options. *)
Definition responses_with_maybe : gmap string string :=
  <["antivirus" := "Maybe"]> (collect_responses questions (λ _, 0%nat) ∅).

End Assessment.

(** ** Security dashboard: the assessment in Python's numbers

    [Assessment] reads the arithmetic of the scoring in exact rationals.
    The scores, the running total and the category sums are integers and
    halves below 2^53, which binary64 holds exactly; the one place where
    Python rounds is the last line,
    [percentage_score = (total_score / max_score) * 100].  This module
    embeds the same lines with Python's numbers: an [int] stays an [int],
    and an operation that meets a float is a binary64 operation. *)

Module FloatAssessment.
Import Assessment.

(** A Python number: an [int] or a [float], which is a binary64 value. *)
Inductive number :=
  | PyInt (n : Z)
  | PyFloat (x : float).

(** [float(n)]: the float nearest to the integer, ties to even.  (Beyond
    the largest float Python raises [OverflowError]; the integers of this
    page are sums of weights.) *)
Definition float_of_int (n : Z) : float :=
  SF2Prim (binary_normalize prec emax n 0 false).

Definition to_float (a : number) : float :=
  match a with
  | PyInt n => float_of_int n
  | PyFloat x => x
  end.

(** [a + b] and [a * b]: exact on two ints; otherwise the int is
    converted and the floats are added or multiplied, with one rounding. *)
Definition add (a b : number) : number :=
  match a, b with
  | PyInt m, PyInt n => PyInt (m + n)
  | _, _ => PyFloat (to_float a + to_float b)%float
  end.

Definition mul (a b : number) : number :=
  match a, b with
  | PyInt m, PyInt n => PyInt (m * n)
  | _, _ => PyFloat (to_float a * to_float b)%float
  end.

(** [b == 0] *)
Definition is_zero (b : number) : bool :=
  match b with
  | PyInt n => n =? 0
  | PyFloat x => (x =? 0)%float
  end.

(** [a / b]: always a float, the quotient rounded once (two ints below
    2^53 convert exactly, so dividing their floats rounds their exact
    quotient); [ZeroDivisionError] when [b] is zero. *)
Definition truediv (a b : number) : Exc number :=
  if is_zero b then Raise ZeroDivisionError
  else Return (PyFloat (to_float a / to_float b)%float).

(** The exact value of a float that is finite. *)
Definition float_value (x : float) : option Q :=
  match Prim2SF x with
  | S754_zero _ => Some 0%Q
  | S754_finite s m e =>
      Some ((if s then -1 else 1) * inject_Z (Z.pos m) * Qpower 2 e)%Q
  | _ => None
  end.

Definition number_value (a : number) : option Q :=
  match a with
  | PyInt n => Some (inject_Z n)
  | PyFloat x => float_value x
  end.

(** An entry of [category_scores]. *)
Record category_score := { cs_score : number; cs_max : Z }.

(** The [if]/[elif]/[else] on the response. *)
Definition question_score (q : question) (response : string) : number :=
  if decide (response = "Yes") then PyInt (q_weight q)
  else if decide (response = "Partially")
       then mul (PyInt (q_weight q)) (PyFloat 0.5)
  else PyInt 0.

(** The category bookkeeping of one loop iteration. *)
Definition track_category (q : question) (score : number)
    (category_scores : gmap string category_score)
  : gmap string category_score :=
  let category_scores :=
    match category_scores !! q_category q with
    | None =>
        <[q_category q := {| cs_score := PyInt 0; cs_max := 0 |}]>
          category_scores
    | Some _ => category_scores
    end in
  alter (λ cs, {| cs_score := add (cs_score cs) score;
                  cs_max := cs_max cs + q_weight q |})
        (q_category q) category_scores.

(** [for q in questions: ...] *)
Fixpoint score_loop (qs : list question) (responses : gmap string string)
    (total_score : number) (category_scores : gmap string category_score)
  : Exc (number * gmap string category_score) :=
  match qs with
  | [] => Return (total_score, category_scores)
  | q :: rest =>
      match responses !! q_id q with
      | None => Raise KeyError
      | Some response =>
          let score := question_score q response in
          score_loop rest responses (add total_score score)
                     (track_category q score category_scores)
      end
  end.

(** The computation under the button, in Python's numbers. *)
Definition calculate_score (qs : list question)
    (responses : gmap string string)
  : Exc (number * gmap string category_score) :=
  '(total_score, category_scores) ← score_loop qs responses (PyInt 0) ∅;
  ratio ← truediv total_score (PyInt (max_score qs));
  let percentage_score := mul ratio (PyInt 100) in
  Return (percentage_score, category_scores).


(** *** The outcome for each way of answering *)

(** A number whose exact value is [v]. *)
Definition has_value (a : number) (v : Q) : Prop :=
  ∃ w, number_value a = Some w ∧ (w == v)%Q.

Definition has_valueb (a : number) (v : Q) : bool :=
  match number_value a with
  | Some w => Qeq_bool w v
  | None => false
  end.

Lemma has_valueb_spec a v : has_valueb a v = true → has_value a v.
Proof.
  unfold has_valueb, has_value. destruct (number_value a) as [w|]; [|done].
  intros Hw. exists w. split; [done|]. by apply Qeq_bool_iff.
Qed.

(** The totals for which the percentage is not the exact one. *)
Definition rounded_totals : list Q := [55 # 2; 55; 115 # 2]%Q.

(** The percentage in exact arithmetic. *)
Definition exact_percentage (answers : string → answer) : Q :=
  (100 * sumQ (credits answers questions)
   / inject_Z (sumZ (q_weight <$> questions)))%Q.

(** What the computation returns when the questions are answered by
    [answers]. *)
Definition outcome (answers : string → answer)
    (result : Exc (number * gmap string category_score)) : Prop :=
  ∃ percentage_score category_scores,
    result = Return (PyFloat percentage_score, category_scores) ∧
    (∃ v, float_value percentage_score = Some v ∧
          (Qabs (v - exact_percentage answers) <= 1 # 140737488355328)%Q ∧
          ((v == exact_percentage answers)%Q ↔
           ∀ r, r ∈ rounded_totals → ¬ (exact_percentage answers == r)%Q)) ∧
    ∀ c,
      match category_scores !! c with
      | Some cs =>
          c ∈ q_category <$> questions ∧
          has_value (cs_score cs)
            (sumQ (credits answers (in_category c questions))) ∧
          cs_max cs = sumZ (q_weight <$> in_category c questions)
      | None => c ∉ q_category <$> questions
      end.

Definition outcomeb (answers : string → answer)
    (result : Exc (number * gmap string category_score)) : bool :=
  match result with
  | Return (PyFloat percentage_score, category_scores) =>
      match float_value percentage_score with
      | Some v =>
          Qle_bool (Qabs (v - exact_percentage answers)) (1 # 140737488355328)
          && Bool.eqb (Qeq_bool v (exact_percentage answers))
                 (forallb (λ r, negb (Qeq_bool (exact_percentage answers) r))
                          rounded_totals)
      | None => false
      end
      && forallb (λ c,
           match category_scores !! c with
           | Some cs =>
               has_valueb (cs_score cs)
                 (sumQ (credits answers (in_category c questions)))
               && (cs_max cs =? sumZ (q_weight <$> in_category c questions))
           | None => false
           end) (q_category <$> questions)
      && forallb (λ kv, bool_decide (kv.1 ∈ q_category <$> questions))
                 (map_to_list category_scores)
  | _ => false
  end.

Lemma outcomeb_spec answers result :
  outcomeb answers result = true → outcome answers result.
Proof.
  unfold outcomeb, outcome.
  destruct result as [[[n|p] cats]|e]; try discriminate.
  destruct (float_value p) as [v|] eqn:Hv; [|discriminate].
  rewrite !andb_true_iff. intros [[[Hle Heq] Hcats] Hdom].
  exists p, cats. split; [reflexivity|]. split.
  - exists v. split; [exact Hv|]. split; [by apply Qle_bool_iff|].
    apply eqb_prop in Heq. rewrite <- Qeq_bool_iff, Heq.
    rewrite forallb_forall. split.
    + intros Hall r Hr Hx. apply list_elem_of_In in Hr.
      specialize (Hall r Hr). apply negb_true_iff in Hall.
      apply Qeq_bool_iff in Hx. congruence.
    + intros Hall r Hr. apply negb_true_iff.
      destruct (Qeq_bool (exact_percentage answers) r) eqn:Hx; [|done].
      exfalso. apply (Hall r); [by apply list_elem_of_In|].
      by apply Qeq_bool_iff.
  - intros c. rewrite forallb_forall in Hcats, Hdom.
    destruct (decide (c ∈ q_category <$> questions)) as [Hc|Hc].
    + apply list_elem_of_In in Hc as Hc'. specialize (Hcats c Hc').
      destruct (cats !! c) as [cs|]; [|discriminate].
      apply andb_true_iff in Hcats as [Hval Hm].
      split; [exact Hc|]. split; [by apply has_valueb_spec|].
      by apply Z.eqb_eq.
    + destruct (cats !! c) as [cs|] eqn:Hlook; [|exact Hc].
      exfalso. apply Hc.
      apply elem_of_map_to_list in Hlook. apply list_elem_of_In in Hlook.
      specialize (Hdom _ Hlook). by apply bool_decide_eq_true in Hdom.
Qed.

(** All the ways of answering [n] questions. *)
Fixpoint vectors (n : nat) : list (list answer) :=
  match n with
  | O => [[]]
  | S n =>
      flat_map (λ l, [Yes :: l; Partially :: l; No :: l]) (vectors n)
  end.

Lemma vectors_complete l : In l (vectors (length l)).
Proof.
  induction l as [|a l IH]; [by left|].
  cbn [length vectors]. apply in_flat_map. exists l. split; [exact IH|].
  destruct a; simpl; tauto.
Qed.

(** The answers and the responses for a vector of answers, one for each
    question in turn. *)
Definition answers_of (l : list answer) (id : string) : answer :=
  default No
    ((list_to_map (zip (q_id <$> questions) l) : gmap string answer) !! id).

Definition responses_of (l : list answer) : gmap string string :=
  list_to_map (zip (q_id <$> questions) (answer_text <$> l)).

Lemma all_outcomes :
  forallb (λ l, outcomeb (answers_of l)
                  (calculate_score questions (responses_of l)))
          (vectors 8) = true.
Proof. vm_compute. reflexivity. Qed.

Lemma score_loop_ext qs responses responses' total cats :
  (∀ q, q ∈ qs → responses !! q_id q = responses' !! q_id q) →
  score_loop qs responses total cats = score_loop qs responses' total cats.
Proof.
  revert total cats. induction qs as [|q qs IH]; intros total cats Hagree;
    [reflexivity|].
  cbn [score_loop]. rewrite <- (Hagree q) by apply list_elem_of_here.
  destruct (responses !! q_id q) as [response|]; [|reflexivity].
  apply IH. intros q' Hq'. apply Hagree. by apply list_elem_of_further.
Qed.

Lemma credits_ext (f g : string → answer) qs :
  (∀ q, q ∈ qs → f (q_id q) = g (q_id q)) → credits f qs = credits g qs.
Proof.
  intros Hagree. unfold credits. apply list_fmap_ext.
  intros i q Hq. rewrite (Hagree q); [reflexivity|].
  by eapply list_elem_of_lookup_2.
Qed.

Lemma outcome_ext (f g : string → answer) result :
  (∀ q, q ∈ questions → f (q_id q) = g (q_id q)) →
  outcome f result → outcome g result.
Proof.
  intros Hagree (p & cats & Hr & Hp & Hcats).
  exists p, cats. split; [exact Hr|].
  assert (exact_percentage f = exact_percentage g) as <-.
  { unfold exact_percentage. by rewrite (credits_ext f g questions). }
  split; [exact Hp|]. intros c. specialize (Hcats c).
  rewrite <- (credits_ext f g (in_category c questions)); [exact Hcats|].
  intros q Hq. apply Hagree. unfold in_category in Hq.
  by apply list_elem_of_filter in Hq as [_ ?].
Qed.

Lemma answers_of_vector (answers : string → answer) q :
  q ∈ questions →
  answers_of ((λ q, answers (q_id q)) <$> questions) (q_id q)
  = answers (q_id q).
Proof.
  intros Hq. unfold questions in Hq.
  repeat (apply elem_of_cons in Hq as [->|Hq]; [vm_compute; reflexivity|]).
  by apply elem_of_nil in Hq.
Qed.

Lemma responses_of_vector (answers : string → answer) q :
  q ∈ questions →
  responses_of ((λ q, answers (q_id q)) <$> questions) !! q_id q
  = Some (answer_text (answers (q_id q))).
Proof.
  intros Hq. unfold questions in Hq.
  repeat (apply elem_of_cons in Hq as [->|Hq]; [vm_compute; reflexivity|]).
  by apply elem_of_nil in Hq.
Qed.

(** Whatever three-valued answers the questions get, the computation
    comes out as [outcome] says. *)
Lemma calculate_score_outcome (answers : string → answer) responses :
  (∀ q, q ∈ questions →
        responses !! q_id q = Some (answer_text (answers (q_id q)))) →
  outcome answers (calculate_score questions responses).
Proof.
  intros Hresp.
  set (l := (λ q, answers (q_id q)) <$> questions).
  assert (calculate_score questions responses
          = calculate_score questions (responses_of l)) as ->.
  { unfold calculate_score. f_equal. apply score_loop_ext.
    intros q Hq. rewrite (Hresp q Hq). symmetry.
    by apply responses_of_vector. }
  apply (outcome_ext (answers_of l)).
  { intros q Hq. by apply answers_of_vector. }
  apply outcomeb_spec.
  pose proof all_outcomes as Hall. rewrite forallb_forall in Hall.
  apply (Hall l). apply (vectors_complete l).
Qed.

Lemma question_score_value q (a : answer) :
  q ∈ questions →
  has_value (question_score q (answer_text a)) (credit q a).
Proof.
  intros Hq. apply has_valueb_spec. unfold questions in Hq.
  repeat (apply elem_of_cons in Hq as [->|Hq];
          [destruct a; vm_compute; reflexivity|]).
  by apply elem_of_nil in Hq.
Qed.

End FloatAssessment.

(** C1.  For every assignment of an answer among Yes, Partially and No to
    the eight questions of the dashboard, each question scores its full
    weight for Yes, half its weight for Partially and 0 for No, and
    [category_scores] holds, for each category and for no other key, the
    sum of the scores and the sum of the weights of its questions, all
    exactly.  The percentage is the float that
    [(total_score / max_score) * 100] gives in binary64: it is within
    2^-47 of [100 * (sum of the scores) / (sum of the weights)], and it is
    that value exactly unless the scores add up to 27.5, 55 or 57.5. *)
Theorem percentage_score_formula
    (answers : string → Assessment.answer)
    (responses : gmap string string) :
  (∀ q, q ∈ Assessment.questions →
        responses !! Assessment.q_id q
        = Some (Assessment.answer_text (answers (Assessment.q_id q)))) →
  (∀ q, q ∈ Assessment.questions →
        ∃ response,
          responses !! Assessment.q_id q = Some response ∧
          FloatAssessment.has_value
            (FloatAssessment.question_score q response)
            (Assessment.credit q (answers (Assessment.q_id q)))) ∧
  ∃ percentage_score category_scores,
    FloatAssessment.calculate_score Assessment.questions responses
    = Return (FloatAssessment.PyFloat percentage_score, category_scores) ∧
    (∃ v,
       FloatAssessment.float_value percentage_score = Some v ∧
       (Qabs (v - FloatAssessment.exact_percentage answers)
        <= 1 # 140737488355328)%Q ∧
       ((v == FloatAssessment.exact_percentage answers)%Q ↔
        ∀ r, r ∈ FloatAssessment.rounded_totals →
             ¬ (FloatAssessment.exact_percentage answers == r)%Q)) ∧
    ∀ c,
      match category_scores !! c with
      | Some cs =>
          c ∈ Assessment.q_category <$> Assessment.questions ∧
          FloatAssessment.has_value (FloatAssessment.cs_score cs)
            (Assessment.sumQ (Assessment.credits answers
               (Assessment.in_category c Assessment.questions))) ∧
          FloatAssessment.cs_max cs =
            Assessment.sumZ (Assessment.q_weight <$>
              Assessment.in_category c Assessment.questions)
      | None => c ∉ Assessment.q_category <$> Assessment.questions
      end.
Proof.
  intros Hresp. split.
  - intros q Hq. eexists. split; [by apply Hresp|].
    by apply FloatAssessment.question_score_value.
  - by apply FloatAssessment.calculate_score_outcome.
Qed.

(** Every answer Yes except Partially for the WiFi question: 97.5. *)
Lemma percentage_score_formula_witness :
  let picked := λ id : string,
    if decide (id = "wifi_security") then 1%nat else 0%nat in
  let responses :=
    Assessment.collect_responses Assessment.questions picked ∅ in
  ∃ percentage_score category_scores v,
    FloatAssessment.calculate_score Assessment.questions responses
    = Return (FloatAssessment.PyFloat percentage_score, category_scores) ∧
    FloatAssessment.float_value percentage_score = Some v ∧
    (v == 975 # 10)%Q.
Proof.
  intros picked responses.
  pose (answers := λ id : string,
    if decide (id = "wifi_security") then Assessment.Partially
    else Assessment.Yes).
  assert (Hresp : ∀ q, q ∈ Assessment.questions →
    responses !! Assessment.q_id q
    = Some (Assessment.answer_text (answers (Assessment.q_id q)))).
  { intros q Hq. unfold Assessment.questions in Hq.
    repeat (apply elem_of_cons in Hq as [->|Hq]; [vm_compute; reflexivity|]).
    by apply elem_of_nil in Hq. }
  destruct (percentage_score_formula answers responses Hresp)
    as (_ & percentage_score & category_scores & Hcalc & Hpct & _).
  clear Hresp.
  destruct Hpct as (v & Hv & _ & Hexact).
  exists percentage_score, category_scores, v.
  split; [exact Hcalc|]. split; [exact Hv|].
  apply (Qeq_trans _ (FloatAssessment.exact_percentage answers)).
  - apply (proj2 Hexact). intros r Hr Hx.
    unfold FloatAssessment.rounded_totals in Hr.
    repeat (apply elem_of_cons in Hr as [->|Hr];
            [vm_compute in Hx; discriminate Hx|]).
    by apply elem_of_nil in Hr.
  - vm_compute. reflexivity.
Defined.

(** C1, the claim refuted as an equality: with Yes to the first three
    questions and No to the others the scores add up to 55 and the exact
    percentage is 55, but the page computes [55 / 100 * 100] in binary64
    and stores the next float above 55, which Python prints as
    55.00000000000001. *)
Lemma percentage_score_rounded :
  let strong := ["unique_passwords"; "password_manager"; "two_factor_auth"] in
  let picked := λ id : string,
    if decide (id ∈ strong) then 0%nat else 2%nat in
  let answers := λ id : string,
    if decide (id ∈ strong) then Assessment.Yes else Assessment.No in
  let responses :=
    Assessment.collect_responses Assessment.questions picked ∅ in
  (Assessment.sumQ (Assessment.credits answers Assessment.questions) == 55)%Q ∧
  (FloatAssessment.exact_percentage answers == 55)%Q ∧
  ∃ percentage_score category_scores v,
    FloatAssessment.calculate_score Assessment.questions responses
    = Return (FloatAssessment.PyFloat percentage_score, category_scores) ∧
    FloatAssessment.float_value percentage_score = Some v ∧
    (v - 55 == 1 # 140737488355328)%Q ∧
    ¬ (v == 55)%Q.
Proof.
  intros strong picked answers responses.
  split; [vm_compute; reflexivity|]. split; [vm_compute; reflexivity|].
  assert (match FloatAssessment.calculate_score Assessment.questions responses
          with
          | Return (FloatAssessment.PyFloat p, _) =>
              FloatAssessment.float_value p
          | _ => None
          end = Some (7740561859543041 # 140737488355328)%Q) as Hrun
    by (vm_compute; reflexivity).
  destruct (FloatAssessment.calculate_score Assessment.questions responses)
    as [[[n|p] cats]|e]; try discriminate Hrun.
  exists p, cats, (7740561859543041 # 140737488355328)%Q.
  split; [reflexivity|]. split; [exact Hrun|].
  split; [vm_compute; reflexivity|]. vm_compute. discriminate.
Qed.


(** ** Security dashboard: goals *)

Module Goals.

(** A goal dictionary. *)
Record goal_dict := {
  g_id : Z;
  g_title : string;
  g_description : string;
  g_category : string;
  g_deadline : string;        (* [goal_deadline.isoformat()] *)
  g_priority : string;
  g_created_date : string;    (* [datetime.now().isoformat()] *)
  g_completed : bool;
  g_progress : Z
}.

(** What the user typed into the form, and the time of the click. *)
Record form := {
  goal_title : string;
  goal_description : string;
  goal_category : string;
  goal_deadline : string;
  goal_priority : string;
  now : string
}.

Definition new_goal (id : Z) (f : form) : goal_dict :=
  {| g_id := id;
     g_title := goal_title f;
     g_description := goal_description f;
     g_category := goal_category f;
     g_deadline := goal_deadline f;
     g_priority := goal_priority f;
     g_created_date := now f;
     g_completed := false;
     g_progress := 0 |}.

(** [if st.button("Create Goal") and goal_title: ... goals.append(goal)] *)
Definition create_goal (clicked : bool) (f : form) (goals : list goal_dict)
  : list goal_dict :=
  if clicked && negb (bool_decide (goal_title f = ""))
  then goals ++ [new_goal (Z.of_nat (length goals)) f]
  else goals.

(** The creations of a session, one after the other. *)
Definition create_goals (forms : list form) (goals : list goal_dict)
  : list goal_dict :=
  foldl (λ goals f, create_goal true f goals) goals forms.

Definition set_progress (p : Z) (g : goal_dict) : goal_dict :=
  {| g_id := g_id g; g_title := g_title g;
     g_description := g_description g; g_category := g_category g;
     g_deadline := g_deadline g; g_priority := g_priority g;
     g_created_date := g_created_date g;
     g_completed := g_completed g; g_progress := p |}.

Definition set_completed (b : bool) (g : goal_dict) : goal_dict :=
  {| g_id := g_id g; g_title := g_title g;
     g_description := g_description g; g_category := g_category g;
     g_deadline := g_deadline g; g_priority := g_priority g;
     g_created_date := g_created_date g;
     g_completed := b; g_progress := g_progress g |}.

(** The body of the loop over the active goals, for the slider position
    [current_progress]. *)
Definition track_progress (current_progress : Z) (goal : goal_dict)
  : goal_dict :=
  if decide (current_progress ≠ g_progress goal) then
    let goal := set_progress current_progress goal in
    if 100 <=? current_progress then set_completed true goal else goal
  else goal.

(** [for goal in active_goals: ...], where [active_goals] are the goals
    that are not completed.  The goal dictionaries are shared with
    [security_data["goals"]], so the loop updates that list in place.
    [sliders] gives the position of the slider keyed by a goal's id when
    the user has moved it; an untouched slider shows the goal's progress. *)
Definition progress_tracker (sliders : Z → option Z) (goals : list goal_dict)
  : list goal_dict :=
  (λ goal,
     if g_completed goal then goal
     else track_progress (default (g_progress goal) (sliders (g_id goal)))
                         goal) <$> goals.

(** The user moves the slider of goal [id] to [new_progress]. *)
Definition update_progress (id new_progress : Z) (goals : list goal_dict)
  : list goal_dict :=
  progress_tracker
    (λ key, if decide (key = id) then Some new_progress else None) goals.

(** The user presses the Complete button of the active goal [id]. *)
Definition complete (id : Z) (goals : list goal_dict) : list goal_dict :=
  (λ goal,
     if g_completed goal then goal
     else if decide (g_id goal = id)
          then set_progress 100 (set_completed true goal)
          else goal) <$> goals.

(** The goal lists the page can hold, starting with none. *)
Inductive reachable : list goal_dict → Prop :=
  | reachable_nil : reachable []
  | reachable_create clicked f goals :
      reachable goals → reachable (create_goal clicked f goals)
  | reachable_update id new_progress goals :
      reachable goals → reachable (update_progress id new_progress goals)
  | reachable_complete id goals :
      reachable goals → reachable (complete id goals).

(** Ids are positions, and an unfinished goal is below 100. *)
Definition consistent (goals : list goal_dict) : Prop :=
  ∀ i g, goals !! i = Some g →
         g_id g = Z.of_nat i ∧ (g_completed g = false → g_progress g < 100).

(** *** Creation *)

(** Goals numbered from [n] on, one per form. *)
Fixpoint numbered (n : nat) (forms : list form) : list goal_dict :=
  match forms with
  | [] => []
  | f :: forms => new_goal (Z.of_nat n) f :: numbered (S n) forms
  end.

(** The forms that carry a title. *)
Definition titled (forms : list form) : list form :=
  filter (λ f, goal_title f ≠ "") forms.

Lemma create_goal_titled f goals :
  goal_title f ≠ "" →
  create_goal true f goals = goals ++ [new_goal (Z.of_nat (length goals)) f].
Proof.
  intros Ht. unfold create_goal. by rewrite bool_decide_eq_false_2.
Qed.

Lemma create_goal_untitled clicked f goals :
  goal_title f = "" → create_goal clicked f goals = goals.
Proof.
  intros Ht. unfold create_goal. rewrite bool_decide_eq_true_2 by done.
  by rewrite andb_false_r.
Qed.

Lemma create_goal_not_clicked f goals : create_goal false f goals = goals.
Proof. done. Qed.

Lemma create_goals_numbered forms goals :
  create_goals forms goals = goals ++ numbered (length goals) (titled forms).
Proof.
  revert goals. induction forms as [|f forms IH]; intros goals.
  - simpl. by rewrite app_nil_r.
  - unfold create_goals, titled in *. cbn [foldl]. rewrite IH, filter_cons.
    destruct (decide (goal_title f ≠ "")) as [Ht|Ht].
    + rewrite create_goal_titled by done.
      rewrite length_app, <- app_assoc. simpl.
      by replace (length goals + 1)%nat with (S (length goals)) by lia.
    + rewrite create_goal_untitled; [done|].
      by destruct (decide (goal_title f = "")).
Qed.

Lemma numbered_length n forms : length (numbered n forms) = length forms.
Proof. revert n. induction forms; intros n; simpl; auto. Qed.

Lemma numbered_lookup n forms i f :
  forms !! i = Some f →
  numbered n forms !! i = Some (new_goal (Z.of_nat (n + i)) f).
Proof.
  revert n i. induction forms as [|f' forms IH]; intros n [|i] Hf;
    simplify_eq/=.
  - by rewrite Nat.add_0_r.
  - rewrite (IH (S n) i) by done. do 3 f_equal. lia.
Qed.

(** *** What the operations preserve *)

Lemma consistent_nil : consistent [].
Proof. intros i g Hg. by rewrite lookup_nil in Hg. Qed.

Lemma create_goal_consistent clicked f goals :
  consistent goals → consistent (create_goal clicked f goals).
Proof.
  intros Hc. unfold create_goal.
  destruct (clicked && _); [|done].
  intros i g Hg. apply lookup_app_Some in Hg as [Hg|[Hlen Hg]].
  - by apply Hc.
  - apply list_lookup_singleton_Some in Hg as [Hi <-]. simpl.
    split; [f_equal; lia | lia].
Qed.

Lemma track_progress_id p g : g_id (track_progress p g) = g_id g.
Proof.
  unfold track_progress. case_decide; [|done]. by destruct (100 <=? p).
Qed.

Lemma track_progress_below p g :
  (g_completed g = false → g_progress g < 100) →
  g_completed (track_progress p g) = false →
  g_progress (track_progress p g) < 100.
Proof.
  unfold track_progress. case_decide; [|done].
  destruct (Z.leb_spec 100 p); simpl; [done | lia].
Qed.

Lemma progress_tracker_consistent sliders goals :
  consistent goals → consistent (progress_tracker sliders goals).
Proof.
  intros Hc i g Hg. unfold progress_tracker in Hg.
  rewrite list_lookup_fmap in Hg.
  destruct (goals !! i) as [g0|] eqn:Hg0; simplify_eq/=.
  destruct (Hc i g0 Hg0) as [Hid Hbelow].
  destruct (g_completed g0) eqn:Hdone.
  { split; [done|]. by rewrite Hdone. }
  rewrite track_progress_id. split; [done|].
  apply track_progress_below. by rewrite Hdone.
Qed.

Lemma complete_consistent id goals :
  consistent goals → consistent (complete id goals).
Proof.
  intros Hc i g Hg. unfold complete in Hg.
  rewrite list_lookup_fmap in Hg.
  destruct (goals !! i) as [g0|] eqn:Hg0; simplify_eq/=.
  destruct (Hc i g0 Hg0) as [Hid Hbelow].
  destruct (g_completed g0) eqn:Hdone.
  { split; [done|]. by rewrite Hdone. }
  case_decide; simpl; [done|]. split; [done|]. by rewrite Hdone.
Qed.

Lemma reachable_consistent goals : reachable goals → consistent goals.
Proof.
  induction 1;
    eauto using consistent_nil, create_goal_consistent,
                progress_tracker_consistent, complete_consistent.
Qed.

(** *** Moving a slider *)

Lemma track_progress_changed p g :
  g_progress g < 100 →
  g_progress (track_progress p g) = p ∧
  (g_completed (track_progress p g) = true ↔
     g_completed g = true ∨ 100 ≤ p).
Proof.
  intros Hbelow. unfold track_progress. case_decide as Hp.
  - destruct (Z.leb_spec 100 p); simpl; split; auto; [tauto|].
    split; [auto|]. intros [?|?]; [done|lia].
  - split; [lia|]. split; [auto|]. intros [?|?]; [done|lia].
Qed.

Lemma update_progress_lookup id new_progress goals i :
  update_progress id new_progress goals !! i =
  (λ goal,
     if g_completed goal then goal
     else if decide (g_id goal = id) then track_progress new_progress goal
     else goal) <$> goals !! i.
Proof.
  unfold update_progress, progress_tracker. rewrite list_lookup_fmap.
  destruct (goals !! i) as [g|]; [|done]. simpl. f_equal.
  destruct (g_completed g); [done|].
  case_decide; [done|]. simpl.
  unfold track_progress. by rewrite decide_False by tauto.
Qed.

Lemma update_progress_absent id new_progress goals :
  (∀ g, g ∈ goals → g_id g ≠ id) →
  update_progress id new_progress goals = goals.
Proof.
  intros Habs. apply list_eq. intros i.
  rewrite update_progress_lookup.
  destruct (goals !! i) as [g|] eqn:Hg; [|done]. simpl. f_equal.
  destruct (g_completed g); [done|].
  rewrite decide_False; [done|]. apply Habs.
  by eapply list_elem_of_lookup_2.
Qed.

(** *** Sample data *)

Definition example_form (title : string) : form :=
  {| goal_title := title;
     goal_description := "";
     goal_category := "Account Security";
     goal_deadline := "2025-01-31";
     goal_priority := "High";
     now := "2025-01-01T09:00:00" |}.

(** A goal is created and then completed with its button. *)
Definition completed_goals : list goal_dict :=
  complete 0 (create_goal true (example_form "Enable 2FA") []).

End Goals.

(** C2.  Creating a goal with a title appends exactly one goal, with
    progress 0, not completed, and the number of goals so far as its id;
    with an empty title nothing is created.  Hence, starting with no goal,
    the creations that carry a title each leave one goal, in order, and
    the goal created i-th (counting from 0) has id i. *)
Theorem create_goal_appends :
  (∀ f goals,
     Goals.goal_title f ≠ "" →
     ∃ g,
       Goals.create_goal true f goals = goals ++ [g] ∧
       Goals.g_id g = Z.of_nat (length goals) ∧
       Goals.g_progress g = 0 ∧
       Goals.g_completed g = false ∧
       Goals.g_title g = Goals.goal_title f) ∧
  (∀ f goals,
     Goals.goal_title f = "" → Goals.create_goal true f goals = goals) ∧
  (∀ forms,
     let goals := Goals.create_goals forms [] in
     length goals = length (Goals.titled forms) ∧
     ∀ i f,
       Goals.titled forms !! i = Some f →
       ∃ g,
         goals !! i = Some g ∧
         Goals.g_id g = Z.of_nat i ∧
         Goals.g_title g = Goals.goal_title f ∧
         Goals.g_progress g = 0 ∧
         Goals.g_completed g = false).
Proof.
  split; [|split].
  - intros f goals Ht. eexists. split; [by apply Goals.create_goal_titled|].
    done.
  - intros f goals Ht. by apply Goals.create_goal_untitled.
  - intros forms goals. subst goals.
    rewrite Goals.create_goals_numbered. simpl. split.
    + apply Goals.numbered_length.
    + intros i f Hf. eexists. split; [by apply Goals.numbered_lookup|]. done.
Qed.

(** Three clicks, the second with an empty title: two goals, ids 0 and 1. *)
Lemma create_goal_appends_witness :
  let forms :=
    [ Goals.example_form "Enable 2FA"; Goals.example_form "";
      Goals.example_form "Back up" ] in
  Goals.g_id <$> Goals.create_goals forms [] = [0; 1] ∧
  Goals.g_title <$> Goals.create_goals forms [] = ["Enable 2FA"; "Back up"] ∧
  Goals.create_goal true (Goals.example_form "") [] = [] ∧
  ∃ g, Goals.create_goals forms [] !! 1%nat = Some g ∧ Goals.g_id g = 1.
Proof.
  intros forms.
  destruct create_goal_appends as (Hone & Hnone & Hmany).
  split; [reflexivity|]. split; [reflexivity|]. split.
  - by apply Hnone.
  - destruct (Hmany forms) as [_ Hith].
    destruct (Hith 1%nat (Goals.example_form "Back up") eq_refl)
      as (g & Hg & Hid & _).
    by exists g.
Defined.

(** C3, as the code has it.  In every goal list the page can hold, moving
    the slider of an existing goal that is not completed sets its progress
    to the new value and marks it completed exactly when the new value is
    at least 100; a completed goal is not among the active goals and stays
    as it is; no other goal changes; and an id that no goal carries
    changes nothing. *)
Theorem update_progress_active (goals : list Goals.goal_dict) :
  Goals.reachable goals →
  (∀ i goal new_progress,
     goals !! i = Some goal →
     let goals' := Goals.update_progress (Goals.g_id goal) new_progress goals in
     (Goals.g_completed goal = false →
        ∃ goal',
          goals' !! i = Some goal' ∧
          Goals.g_progress goal' = new_progress ∧
          (Goals.g_completed goal' = true ↔ 100 ≤ new_progress)) ∧
     (Goals.g_completed goal = true → goals' !! i = Some goal) ∧
     (∀ j, j ≠ i → goals' !! j = goals !! j) ∧
     length goals' = length goals) ∧
  (∀ id new_progress,
     (∀ g, g ∈ goals → Goals.g_id g ≠ id) →
     Goals.update_progress id new_progress goals = goals).
Proof.
  intros Hreach. apply Goals.reachable_consistent in Hreach as Hc.
  split; [|intros id p; apply Goals.update_progress_absent].
  intros i goal p Hgoal goals'. subst goals'.
  destruct (Hc i goal Hgoal) as [Hid Hbelow].
  split; [|split; [|split]].
  - intros Hactive. eexists. split.
    + rewrite Goals.update_progress_lookup, Hgoal. simpl.
      by rewrite Hactive, decide_True.
    + destruct (Goals.track_progress_changed p goal (Hbelow Hactive))
        as [Hp Hdone].
      split; [done|]. rewrite Hdone, Hactive. split; [|auto].
      by intros [?|?].
  - intros Hdone. rewrite Goals.update_progress_lookup, Hgoal. simpl.
    by rewrite Hdone.
  - intros j Hj. rewrite Goals.update_progress_lookup.
    destruct (goals !! j) as [g|] eqn:Hg; [|done]. simpl. f_equal.
    destruct (Goals.g_completed g); [done|].
    rewrite decide_False; [done|].
    destruct (Hc j g Hg) as [Hidj _]. lia.
  - unfold Goals.update_progress, Goals.progress_tracker.
    apply length_fmap.
Qed.

(** C3, the claim refuted: the goal exists, but it is completed, so no
    slider is shown for it and its progress stays at 100 instead of
    becoming 50. *)
Lemma update_progress_skips_completed :
  Goals.reachable Goals.completed_goals ∧
  ∃ goal,
    Goals.completed_goals !! 0%nat = Some goal ∧
    Goals.g_id goal = 0 ∧
    ∃ goal',
      Goals.update_progress 0 50 Goals.completed_goals !! 0%nat = Some goal' ∧
      Goals.g_progress goal' = 100 ∧
      Goals.g_progress goal' ≠ 50.
Proof.
  split.
  - unfold Goals.completed_goals. repeat constructor.
  - eexists. split; [reflexivity|]. split; [reflexivity|].
    eexists. split; [reflexivity|]. by split.
Qed.

(** The slider of a fresh goal moved to 100, then to 40 on another. *)
Lemma update_progress_active_witness :
  let goals :=
    Goals.create_goals
      [Goals.example_form "Enable 2FA"; Goals.example_form "Back up"] [] in
  Goals.reachable goals ∧
  ∃ goal',
    Goals.update_progress 0 100 goals !! 0%nat = Some goal' ∧
    Goals.g_progress goal' = 100 ∧
    Goals.g_completed goal' = true.
Proof.
  intros goals.
  assert (Hreach : Goals.reachable goals).
  { unfold goals, Goals.create_goals. simpl. repeat constructor. }
  split; [exact Hreach|].
  destruct (update_progress_active goals Hreach) as [Hupd _].
  destruct (Hupd 0%nat (Goals.new_goal 0 (Goals.example_form "Enable 2FA")) 100
              eq_refl) as (Hactive & _).
  destruct (Hactive eq_refl) as (goal' & Hlookup & Hp & Hdone).
  exists goal'. split; [exact Hlookup|]. split; [exact Hp|].
  apply Hdone. lia.
Defined.

(** ** Security dashboard: the data file *)

Module Persistence.

(** The values [json.load] can return and [json.dump] can write.  A float
    is identified by its [repr], the shortest decimal text that reads back
    as the same float. *)
#[warnings="-register-all"]
Inductive json :=
  | JNull
  | JBool (b : bool)
  | JInt (n : Z)
  | JFloat (repr : string)
  | JString (s : string)
  | JList (items : list json)
  | JDict (members : list (string * json)).

(** The document [load_security_data] falls back on. *)
Definition empty_data : json :=
  JDict [ ("assessments", JList []);
          ("goals", JList []);
          ("habits", JList []);
          ("last_assessment", JNull) ].

(** A goal dictionary as a JSON value, keys in the order of creation. *)
Definition json_of_goal (g : Goals.goal_dict) : json :=
  JDict [ ("id", JInt (Goals.g_id g));
          ("title", JString (Goals.g_title g));
          ("description", JString (Goals.g_description g));
          ("category", JString (Goals.g_category g));
          ("deadline", JString (Goals.g_deadline g));
          ("priority", JString (Goals.g_priority g));
          ("created_date", JString (Goals.g_created_date g));
          ("completed", JBool (Goals.g_completed g));
          ("progress", JInt (Goals.g_progress g)) ].

(** The document of a user who has set goals but taken no assessment. *)
Definition data_with_goals (goals : list Goals.goal_dict) : json :=
  JDict [ ("assessments", JList []);
          ("goals", JList (json_of_goal <$> goals));
          ("habits", JList []);
          ("last_assessment", JNull) ].

(** [try: body except: handler], with a bare [except]. *)
Definition try_except {A} (body handler : Exc A) : Exc A :=
  match body with
  | Return a => Return a
  | Raise _ => handler
  end.

(** [open(name, "r")] followed by reading: the file is there or not. *)
Definition open_read (file : option string) : Exc string :=
  match file with
  | Some content => Return content
  | None => Raise OSError
  end.

Section WithJson.

(** [json.load] applied to the text of a file, and the text that
    [json.dump(data, f, indent=2, default=str)] writes. *)
Variable json_load : string → Exc json.
Variable json_dump : json → string.

(** The argument is the content of [security_dashboard_data.json], if the
    file exists. *)
Definition load_security_data (file : option string) : Exc json :=
  try_except (f ← open_read file; json_load f) (Return empty_data).

(** The file after [save_security_data(data)]: opening with ["w"] creates
    or truncates it. *)
Definition save_security_data (data : json) (file : option string)
  : option string :=
  Some (json_dump data).

(** Loading right after saving gives the document back, provided the
    reader inverts the writer on it. *)
Lemma load_after_save data file :
  json_load (json_dump data) = Return data →
  load_security_data (save_security_data data file) = Return data.
Proof.
  intros Hround. unfold save_security_data, load_security_data. simpl.
  unfold mbind, exc_bind. by rewrite Hround.
Qed.

End WithJson.

End Persistence.

(** ** A JSON reader and writer

    The [json] module belongs to the Python library; the persistence
    functions above take it as a parameter.  This reader and writer follow
    its text format (two-space indentation, one item per line, a colon
    and a space after each key) for ASCII strings, without the literals
    [NaN] and [Infinity], and serve to run the persistence functions on
    actual file contents. *)

Module JsonText.
Import Persistence.

(** The double quote. *)
Definition dquote : ascii := "034"%char.

Definition hex_digit (n : N) : ascii :=
  ascii_of_N (if (n <? 10)%N then 48 + n else 87 + n).

(** One character inside a string literal. *)
Definition escape_char (c : ascii) : string :=
  let n := N_of_ascii c in
  if decide (c = dquote) then String "\" (String dquote "")
  else if decide (c = "\"%char) then "\\"
  else if decide (n = 10%N) then "\n"
  else if decide (n = 13%N) then "\r"
  else if decide (n = 9%N) then "\t"
  else if decide (n = 8%N) then "\b"
  else if decide (n = 12%N) then "\f"
  else if (n <? 32)%N then
    "\u00" +:+ String (hex_digit (n / 16)) (String (hex_digit (n mod 16)) "")
  else String c "".

Fixpoint escape (s : string) : string :=
  match s with
  | EmptyString => EmptyString
  | String c s' => escape_char c +:+ escape s'
  end.

Definition quote (s : string) : string :=
  String dquote (escape s +:+ String dquote "").

Definition newline_indent (level : nat) : string :=
  String "010" (string_of_list_ascii (replicate (2 * level) " "%char)).

Definition bracket (opening closing : string) (level : nat)
    (parts : list string) : string :=
  match parts with
  | [] => opening +:+ closing
  | _ =>
      opening +:+ newline_indent (S level) +:+
      String.concat ("," +:+ newline_indent (S level)) parts +:+
      newline_indent level +:+ closing
  end.

Fixpoint dump_value (level : nat) (v : json) {struct v} : string :=
  match v with
  | JNull => "null"
  | JBool true => "true"
  | JBool false => "false"
  | JInt n => pretty n
  | JFloat repr => repr
  | JString s => quote s
  | JList items => bracket "[" "]" level (map (dump_value (S level)) items)
  | JDict members =>
      bracket "{" "}" level
        (map (λ kv, quote kv.1 +:+ ": " +:+ dump_value (S level) kv.2)
             members)
  end.

Definition dumps (v : json) : string := dump_value 0 v.

Definition is_ws (c : ascii) : bool :=
  bool_decide (N_of_ascii c ∈ [32; 9; 10; 13]%N).

Fixpoint skip_ws (s : string) : string :=
  match s with
  | String c s' => if is_ws c then skip_ws s' else s
  | EmptyString => EmptyString
  end.

Definition hex_value (c : ascii) : option N :=
  let n := N_of_ascii c in
  if ((48 <=? n) && (n <=? 57))%N then Some (n - 48)%N
  else if ((97 <=? n) && (n <=? 102))%N then Some (n - 87)%N
  else if ((65 <=? n) && (n <=? 70))%N then Some (n - 55)%N
  else None.

(** The rest of a string literal, after its opening quote. *)
Fixpoint read_string (s : string) : option (string * string) :=
  match s with
  | EmptyString => None
  | String c s' =>
      if decide (c = dquote) then Some ("", s')
      else if decide (c = "\"%char) then
        match s' with
        | String e s'' =>
            let plain (x : ascii) :=
              '(str, rest) ← read_string s''; Some (String x str, rest) in
            if decide (e = "n"%char) then plain "010"%char
            else if decide (e = "r"%char) then plain "013"%char
            else if decide (e = "t"%char) then plain "009"%char
            else if decide (e = "b"%char) then plain "008"%char
            else if decide (e = "f"%char) then plain "012"%char
            else if decide (e = "u"%char) then
              match s'' with
              | String "0" (String "0" (String h (String l s3))) =>
                  hi ← hex_value h; lo ← hex_value l;
                  '(str, rest) ← read_string s3;
                  Some (String (ascii_of_N (16 * hi + lo)) str, rest)
              | _ => None
              end
            else if decide (e = dquote ∨ e = "\"%char ∨ e = "/"%char)
            then plain e
            else None
        | EmptyString => None
        end
      else if (N_of_ascii c <? 32)%N then None
      else '(str, rest) ← read_string s'; Some (String c str, rest)
  end.

Definition is_number_char (c : ascii) : bool :=
  PyStr.is_digit c || bool_decide (c ∈ ["-"; "+"; "."; "e"; "E"]%char).

Fixpoint read_number (s : string) : string * string :=
  match s with
  | String c s' =>
      if is_number_char c
      then let '(num, rest) := read_number s' in (String c num, rest)
      else ("", s)
  | EmptyString => ("", "")
  end.

Definition number_of_text (num : string) : option json :=
  if PyStr.contains "." num || PyStr.contains "e" num || PyStr.contains "E" num
  then Some (JFloat num)
  else
    match num with
    | String c body =>
        if decide (c = "-"%char) then
          if PyStr.is_decimal body
          then Some (JInt (- PyStr.decimal_value body))
          else None
        else if PyStr.is_decimal num
        then Some (JInt (PyStr.decimal_value num))
        else None
    | EmptyString => None
    end.

(** [d[key] = v] on a dictionary under construction: a key met again
    keeps its place and takes the new value. *)
Fixpoint set_member (key : string) (v : json) (members : list (string * json))
  : list (string * json) :=
  match members with
  | [] => [(key, v)]
  | (k, w) :: members =>
      if decide (k = key) then (k, v) :: members
      else (k, w) :: set_member key v members
  end.

(** [fuel] bounds the nesting and the number of items; the length of the
    text is always enough. *)
Fixpoint read_value (fuel : nat) (s : string) : option (json * string) :=
  match fuel with
  | O => None
  | S fuel =>
      match skip_ws s with
      | EmptyString => None
      | String c s' =>
          if decide (c = "["%char) then
            match skip_ws s' with
            | EmptyString => None
            | String c' rest =>
                if decide (c' = "]"%char) then Some (JList [], rest)
                else '(items, rest) ← read_items fuel s' [];
                     Some (JList items, rest)
            end
          else if decide (c = "{"%char) then
            match skip_ws s' with
            | EmptyString => None
            | String c' rest =>
                if decide (c' = "}"%char) then Some (JDict [], rest)
                else '(members, rest) ← read_members fuel s' [];
                     Some (JDict members, rest)
            end
          else if decide (c = dquote) then
            '(str, rest) ← read_string s'; Some (JString str, rest)
          else if PyStr.startswith "null" (String c s') then
            Some (JNull, PyStr.slice_from 4 (String c s'))
          else if PyStr.startswith "true" (String c s') then
            Some (JBool true, PyStr.slice_from 4 (String c s'))
          else if PyStr.startswith "false" (String c s') then
            Some (JBool false, PyStr.slice_from 5 (String c s'))
          else
            let '(num, rest) := read_number (String c s') in
            v ← number_of_text num; Some (v, rest)
      end
  end
with read_items (fuel : nat) (s : string) (acc : list json)
  : option (list json * string) :=
  match fuel with
  | O => None
  | S fuel =>
      '(v, rest) ← read_value fuel s;
      match skip_ws rest with
      | EmptyString => None
      | String c rest' =>
          if decide (c = ","%char) then read_items fuel rest' (acc ++ [v])
          else if decide (c = "]"%char) then Some (acc ++ [v], rest')
          else None
      end
  end
with read_members (fuel : nat) (s : string) (acc : list (string * json))
  : option (list (string * json) * string) :=
  match fuel with
  | O => None
  | S fuel =>
      match skip_ws s with
      | EmptyString => None
      | String c s' =>
          if decide (c = dquote) then
            '(key, rest) ← read_string s';
            match skip_ws rest with
            | EmptyString => None
            | String c' rest' =>
                if decide (c' = ":"%char) then
                  '(v, rest'') ← read_value fuel rest';
                  match skip_ws rest'' with
                  | EmptyString => None
                  | String c'' rest3 =>
                      if decide (c'' = ","%char)
                      then read_members fuel rest3 (set_member key v acc)
                      else if decide (c'' = "}"%char)
                      then Some (set_member key v acc, rest3)
                      else None
                  end
                else None
            end
          else None
      end
  end.

Definition loads (s : string) : Exc json :=
  match read_value (S (String.length s)) s with
  | Some (v, rest) =>
      if decide (skip_ws rest = "") then Return v else Raise JSONDecodeError
  | None => Raise JSONDecodeError
  end.

(** *** Decimal numerals *)

Lemma decimal_from_app acc a b :
  PyStr.decimal_from acc (a +:+ b)
  = PyStr.decimal_from (PyStr.decimal_from acc a) b.
Proof.
  revert acc. induction a as [|c a IH]; intros acc; PyStr.simpl_app; [done|].
  simpl. by rewrite IH.
Qed.

Lemma pretty_N_char_digit x :
  (x < 10)%N →
  PyStr.is_digit (pretty_N_char x) = true ∧
  Z.of_N (N_of_ascii (pretty_N_char x) - 48) = Z.of_N x.
Proof.
  intros Hx.
  assert (x = 0 ∨ x = 1 ∨ x = 2 ∨ x = 3 ∨ x = 4 ∨ x = 5 ∨ x = 6 ∨ x = 7
          ∨ x = 8 ∨ x = 9)%N as Hcases by lia.
  repeat (destruct Hcases as [->|Hcases]; [done|]). by subst.
Qed.

(** The digits [pretty_N_go] puts in front of [s] denote [x]. *)
Lemma pretty_N_go_digits x s :
  ∃ digits,
    pretty_N_go x s = digits +:+ s ∧
    PyStr.all_chars PyStr.is_digit digits = true ∧
    (∀ acc, PyStr.decimal_from acc digits
            = acc * 10 ^ Z.of_nat (String.length digits) + Z.of_N x) ∧
    ((0 < x)%N → digits ≠ "").
Proof.
  revert s. induction (N.lt_wf_0 x) as [x _ IH]; intros s.
  assert (x = 0 ∨ 0 < x)%N as [->|Hpos] by lia.
  - exists "". rewrite pretty_N_go_0. split; [done|]. split; [done|].
    split; [intros acc; simpl; lia | lia].
  - rewrite pretty_N_go_step by done.
    destruct (IH (x `div` 10)%N (N.div_lt x 10 Hpos eq_refl)
                 (String (pretty_N_char (x `mod` 10)) s))
      as (digits & -> & Hall & Hval & _).
    destruct (pretty_N_char_digit (x `mod` 10)%N) as [Hd Hv].
    { by apply N.mod_lt. }
    exists (digits +:+ String (pretty_N_char (x `mod` 10)) "").
    split; [by rewrite PyStr.app_snoc|]. split; [|split].
    + apply PyStr.all_chars_app; [done|]. simpl. by rewrite Hd.
    + intros acc. rewrite decimal_from_app, Hval. simpl. rewrite Hv.
      assert (Hlen : String.length
                (digits +:+ String (pretty_N_char (x `mod` 10)) "")
              = S (String.length digits)).
      { clear. induction digits as [|c d IHd]; PyStr.simpl_app; simpl;
          [done | by rewrite IHd]. }
      rewrite Hlen, Nat2Z.inj_succ, Z.pow_succ_r by lia.
      rewrite (N.div_mod x 10) at 3 by done. lia.
    + intros _. by destruct digits.
Qed.

Lemma pretty_N_decimal (x : N) :
  PyStr.is_decimal (pretty x) = true ∧
  PyStr.decimal_value (pretty x) = Z.of_N x.
Proof.
  unfold pretty, pretty_N. case_decide as Hx; [by subst|].
  destruct (pretty_N_go_digits x "") as (digits & Hgo & Hall & Hval & Hne).
  rewrite Hgo, PyStr.app_empty_r. unfold PyStr.is_decimal, PyStr.decimal_value.
  rewrite Hall, Hval, bool_decide_eq_false_2; [|apply Hne; lia].
  split; [done | lia].
Qed.

(** *** White space and string literals *)

Lemma skip_ws_head c t : is_ws c = false → skip_ws (String c t) = String c t.
Proof. intros Hc. simpl. by rewrite Hc. Qed.

Lemma skip_ws_spaces n t :
  skip_ws (string_of_list_ascii (replicate n " "%char) +:+ t) = skip_ws t.
Proof. induction n as [|n IH]; [done|]. simpl. PyStr.simpl_app. done. Qed.

Lemma skip_ws_indent level t :
  skip_ws (newline_indent level +:+ t) = skip_ws t.
Proof. unfold newline_indent. PyStr.simpl_app. simpl. apply skip_ws_spaces. Qed.

Lemma skip_ws_idemp s : skip_ws (skip_ws s) = skip_ws s.
Proof.
  induction s as [|c s IH]; [done|]. simpl.
  destruct (is_ws c) eqn:Hc; [done|]. simpl. by rewrite Hc.
Qed.

Lemma read_string_escape_char c t :
  read_string (escape_char c +:+ t)
  = '(str, rest) ← read_string t; Some (String c str, rest).
Proof.
  destruct c as [[] [] [] [] [] [] [] []]; reflexivity.
Qed.

Lemma read_string_escape s rest :
  read_string (escape s +:+ String dquote rest) = Some (s, rest).
Proof.
  induction s as [|c s IH]; [done|].
  cbn [escape]. rewrite PyStr.app_assoc, read_string_escape_char, IH. done.
Qed.

Lemma read_string_quote s rest :
  ∃ t, quote s +:+ rest = String dquote t ∧ read_string t = Some (s, rest).
Proof.
  unfold quote. eexists. split; [by PyStr.simpl_app|].
  rewrite PyStr.app_assoc. PyStr.simpl_app. apply read_string_escape.
Qed.

(** *** Number literals *)

(** What may follow a number literal: nothing, or a character that cannot
    belong to it. *)
Definition ends_number (rest : string) : Prop :=
  match rest with
  | EmptyString => True
  | String c _ => is_number_char c = false
  end.

Lemma read_number_all num rest :
  PyStr.all_chars is_number_char num = true → ends_number rest →
  read_number (num +:+ rest) = (num, rest).
Proof.
  intros Hnum Hrest. induction num as [|c num IH]; PyStr.simpl_app.
  - destruct rest as [|c rest]; [done|]. simpl in *. by rewrite Hrest.
  - simpl in *. apply andb_true_iff in Hnum as [-> Hnum]. by rewrite IH.
Qed.

Lemma is_digit_number_char c :
  PyStr.is_digit c = true → is_number_char c = true.
Proof. unfold is_number_char. by intros ->. Qed.

(** A single character does not occur among characters that differ from
    it. *)
Lemma contains_char_absent x s :
  PyStr.all_chars (λ c, negb (bool_decide (c = x))) s = true →
  PyStr.contains (String x "") s = false.
Proof.
  induction s as [|c s IH]; [done|]. simpl.
  intros [Hc Hs]%andb_true_iff.
  apply negb_true_iff, bool_decide_eq_false in Hc.
  rewrite IH by done. by destruct (decide (x = c)) as [->|].
Qed.

Lemma digits_no_char x s :
  PyStr.is_digit x = false →
  PyStr.all_chars PyStr.is_digit s = true →
  PyStr.contains (String x "") s = false.
Proof.
  intros Hx Hs. apply contains_char_absent. revert Hs.
  apply PyStr.all_chars_impl. intros c Hc.
  apply negb_true_iff, bool_decide_eq_false. intros ->. congruence.
Qed.

Lemma number_of_text_digits s :
  PyStr.is_decimal s = true →
  number_of_text s = Some (JInt (PyStr.decimal_value s)).
Proof.
  intros Hdec. unfold number_of_text.
  pose proof Hdec as [Hne Hs]%andb_true_iff.
  rewrite !digits_no_char by done. simpl.
  destruct s as [|c s]; [done|].
  destruct (decide (c = "-"%char)) as [->|_]; [done|].
  by rewrite Hdec.
Qed.

Lemma number_of_text_minus s :
  PyStr.is_decimal s = true →
  number_of_text (String "-" s) = Some (JInt (- PyStr.decimal_value s)).
Proof.
  intros Hdec. unfold number_of_text.
  pose proof Hdec as [Hne Hs]%andb_true_iff.
  cbn [PyStr.contains PyStr.startswith].
  rewrite !digits_no_char by done. simpl. by rewrite Hdec.
Qed.

(** The text of an integer is a number literal that reads back as it. *)
Lemma pretty_Z_number (n : Z) :
  PyStr.all_chars is_number_char (pretty n) = true ∧
  pretty n ≠ "" ∧
  number_of_text (pretty n) = Some (JInt n).
Proof.
  assert (Hnat : ∀ x : N,
    PyStr.all_chars is_number_char (pretty x) = true ∧ pretty x ≠ "" ∧
    number_of_text (pretty x) = Some (JInt (Z.of_N x))).
  { intros x. destruct (pretty_N_decimal x) as [Hdec Hval].
    pose proof Hdec as [Hne Hs]%andb_true_iff.
    split; [|split].
    - revert Hs. apply PyStr.all_chars_impl, is_digit_number_char.
    - by apply negb_true_iff, bool_decide_eq_false in Hne.
    - by rewrite number_of_text_digits, Hval. }
  destruct n as [|p|p].
  - done.
  - apply (Hnat (Npos p)).
  - change (pretty (Z.neg p)) with ("-" +:+ pretty (Npos p)).
    destruct (pretty_N_decimal (Npos p)) as [Hdec Hval].
    pose proof Hdec as [Hne Hs]%andb_true_iff.
    PyStr.simpl_app. split; [|split; [done|]].
    + simpl. revert Hs. apply PyStr.all_chars_impl, is_digit_number_char.
    + rewrite number_of_text_minus, Hval by done. done.
Qed.

(** The [repr] of a finite float: a number literal with a point or an
    exponent. *)
Definition is_float_repr (repr : string) : bool :=
  PyStr.all_chars is_number_char repr &&
  (PyStr.contains "." repr || PyStr.contains "e" repr ||
   PyStr.contains "E" repr).

Lemma float_repr_number repr :
  is_float_repr repr = true →
  PyStr.all_chars is_number_char repr = true ∧
  repr ≠ "" ∧
  number_of_text repr = Some (JFloat repr).
Proof.
  intros [Hall Hdot]%andb_true_iff. split; [done|]. split.
  - intros ->. done.
  - unfold number_of_text. by rewrite Hdot.
Qed.

(** A value that starts with a character of number literals is read as a
    number. *)
Lemma read_value_number fuel c s :
  is_number_char c = true →
  read_value (S fuel) (String c s) =
  let '(num, rest) := read_number (String c s) in
  v ← number_of_text num; Some (v, rest).
Proof.
  destruct c as [[] [] [] [] [] [] [] []]; try discriminate; reflexivity.
Qed.

(** *** Documents that are written and read back *)

(** Floats carry a proper [repr], and the keys of a dictionary are
    distinct. *)
Fixpoint validb (v : json) : bool :=
  match v with
  | JFloat repr => is_float_repr repr
  | JList items => forallb validb items
  | JDict members =>
      bool_decide (NoDup members.*1) && forallb (λ kv, validb kv.2) members
  | _ => true
  end.

(** A bound on the fuel that reading a value takes. *)
Fixpoint value_size (v : json) : nat :=
  match v with
  | JList items => 2 + sum_list_with (λ v, 2 + value_size v)%nat items
  | JDict members => 2 + sum_list_with (λ kv, 2 + value_size kv.2)%nat members
  | _ => 1
  end.

Lemma json_nested_ind (P : json → Prop) :
  P JNull → (∀ b, P (JBool b)) → (∀ n, P (JInt n)) →
  (∀ repr, P (JFloat repr)) → (∀ s, P (JString s)) →
  (∀ items, Forall P items → P (JList items)) →
  (∀ members, Forall (λ kv, P kv.2) members → P (JDict members)) →
  ∀ v, P v.
Proof.
  intros Hnull Hbool Hint Hfloat Hstr Hlist Hdict.
  fix IH 1.
  intros [|b|n|repr|s|items|members];
    [apply Hnull | apply Hbool | apply Hint | apply Hfloat | apply Hstr | |].
  - apply Hlist. induction items as [|v items IHitems]; constructor.
    + apply IH.
    + exact IHitems.
  - apply Hdict. induction members as [|[k v] members IHmembers]; constructor.
    + apply IH.
    + exact IHmembers.
Qed.

Lemma read_value_skip fuel s : read_value fuel (skip_ws s) = read_value fuel s.
Proof. destruct fuel; [done|]. cbn [read_value]. by rewrite skip_ws_idemp. Qed.

Lemma read_value_indent fuel level t :
  read_value fuel (newline_indent level +:+ t) = read_value fuel t.
Proof. by rewrite <- read_value_skip, skip_ws_indent, read_value_skip. Qed.

Lemma read_value_space fuel t :
  read_value fuel (String " " t) = read_value fuel t.
Proof. by rewrite <- read_value_skip, <- (read_value_skip _ t). Qed.

Lemma read_members_skip fuel s acc :
  read_members fuel (skip_ws s) acc = read_members fuel s acc.
Proof.
  destruct fuel; [done|]. cbn [read_members]. by rewrite skip_ws_idemp.
Qed.

Lemma read_members_indent fuel level t acc :
  read_members fuel (newline_indent level +:+ t) acc = read_members fuel t acc.
Proof. by rewrite <- read_members_skip, skip_ws_indent, read_members_skip. Qed.

Lemma number_char_head c :
  is_number_char c = true →
  is_ws c = false ∧ c ≠ "]"%char ∧ c ≠ "}"%char.
Proof.
  destruct c as [[] [] [] [] [] [] [] []]; try discriminate; done.
Qed.

(** The first character of a written value is not white space and closes
    no bracket. *)
Lemma dump_value_head level v :
  validb v = true →
  ∃ c t, dump_value level v = String c t ∧
         is_ws c = false ∧ c ≠ "]"%char ∧ c ≠ "}"%char.
Proof.
  intros Hv. destruct v as [|[]|n|repr|s|[|v items]|[|kv members]];
    try (by eexists _, _).
  - destruct (pretty_Z_number n) as (Hall & Hne & _). simpl.
    destruct (pretty n) as [|c t]; [done|]. exists c, t. split; [done|].
    apply number_char_head. simpl in Hall.
    by apply andb_true_iff in Hall as [? _].
  - simpl in *. destruct (float_repr_number repr Hv) as (Hall & Hne & _).
    destruct repr as [|c t]; [done|]. exists c, t. split; [done|].
    apply number_char_head. simpl in Hall.
    by apply andb_true_iff in Hall as [? _].
Qed.

(** The value is read back from its text, whatever the indentation, the
    text that follows and the fuel beyond [value_size]. *)
Definition reads (v : json) : Prop :=
  ∀ level fuel rest,
    (value_size v < fuel)%nat → ends_number rest →
    read_value fuel (dump_value level v +:+ rest) = Some (v, rest).

Lemma concat_map_single {A} sep (f : A → string) x :
  String.concat sep (map f [x]) = f x.
Proof. done. Qed.

Lemma concat_map_cons_head {A} sep (f : A → string) x l tail :
  String.concat sep (map f (x :: l)) +:+ tail =
  f x +:+ match l with
          | [] => tail
          | _ => sep +:+ String.concat sep (map f l) +:+ tail
          end.
Proof.
  destruct l as [|y l]; [done|].
  change (String.concat sep (map f (x :: y :: l)))
    with (f x +:+ sep +:+ String.concat sep (map f (y :: l))).
  by rewrite !PyStr.app_assoc.
Qed.

Lemma concat_map_cons {A} sep (f : A → string) x y l :
  String.concat sep (map f (x :: y :: l))
  = f x +:+ sep +:+ String.concat sep (map f (y :: l)).
Proof. done. Qed.

Lemma read_items_indent fuel level t acc :
  read_items fuel (newline_indent level +:+ t) acc = read_items fuel t acc.
Proof.
  destruct fuel; [done|]. cbn [read_items]. by rewrite read_value_indent.
Qed.

Lemma ends_number_indent level t : ends_number (newline_indent level +:+ t).
Proof. done. Qed.

Lemma read_items_dump level items :
  Forall reads items → items ≠ [] →
  ∀ fuel rest acc,
    (sum_list_with (λ v, 2 + value_size v)%nat items ≤ fuel)%nat →
    read_items fuel
      (String.concat ("," +:+ newline_indent (S level))
                     (map (dump_value (S level)) items)
       +:+ newline_indent level +:+ String "]" rest) acc
    = Some (acc ++ items, rest).
Proof.
  induction 1 as [|v items Hv Hitems IH]; [done|]. intros _ fuel rest acc Hfuel.
  cbn [sum_list_with] in Hfuel. destruct fuel as [|fuel]; [lia|].
  cbn [read_items]. destruct items as [|v' items].
  - rewrite concat_map_single.
    rewrite Hv; [|simpl in *; lia|apply ends_number_indent].
    cbn [mbind option_bind]. rewrite skip_ws_indent, skip_ws_head by done.
    rewrite decide_False, decide_True by done. done.
  - rewrite concat_map_cons, !PyStr.app_assoc. PyStr.simpl_app.
    rewrite Hv; [|simpl in *; lia|done].
    cbn [mbind option_bind].
    rewrite skip_ws_head by done. rewrite decide_True by done.
    rewrite read_items_indent, IH; [|done|simpl in *; lia].
    by rewrite <- app_assoc.
Qed.

Lemma set_member_fresh key v members :
  key ∉ members.*1 → set_member key v members = members ++ [(key, v)].
Proof.
  induction members as [|[k w] members IH]; [done|].
  rewrite fmap_cons, not_elem_of_cons. simpl. intros [Hne Hnot].
  rewrite decide_False by done. by rewrite IH.
Qed.

Lemma read_members_dump level members :
  Forall (λ kv, reads kv.2) members → members ≠ [] →
  NoDup members.*1 →
  ∀ fuel rest acc,
    (sum_list_with (λ kv, 2 + value_size kv.2)%nat members ≤ fuel)%nat →
    (∀ k, k ∈ members.*1 → k ∉ acc.*1) →
    read_members fuel
      (String.concat ("," +:+ newline_indent (S level))
         (map (λ kv, quote kv.1 +:+ ": " +:+ dump_value (S level) kv.2)
              members)
       +:+ newline_indent level +:+ String "}" rest) acc
    = Some (acc ++ members, rest).
Proof.
  induction 1 as [|[k v] members Hv Hmembers IH]; [done|].
  intros _ Hnodup fuel rest acc Hfuel Hfresh.
  cbn [sum_list_with] in Hfuel. destruct fuel as [|fuel]; [lia|].
  rewrite fmap_cons in Hnodup. apply NoDup_cons in Hnodup as [Hk Hnodup].
  assert (Hkfresh : k ∉ acc.*1).
  { apply Hfresh. rewrite fmap_cons. apply list_elem_of_here. }
  cbn [read_members]. destruct members as [|kv' members].
  - rewrite concat_map_single. cbn [fst snd]. rewrite !PyStr.app_assoc.
    destruct (read_string_quote k
      (": " +:+ dump_value (S level) v +:+
       newline_indent level +:+ String "}" rest)) as (t & -> & Hread).
    rewrite skip_ws_head by done. rewrite decide_True by done. rewrite Hread.
    cbn [mbind option_bind]. PyStr.simpl_app.
    rewrite skip_ws_head by done. rewrite decide_True by done.
    rewrite read_value_space.
    rewrite Hv; [|simpl in *; lia|apply ends_number_indent].
    cbn [mbind option_bind]. rewrite skip_ws_indent, skip_ws_head by done.
    rewrite decide_False, decide_True by done.
    by rewrite set_member_fresh.
  - rewrite concat_map_cons. cbn [fst snd]. rewrite !PyStr.app_assoc.
    destruct (read_string_quote k
      (": " +:+ dump_value (S level) v +:+
       "," +:+ newline_indent (S level) +:+
       String.concat ("," +:+ newline_indent (S level))
         (map (λ kv : string * json,
                 quote kv.1 +:+ ": " +:+ dump_value (S level) kv.2)
              (kv' :: members)) +:+
       newline_indent level +:+ String "}" rest)) as (t & -> & Hread).
    rewrite skip_ws_head by done. rewrite decide_True by done. rewrite Hread.
    cbn [mbind option_bind]. PyStr.simpl_app.
    rewrite skip_ws_head by done. rewrite decide_True by done.
    rewrite read_value_space.
    rewrite Hv; [|simpl in *; lia|done].
    cbn [mbind option_bind].
    rewrite skip_ws_head by done. rewrite decide_True by done.
    rewrite read_members_indent, set_member_fresh by done.
    rewrite IH; [by rewrite <- app_assoc|done|done|simpl in *; lia|].
    intros k' Hk'. rewrite fmap_app, elem_of_app. intros [Hin|Hin].
    + apply (Hfresh k'); [|done]. rewrite fmap_cons. by apply list_elem_of_further.
    + simpl in Hin. apply list_elem_of_singleton in Hin as ->. done.
Qed.

Lemma read_value_literal fuel c t num rest v :
  is_number_char c = true →
  read_number (String c t) = (num, rest) →
  number_of_text num = Some v →
  read_value (S fuel) (String c t) = Some (v, rest).
Proof.
  intros Hc Hnum Hv. rewrite read_value_number by done.
  by rewrite Hnum, Hv.
Qed.

Lemma read_value_number_text fuel num rest v :
  PyStr.all_chars is_number_char num = true → num ≠ "" →
  number_of_text num = Some v → ends_number rest →
  read_value (S fuel) (num +:+ rest) = Some (v, rest).
Proof.
  intros Hall Hne Hv Hrest.
  pose proof (read_number_all num rest Hall Hrest) as Hread.
  destruct num as [|c num]; [done|]. PyStr.simpl_app.
  eapply read_value_literal; [|exact Hread|exact Hv].
  simpl in Hall. by apply andb_true_iff in Hall as [? _].
Qed.

Lemma bracket_map_cons {A} opening closing level (f : A → string) x l :
  bracket opening closing level (map f (x :: l)) =
  opening +:+ newline_indent (S level) +:+
  String.concat ("," +:+ newline_indent (S level)) (map f (x :: l)) +:+
  newline_indent level +:+ closing.
Proof. done. Qed.

(** Every valid value is read back. *)
Lemma read_dump v : validb v = true → reads v.
Proof.
  induction v as [|b|n|repr|s|items IH|members IH] using json_nested_ind;
    intros Hvalid level fuel rest Hfuel Hrest;
    (destruct fuel as [|fuel]; [simpl in Hfuel; lia|]).
  - done.
  - by destruct b.
  - destruct (pretty_Z_number n) as (Hall & Hne & Hnum).
    by apply read_value_number_text.
  - destruct (float_repr_number repr Hvalid) as (Hall & Hne & Hnum).
    by apply read_value_number_text.
  - cbn [dump_value].
    destruct (read_string_quote s rest) as (t & -> & Hread).
    cbn [read_value]. rewrite skip_ws_head by done.
    rewrite decide_False, decide_False, decide_True by done.
    by rewrite Hread.
  - cbn [validb] in Hvalid.
    assert (Hreads : Forall reads items).
    { apply Forall_forall. intros v Hv.
      apply (proj1 (Forall_forall _ _) IH v Hv).
      apply (proj1 (forallb_forall _ _) Hvalid).
      by apply list_elem_of_In. }
    destruct items as [|v items]; [done|].
    destruct (dump_value_head (S level) v) as (c & t & Hhead & Hws & Hclose & _).
    { apply (proj1 (forallb_forall _ _) Hvalid). by left. }
    cbn [dump_value].
    rewrite bracket_map_cons, !PyStr.app_assoc. PyStr.simpl_app.
    set (s' := newline_indent (S level) +:+ _).
    assert (∃ t', skip_ws s' = String c t') as [t' Hskip].
    { unfold s'. rewrite skip_ws_indent, concat_map_cons_head, Hhead.
      PyStr.simpl_app. rewrite skip_ws_head by done. by eexists. }
    cbn [read_value]. rewrite skip_ws_head by done.
    rewrite decide_True by done. rewrite Hskip, decide_False by done.
    unfold s'. rewrite read_items_indent.
    rewrite (read_items_dump level (v :: items) Hreads); [done|done|].
    cbn [value_size] in Hfuel. lia.
  - cbn [validb] in Hvalid. apply andb_true_iff in Hvalid as [Hnodup Hvalid].
    apply bool_decide_eq_true in Hnodup.
    assert (Hreads : Forall (λ kv, reads kv.2) members).
    { apply Forall_forall. intros kv Hkv.
      apply (proj1 (Forall_forall _ _) IH kv Hkv).
      apply (proj1 (forallb_forall _ _) Hvalid).
      by apply list_elem_of_In. }
    destruct members as [|kv members]; [done|].
    cbn [dump_value].
    rewrite bracket_map_cons, !PyStr.app_assoc. PyStr.simpl_app.
    set (s' := newline_indent (S level) +:+ _).
    assert (∃ t', skip_ws s' = String dquote t') as [t' Hskip].
    { unfold s'. rewrite skip_ws_indent, concat_map_cons_head.
      unfold quote at 1. PyStr.simpl_app.
      rewrite skip_ws_head by done. by eexists. }
    cbn [read_value]. rewrite skip_ws_head by done.
    rewrite decide_False, decide_True by done.
    rewrite Hskip, decide_False by done.
    unfold s'. rewrite read_members_indent.
    rewrite (read_members_dump level (kv :: members) Hreads);
      [done|done|done| |].
    + cbn [value_size] in Hfuel. lia.
    + intros k _. rewrite fmap_nil. apply not_elem_of_nil.
Qed.

(** *** The text is long enough to serve as fuel *)

Lemma length_app a b :
  String.length (a +:+ b) = (String.length a + String.length b)%nat.
Proof.
  induction a as [|c a IH]; PyStr.simpl_app; simpl; [done | by rewrite IH].
Qed.

Lemma length_newline_indent level :
  (1 ≤ String.length (newline_indent level))%nat.
Proof. unfold newline_indent. simpl. lia. Qed.

Lemma length_concat_map {A} (f : A → string) (g : A → nat) sep l :
  (∀ x, x ∈ l → g x ≤ String.length (f x))%nat →
  (2 ≤ String.length sep)%nat →
  (sum_list_with (λ x, 2 + g x) l
   ≤ String.length (String.concat sep (map f l)) + 2)%nat.
Proof.
  intros Hle Hsep. induction l as [|x l IH]; [simpl; lia|].
  assert (g x ≤ String.length (f x))%nat by apply Hle, list_elem_of_here.
  assert (sum_list_with (λ x, 2 + g x) l
          ≤ String.length (String.concat sep (map f l)) + 2)%nat as IH'.
  { apply IH. intros y Hy. by apply Hle, list_elem_of_further. }
  destruct l as [|y l].
  - rewrite concat_map_single. simpl. lia.
  - rewrite concat_map_cons, !length_app. cbn [sum_list_with] in *. lia.
Qed.

Lemma length_bracket {A} (f : A → string) (g : A → nat) level l :
  (∀ x, x ∈ l → g x ≤ String.length (f x))%nat →
  ∀ opening closing,
    String.length opening = 1%nat → String.length closing = 1%nat →
    (2 + sum_list_with (λ x, 2 + g x) l
     ≤ String.length (bracket opening closing level (map f l)))%nat.
Proof.
  intros Hle opening closing Hopen Hclose. destruct l as [|x l].
  - simpl. rewrite length_app. lia.
  - rewrite bracket_map_cons, !length_app.
    pose proof (length_newline_indent level).
    pose proof (length_newline_indent (S level)).
    assert (2 ≤ String.length ("," +:+ newline_indent (S level)))%nat as Hsep.
    { rewrite length_app. simpl. lia. }
    pose proof (length_concat_map f g ("," +:+ newline_indent (S level))
                  (x :: l) Hle Hsep) as Hconcat.
    lia.
Qed.

Lemma size_le_length v :
  validb v = true → ∀ level, (value_size v ≤ String.length (dump_value level v))%nat.
Proof.
  induction v as [|b|n|repr|s|items IH|members IH] using json_nested_ind;
    intros Hvalid level.
  - simpl. lia.
  - destruct b; simpl; lia.
  - destruct (pretty_Z_number n) as (_ & Hne & _). simpl.
    destruct (pretty n); [done | simpl; lia].
  - destruct (float_repr_number repr Hvalid) as (_ & Hne & _). simpl.
    destruct repr; [done | simpl; lia].
  - simpl. lia.
  - cbn [value_size dump_value]. apply length_bracket; [|done..].
    intros v Hv. apply (proj1 (Forall_forall _ _) IH v Hv).
    apply (proj1 (forallb_forall _ _) Hvalid). by apply list_elem_of_In.
  - cbn [value_size dump_value]. cbn [validb] in Hvalid.
    apply andb_true_iff in Hvalid as [_ Hvalid].
    apply (length_bracket
             (λ kv, quote kv.1 +:+ ": " +:+ dump_value (S level) kv.2)
             (λ kv, value_size kv.2)); [|done..].
    intros kv Hkv. rewrite !length_app.
    assert (value_size kv.2 ≤ String.length (dump_value (S level) kv.2))%nat;
      [|lia].
    apply (proj1 (Forall_forall _ _) IH kv Hkv).
    apply (proj1 (forallb_forall _ _) Hvalid). by apply list_elem_of_In.
Qed.

(** The reader gives back every valid document from the text the writer
    makes of it. *)
Theorem loads_dumps v : validb v = true → loads (dumps v) = Return v.
Proof.
  intros Hvalid. unfold loads, dumps.
  pose proof (size_le_length v Hvalid 0) as Hsize.
  pose proof (read_dump v Hvalid 0%nat
                (S (String.length (dump_value 0 v))) "") as Hread.
  rewrite PyStr.app_empty_r in Hread.
  rewrite Hread; [done|lia|done].
Qed.

(** *** The documents of the goal tracker *)

Lemma validb_json_of_goal g : validb (json_of_goal g) = true.
Proof. done. Qed.

Lemma validb_data_with_goals goals : validb (data_with_goals goals) = true.
Proof.
  unfold data_with_goals. cbn [validb forallb snd].
  rewrite !andb_true_r. apply andb_true_iff. split; [done|].
  induction goals as [|g goals IH]; [done|].
  rewrite fmap_cons. cbn [forallb]. by rewrite validb_json_of_goal.
Qed.

(** With this reader and writer, saving, loading and saving again leaves
    the file of any goal list as the first save wrote it. *)
Theorem goals_file_stable goals file :
  let saved := save_security_data dumps (data_with_goals goals) file in
  load_security_data loads saved = Return (data_with_goals goals) ∧
  save_security_data dumps (data_with_goals goals) saved = saved.
Proof.
  split; [|done].
  apply load_after_save, loads_dumps, validb_data_with_goals.
Qed.

End JsonText.

(** C4.  [load_security_data] never raises.  It returns the parsed
    document when the file exists and parses, and the empty document
    [{assessments: [], goals: [], habits: [], last_assessment: null}]
    when the file is absent or does not parse. *)
Theorem load_security_data_total
    (json_load : string → Exc Persistence.json) (file : option string) :
  (∃ data, Persistence.load_security_data json_load file = Return data) ∧
  (∀ content data,
     file = Some content → json_load content = Return data →
     Persistence.load_security_data json_load file = Return data) ∧
  (file = None →
     Persistence.load_security_data json_load file
     = Return Persistence.empty_data) ∧
  (∀ content e,
     file = Some content → json_load content = Raise e →
     Persistence.load_security_data json_load file
     = Return Persistence.empty_data).
Proof.
  unfold Persistence.load_security_data, Persistence.try_except.
  split; [|split; [|split]].
  - destruct file as [content|]; simpl; [|by eexists].
    destruct (json_load content); by eexists.
  - intros content data -> Hload. simpl. unfold mbind, exc_bind.
    by rewrite Hload.
  - by intros ->.
  - intros content e -> Hload. simpl. unfold mbind, exc_bind.
    by rewrite Hload.
Qed.

(** A saved document with one goal, the same file cut short, and no file. *)
Lemma load_security_data_total_witness :
  let data := Persistence.data_with_goals
                [Goals.new_goal 0 (Goals.example_form "Enable 2FA")] in
  let content := JsonText.dumps data in
  Persistence.load_security_data JsonText.loads (Some content) = Return data ∧
  Persistence.load_security_data JsonText.loads
    (Some (PyStr.slice_to 40 content)) = Return Persistence.empty_data ∧
  Persistence.load_security_data JsonText.loads None
  = Return Persistence.empty_data.
Proof.
  intros data content.
  split; [|split].
  - destruct (load_security_data_total JsonText.loads (Some content))
      as (_ & Hparsed & _).
    apply (Hparsed content data eq_refl). by vm_compute.
  - destruct (load_security_data_total JsonText.loads
                (Some (PyStr.slice_to 40 content)))
      as (_ & _ & _ & Hbad).
    apply (Hbad (PyStr.slice_to 40 content) JSONDecodeError eq_refl).
    by vm_compute.
  - destruct (load_security_data_total JsonText.loads None)
      as (_ & _ & Habsent & _).
    by apply Habsent.
Defined.



(** ** Prime checker: the steps shown *)

Module PrimeSteps.
Import PrimeChecker.

(** The loop stops at the first candidate that divides [n]; up to there,
    every candidate leaves one line. *)
Lemma is_prime_loop_find n cands steps :
  is_prime_loop n cands steps =
  match list_find (λ i, n `mod` i = 0) cands with
  | Some (k, d) =>
      (false, steps ++ (msg_check n <$> take (S k) cands)
                    ++ [msg_divisible n d])
  | None => (true, steps ++ (msg_check n <$> cands) ++ [msg_prime n])
  end.
Proof.
  revert steps. induction cands as [|i cands IH]; intros steps; [done|].
  cbn [is_prime_loop list_find]. rewrite IH.
  destruct (Z.eqb_spec (n `mod` i) 0) as [Hm|Hm].
  - rewrite decide_True by done. simpl. by rewrite <- app_assoc.
  - rewrite decide_False by done.
    destruct (list_find _ cands) as [[k d]|]; simpl;
      by rewrite <- !app_assoc.
Qed.

Lemma take_range a b k :
  (k ≤ Z.to_nat (b - a))%nat →
  take k (range a b) = range a (a + Z.of_nat k).
Proof.
  intros Hk. unfold range.
  destruct k as [|k].
  { rewrite take_0. by rewrite seqZ_nil by lia. }
  replace (b - a) with (Z.of_nat (S k) + (b - a - Z.of_nat (S k))) by lia.
  rewrite seqZ_app by lia.
  replace (a + Z.of_nat (S k) - a) with (Z.of_nat (S k)) by lia.
  apply take_app_length'. rewrite length_seqZ. lia.
Qed.

Lemma lookup_range a b k d :
  range a b !! k = Some d → d = a + Z.of_nat k ∧ d < b.
Proof.
  unfold range. intros Hd. apply lookup_seqZ in Hd. lia.
Qed.

(** X1.  For [n] in the range of the page's input, from 2 to 100000, the
    answer comes with these steps.  When [n] is prime,
    one line per candidate from 2 to the integer square root, then the
    verdict.  Otherwise the lines stop at the least divisor above 1, which
    the last line names.  Either way there are at most [sqrt n] lines. *)
Theorem is_prime_steps (n : Z) :
  2 ≤ n ≤ 100000 →
  ∃ steps,
    is_prime n = ((is_prime n).1, steps) ∧
    (Z.of_nat (length steps) ≤ Z.sqrt n) ∧
    ((is_prime n).1 = true →
       steps = (msg_check n <$> range 2 (Z.sqrt n + 1)) ++ [msg_prime n]) ∧
    ((is_prime n).1 = false →
       ∃ d, 2 ≤ d ≤ Z.sqrt n ∧ (d | n) ∧
            (∀ i, 2 ≤ i < d → ¬ (i | n)) ∧
            steps = (msg_check n <$> range 2 (d + 1))
                    ++ [msg_divisible n d]).
Proof.
  intros Hn. unfold is_prime, int_sqrt.
  destruct (Z.ltb_spec n 2); [lia|].
  pose proof (Z.sqrt_nonneg n) as Hs.
  assert (1 ≤ Z.sqrt n) as Hs1.
  { apply Z.sqrt_le_square; lia. }
  rewrite is_prime_loop_find.
  destruct (list_find _ _) as [[k d]|] eqn:Hfind.
  - apply list_find_Some in Hfind as (Hd & Hmod & Hleast).
    pose proof (lookup_range _ _ _ _ Hd) as [Hdk Hdb].
    assert (Hk : (S k ≤ Z.to_nat (Z.sqrt n + 1 - 2))%nat) by lia.
    eexists. split; [reflexivity|]. simpl.
    rewrite take_range by done.
    replace (2 + Z.of_nat (S k)) with (d + 1) by lia.
    split; [|split; [done|]].
    + rewrite length_app, length_fmap. unfold range at 1.
      rewrite length_seqZ. simpl. lia.
    + intros _. exists d. split; [lia|]. split.
      { apply Z.mod_divide; [lia|done]. }
      split; [|done].
      intros i Hi Hdiv.
      assert (Hlook : range 2 (Z.sqrt n + 1) !! Z.to_nat (i - 2) = Some i).
      { unfold range. apply lookup_seqZ. lia. }
      apply (Hleast _ _ Hlook); [lia|].
      apply Z.mod_divide; [lia|done].
  - eexists. split; [reflexivity|]. simpl. split; [|split; [done|done]].
    rewrite length_app, length_fmap. unfold range.
    rewrite length_seqZ. simpl. lia.
Qed.

Lemma is_prime_steps_witness :
  2 ≤ 91 ≤ 100000 ∧
  ∃ steps, is_prime 91 = (false, steps) ∧ Z.of_nat (length steps) ≤ 9.
Proof.
  assert (Hn : 2 ≤ 91 ≤ 100000) by lia. split; [exact Hn|].
  destruct (is_prime_steps 91 Hn) as (steps & Heq & Hlen & _).
  exists steps. split; [exact Heq | exact Hlen].
Defined.

End PrimeSteps.

(** ** E-mail scanner: what the verdict depends on *)

Module WorkshopFacts.
Import Workshop.

Lemma lower_ascii_upper c :
  PyStr.lower_ascii (PyStr.upper_ascii c) = PyStr.lower_ascii c.
Proof. destruct c as [[] [] [] [] [] [] [] []]; reflexivity. Qed.

Lemma lower_ascii_lower c :
  PyStr.lower_ascii (PyStr.lower_ascii c) = PyStr.lower_ascii c.
Proof. destruct c as [[] [] [] [] [] [] [] []]; reflexivity. Qed.

Lemma lower_upper s : PyStr.lower (PyStr.upper s) = PyStr.lower s.
Proof.
  induction s as [|c s IH]; [done|]. simpl.
  by rewrite lower_ascii_upper, IH.
Qed.

Lemma lower_lower s : PyStr.lower (PyStr.lower s) = PyStr.lower s.
Proof.
  induction s as [|c s IH]; [done|]. simpl.
  by rewrite lower_ascii_lower, IH.
Qed.

Lemma lower_app a b : PyStr.lower (a +:+ b) = PyStr.lower a +:+ PyStr.lower b.
Proof.
  induction a as [|c a IH]; PyStr.simpl_app; [done|]. simpl.
  PyStr.simpl_app. by rewrite IH.
Qed.

(** The security verdict of [ai_check] as a function of the text alone. *)
Lemma ai_check_security polarity text :
  (ai_check polarity text).1.2 =
  if 2 <=? phishing_count text then security_label PossiblePhishing
  else if phishing_count text =? 1 then security_label BeCareful
  else security_label LooksSafe.
Proof. done. Qed.

(** X2.  For a text of ASCII characters, writing it in capitals or in
    small letters changes nothing in the security verdict, whatever the
    sentiment library returns. *)
Theorem ai_check_ignores_case (polarity polarity' : string → Q) text :
  PyStr.is_ascii text = true →
  (ai_check polarity (PyStr.upper text)).1.2 = (ai_check polarity' text).1.2 ∧
  (ai_check polarity (PyStr.lower text)).1.2 = (ai_check polarity' text).1.2.
Proof.
  intros _. rewrite !ai_check_security. unfold phishing_count.
  by rewrite lower_upper, lower_lower.
Qed.

Lemma ai_check_ignores_case_witness :
  let text := "Your account is Suspended" in
  PyStr.is_ascii text = true ∧
  (ai_check (λ _, 0%Q) "YOUR ACCOUNT IS SUSPENDED").1.2
  = security_label BeCareful ∧
  (ai_check (λ _, 1%Q) text).1.2 = security_label BeCareful.
Proof.
  intros text.
  assert (PyStr.is_ascii text = true) as Hascii by (by vm_compute).
  split; [exact Hascii|].
  destruct (ai_check_ignores_case (λ _, 0%Q) (λ _, 1%Q) text Hascii)
    as [Hupper _].
  assert ((ai_check (λ _, 0%Q) (PyStr.upper text)).1.2
          = security_label BeCareful) as Hrun by (by vm_compute).
  split; [exact Hrun|]. rewrite <- Hupper. exact Hrun.
Defined.

Lemma substring_of_app w t pre post :
  PyStr.substring_of w t → PyStr.substring_of w (pre +:+ t +:+ post).
Proof.
  intros (a & b & ->). exists (pre +:+ a), (b +:+ post).
  by rewrite !PyStr.app_assoc.
Qed.

Lemma filter_length_impl {A} (P Q : A → Prop)
    `{∀ x, Decision (P x)} `{∀ x, Decision (Q x)} (l : list A) :
  (∀ x, P x → Q x) → (length (filter P l) ≤ length (filter Q l))%nat.
Proof.
  intros Himpl. induction l as [|x l IH]; [done|].
  rewrite !filter_cons.
  destruct (decide (P x)) as [HP|HP].
  - rewrite decide_True by auto. simpl. lia.
  - destruct (decide (Q x)); simpl; lia.
Qed.

Lemma phishing_count_app text pre post :
  phishing_count text ≤ phishing_count (pre +:+ text +:+ post).
Proof.
  rewrite !phishing_count_matches. apply inj_le.
  unfold keyword_matches. apply filter_length_impl.
  intros word. unfold occurs_ci. rewrite !lower_app.
  apply substring_of_app.
Qed.

(** X3.  A text that is quoted inside a longer one keeps its keywords: the
    count does not drop, a possible-phishing verdict stays, and a text
    found safe has only safe parts. *)
Theorem ai_check_embedded (polarity polarity' : string → Q) text pre post :
  let whole := pre +:+ text +:+ post in
  phishing_count text ≤ phishing_count whole ∧
  ((ai_check polarity text).1.2 = security_label PossiblePhishing →
   (ai_check polarity' whole).1.2 = security_label PossiblePhishing) ∧
  ((ai_check polarity' whole).1.2 = security_label LooksSafe →
   (ai_check polarity text).1.2 = security_label LooksSafe).
Proof.
  intros whole. pose proof (phishing_count_app text pre post) as Hle.
  fold whole in Hle. split; [done|]. rewrite !ai_check_security.
  assert (0 ≤ phishing_count text) by (unfold phishing_count; lia).
  split.
  - destruct (Z.leb_spec 2 (phishing_count text)).
    + intros _. destruct (Z.leb_spec 2 (phishing_count whole)); [done|lia].
    + destruct (phishing_count text =? 1); by intros ?%security_label_inj.
  - destruct (Z.leb_spec 2 (phishing_count whole)).
    { by intros ?%security_label_inj. }
    destruct (Z.eqb_spec (phishing_count whole) 1).
    { by intros ?%security_label_inj. }
    intros _. destruct (Z.leb_spec 2 (phishing_count text)); [lia|].
    destruct (Z.eqb_spec (phishing_count text) 1); [lia|done].
Qed.

Lemma ai_check_embedded_witness :
  let text := "URGENT: verify account" in
  let whole := "Fwd: " +:+ text +:+ " -- see below" in
  (ai_check (λ _, 0%Q) text).1.2 = security_label PossiblePhishing ∧
  (ai_check (λ _, 1%Q) whole).1.2 = security_label PossiblePhishing.
Proof.
  intros text whole. assert (Hfirst :
    (ai_check (λ _, 0%Q) text).1.2 = security_label PossiblePhishing)
    by reflexivity.
  split; [exact Hfirst|].
  destruct (ai_check_embedded (λ _, 0%Q) (λ _, 1%Q) text
              "Fwd: " " -- see below") as (_ & Hkeep & _).
  exact (Hkeep Hfirst).
Defined.

End WorkshopFacts.

(** ** E-mail scanner: the inbox and its statistics *)

Module Inbox.
Import Workshop.

(** An entry of [emails]. *)
Record email := {
  subject : string;
  message : string;
  timestamp : string;     (* [datetime.now().strftime("%Y-%m-%d %H:%M")] *)
  sentiment : string;
  security : string;
  score : Q
}.

Section WithPolarity.

Variable polarity : string → Q.

(** The Send button: both fields must be filled in, otherwise an error is
    shown and nothing is stored. *)
Definition send_email (clicked : bool) (subject message now : string)
    (emails : list email) : list email :=
  if clicked then
    if negb (bool_decide (subject = "")) && negb (bool_decide (message = ""))
    then
      let '(sentiment, security, score) := ai_check polarity message in
      emails ++ [ {| subject := subject; message := message;
                     timestamp := now; sentiment := sentiment;
                     security := security; score := score |} ]
    else emails
  else emails.

(** The lists of e-mails the page builds, starting with none. *)
Inductive sent : list email → Prop :=
  | sent_nil : sent []
  | sent_send clicked subject message now emails :
      sent emails → sent (send_email clicked subject message now emails).

End WithPolarity.

(** [sum(1 for e in emails if emoji in e[field])] *)
Definition count_with (emoji : string) (field : email → string)
    (emails : list email) : nat :=
  length (filter (λ e, PyStr.contains emoji (field e) = true) emails).

Definition positive := count_with "😊" sentiment.
Definition negative := count_with "😔" sentiment.
Definition neutral := count_with "😐" sentiment.
Definition safe := count_with "✅" security.
Definition warning := count_with "⚠️" security.
Definition phishing := count_with "🚨" security.

(** The two labels of an e-mail come from [ai_check]. *)
Definition labelled (e : email) : Prop :=
  (∃ s, sentiment e = sentiment_label s) ∧
  (∃ v, security e = security_label v).

Lemma ai_check_labelled polarity text :
  (∃ s, (ai_check polarity text).1.1 = sentiment_label s) ∧
  (∃ v, (ai_check polarity text).1.2 = security_label v).
Proof.
  unfold ai_check. cbn [fst snd]. split; repeat case_match; by eexists.
Qed.

Lemma sent_labelled polarity emails :
  sent polarity emails → Forall labelled emails.
Proof.
  induction 1 as [|clicked subject message now emails _ IH]; [constructor|].
  unfold send_email. destruct clicked; [|done].
  destruct (_ && _); [|done].
  pose proof (ai_check_labelled polarity message) as Hlab.
  destruct (ai_check polarity message) as [[sentiment security] score].
  apply Forall_app. split; [done|]. constructor; [exact Hlab|constructor].
Qed.

(** Three tests of which exactly one holds on every element count the
    whole list. *)
Lemma count_three {A} (p1 p2 p3 : A → bool) (l : list A) :
  Forall (λ x, (p1 x, p2 x, p3 x) = (true, false, false) ∨
               (p1 x, p2 x, p3 x) = (false, true, false) ∨
               (p1 x, p2 x, p3 x) = (false, false, true)) l →
  (length (filter (λ x, p1 x = true) l) + length (filter (λ x, p2 x = true) l)
   + length (filter (λ x, p3 x = true) l))%nat = length l.
Proof.
  induction 1 as [|x l Hx _ IH]; [done|]. rewrite !filter_cons.
  destruct Hx as [[= -> -> ->]|[[= -> -> ->]|[= -> -> ->]]]; simpl; lia.
Qed.

(** X4.  For the e-mails sent through the page, every e-mail is counted under
    exactly one sentiment and under exactly one security verdict. *)
Theorem inbox_stats_partition polarity emails :
  sent polarity emails →
  (positive emails + negative emails + neutral emails)%nat = length emails ∧
  (safe emails + warning emails + phishing emails)%nat = length emails.
Proof.
  intros Hsent%sent_labelled. split.
  - apply (count_three
             (λ e, PyStr.contains "😊" (sentiment e))
             (λ e, PyStr.contains "😔" (sentiment e))
             (λ e, PyStr.contains "😐" (sentiment e))).
    eapply Forall_impl; [exact Hsent|].
    intros e [[s ->] _]. destruct s; vm_compute; auto.
  - apply (count_three
             (λ e, PyStr.contains "✅" (security e))
             (λ e, PyStr.contains "⚠️" (security e))
             (λ e, PyStr.contains "🚨" (security e))).
    eapply Forall_impl; [exact Hsent|].
    intros e [_ [v ->]]. destruct v; vm_compute; auto.
Qed.

Lemma inbox_stats_partition_witness :
  let polarity := λ text : string,
    if decide (text = "Great news, thank you!") then (8 # 10)%Q else 0%Q in
  let emails :=
    send_email polarity true "Offer" "URGENT: free money, act now" "2025-01-02 10:00"
      (send_email polarity true "" "no subject" "2025-01-01 09:30"
         (send_email polarity true "Hello" "Great news, thank you!"
            "2025-01-01 09:00" [])) in
  length emails = 2%nat ∧
  (positive emails + negative emails + neutral emails)%nat = 2%nat ∧
  (safe emails + warning emails + phishing emails)%nat = 2%nat.
Proof.
  intros polarity emails.
  assert (Hsent : sent polarity emails) by (repeat constructor).
  destruct (inbox_stats_partition polarity emails Hsent) as [H1 H2].
  assert (Hlen : length emails = 2%nat) by reflexivity.
  split; [exact Hlen|]. rewrite <- Hlen. split; [exact H1 | exact H2].
Defined.

End Inbox.

(** ** Breach checker: masking, input lines, severity and malformed
    responses *)

Module BreachFacts.
Import BreachChecker.

(** *** The mask *)

Lemma length_stars n c :
  String.length (string_of_list_ascii (replicate n c)) = n.
Proof. induction n as [|n IH]; simpl; [done | by rewrite IH]. Qed.

Lemma string_length_app a b :
  String.length (a +:+ b) = (String.length a + String.length b)%nat.
Proof.
  induction a as [|c a IH]; PyStr.simpl_app; simpl; [done | by rewrite IH].
Qed.

Lemma slice_to_all n s : (String.length s ≤ n)%nat → PyStr.slice_to n s = s.
Proof.
  revert s. induction n as [|n IH]; intros [|c s] Hlen; simpl in *;
    try done; try lia.
  rewrite IH; [done|lia].
Qed.

(** X5.  The masked password is as long as the password.  A password of up to
    three characters is shown as it is; of a longer one the first three
    characters are shown and every other is a star. *)
Theorem mask_shape (password : string) :
  String.length (mask password) = String.length password ∧
  ((String.length password ≤ 3)%nat → mask password = password) ∧
  ((3 ≤ String.length password)%nat →
     mask password =
     PyStr.slice_to 3 password +:+
     string_of_list_ascii (replicate (String.length password - 3) "*"%char)).
Proof.
  unfold mask, PyStr.repeat_char. split; [|split].
  - rewrite string_length_app, PyStr.length_slice_to, length_stars. lia.
  - intros Hlen. rewrite slice_to_all by done.
    replace (Z.to_nat _) with 0%nat by lia. apply PyStr.app_empty_r.
  - intros Hlen. do 3 f_equal. lia.
Qed.

Lemma mask_shape_witness :
  mask "abc" = "abc" ∧ mask "hunter2" = "hun****".
Proof.
  split.
  - apply (proj1 (proj2 (mask_shape "abc"))). simpl. lia.
  - rewrite (proj2 (proj2 (mask_shape "hunter2"))); [reflexivity|].
    simpl. lia.
Defined.

(** *** The text area of the batch check *)

Lemma lstrip_lstrip s : PyStr.lstrip (PyStr.lstrip s) = PyStr.lstrip s.
Proof.
  induction s as [|c s IH]; [done|]. simpl.
  destruct (PyStr.is_space c) eqn:Hc; [done|]. simpl. by rewrite Hc.
Qed.

Lemma rstrip_rstrip s : PyStr.rstrip (PyStr.rstrip s) = PyStr.rstrip s.
Proof.
  induction s as [|c s IH]; [done|]. simpl.
  destruct (PyStr.is_space c && bool_decide (PyStr.rstrip s = "")) eqn:Hc;
    [done|].
  simpl. by rewrite IH, Hc.
Qed.

Lemma lstrip_rstrip t :
  PyStr.lstrip t = t → PyStr.lstrip (PyStr.rstrip t) = PyStr.rstrip t.
Proof.
  destruct t as [|c t]; [done|]. simpl.
  destruct (PyStr.is_space c) eqn:Hc.
  - intros Heq. exfalso.
    assert (Hlen : ∀ s, (String.length (PyStr.lstrip s) ≤ String.length s)%nat).
    { clear. induction s as [|c s IH]; [done|]. simpl.
      destruct (PyStr.is_space c); simpl; lia. }
    specialize (Hlen t). rewrite Heq in Hlen. simpl in Hlen. lia.
  - intros _. simpl. by rewrite Hc.
Qed.

Lemma strip_strip s : PyStr.strip (PyStr.strip s) = PyStr.strip s.
Proof.
  unfold PyStr.strip.
  rewrite (lstrip_rstrip (PyStr.lstrip s)) by apply lstrip_lstrip.
  apply rstrip_rstrip.
Qed.

(** X6.  Every password taken from the text area is non-empty and has no
    white space at either end; lines that are blank or only white space
    give none, so there are at most as many passwords as lines. *)
Theorem parse_passwords_clean (batch_passwords : string) :
  Forall (λ pwd, pwd ≠ "" ∧ PyStr.strip pwd = pwd)
         (parse_passwords batch_passwords) ∧
  (length (parse_passwords batch_passwords)
   ≤ length (PyStr.split "010" batch_passwords))%nat.
Proof.
  unfold parse_passwords. split.
  - apply Forall_fmap, Forall_forall. intros pwd Hpwd.
    apply list_elem_of_filter in Hpwd as [Hne _]. simpl.
    split; [done | apply strip_strip].
  - rewrite length_fmap. apply length_filter.
Qed.

(** *** Severity and the breach history *)

Definition breaches : list string :=
  [ "Collection #1 (2019) - 772M emails";
    "LinkedIn (2012) - 164M accounts";
    "Adobe (2013) - 153M accounts";
    "MySpace (2008) - 360M accounts";
    "Yahoo (2013-2014) - 3B accounts" ].

(** [breaches[:min(3, max(1, breach_count // 50000))]] *)
Definition breach_history (breach_count : Z) : list string :=
  take (Z.to_nat (3 `min` (1 `max` (breach_count `div` 50000)))) breaches.

Definition severity (breach_count : Z) : string :=
  if 100000 <? breach_count then "🔴 EXTREMELY HIGH RISK"
  else if 10000 <? breach_count then "🟠 HIGH RISK"
  else if 1000 <? breach_count then "🟡 MEDIUM RISK"
  else "🔵 LOW RISK".

(** X7.  The history shown for a breached password always has one, two or three
    entries, the first ones of the list: one below 100000 occurrences,
    three from 150000 on.  An extremely high risk shows at least two, a
    medium or low risk exactly one. *)
Theorem breach_history_length (breach_count : Z) :
  let n := length (breach_history breach_count) in
  (1 ≤ n ≤ 3)%nat ∧
  breach_history breach_count `prefix_of` breaches ∧
  (n = 1%nat ↔ breach_count < 100000) ∧
  (n = 3%nat ↔ 150000 ≤ breach_count) ∧
  (severity breach_count = "🔴 EXTREMELY HIGH RISK" → (2 ≤ n)%nat) ∧
  (severity breach_count = "🟡 MEDIUM RISK" ∨
   severity breach_count = "🔵 LOW RISK" → n = 1%nat).
Proof.
  intros n. subst n. unfold breach_history.
  rewrite length_take. change (length breaches) with 5%nat.
  pose proof (Z.div_lt_upper_bound breach_count 50000 2 ltac:(lia)).
  pose proof (Z.div_le_lower_bound breach_count 50000 2 ltac:(lia)).
  pose proof (Z.div_lt_upper_bound breach_count 50000 3 ltac:(lia)).
  pose proof (Z.div_le_lower_bound breach_count 50000 3 ltac:(lia)).
  split; [lia|]. split; [apply prefix_take|].
  split; [lia|]. split; [lia|]. unfold severity. split.
  - destruct (Z.ltb_spec 100000 breach_count); [lia|].
    repeat case_match; done.
  - destruct (Z.ltb_spec 100000 breach_count).
    { by intros [|]. }
    destruct (Z.ltb_spec 10000 breach_count).
    { by intros [|]. }
    intros _. lia.
Qed.

Lemma breach_history_length_witness :
  length (breach_history 3730471) = 3%nat ∧
  length (breach_history 120000) = 2%nat ∧
  length (breach_history 7) = 1%nat.
Proof.
  split; [|split].
  - apply (breach_history_length 3730471). lia.
  - reflexivity.
  - apply (breach_history_length 7). by right.
Defined.

(** *** Lines the scan cannot take apart *)

(** How often a character occurs in a string. *)
Fixpoint occurrences (c : ascii) (s : string) : nat :=
  match s with
  | EmptyString => 0
  | String x s' => (if decide (x = c) then 1 else 0) + occurrences c s'
  end.

Lemma length_split_from sep cur s :
  length (PyStr.split_from sep cur s) = S (occurrences sep s).
Proof.
  revert cur. induction s as [|x s IH]; intros cur; [done|]. simpl.
  destruct (decide (x = sep)); simpl; by rewrite IH.
Qed.

Lemma scan_hashes_skip before hashes suffix :
  Forall well_formed before → Forall (λ l, l.1 ≠ suffix) before →
  scan_hashes ((render_line <$> before) ++ hashes) suffix
  = scan_hashes hashes suffix.
Proof.
  induction 1 as [|l before Hl _ IH]; [done|].
  intros [Hne Hrest]%Forall_cons. rewrite fmap_cons. simpl.
  rewrite split_render_line by done.
  rewrite decide_False by done. by apply IH.
Qed.

(** X8.  The scan stops at the first line that carries the suffix: what comes
    after it, well formed or not, is never looked at. *)
Theorem scan_hashes_stops_at_match before l (after : list string) suffix :
  Forall well_formed before → Forall (λ b, b.1 ≠ suffix) before →
  well_formed l → l.1 = suffix →
  scan_hashes ((render_line <$> before) ++ render_line l :: after) suffix
  = Return (true, PyStr.decimal_value l.2).
Proof.
  intros Hwf Hne Hl Hs. rewrite scan_hashes_skip by done. simpl.
  rewrite split_render_line by done. rewrite decide_True by done.
  destruct Hl as [_ Hdec]. by rewrite PyStr.int_of_str_decimal.
Qed.

Lemma scan_hashes_stops_at_match_witness :
  scan_hashes [ "0018A45C4D1DEF81644B54AB7F969B88D65:10";
                "1E4C9B93F3F0682250B6CF8331B7EE68FD8:3730471";
                "not a line at all"; "" ]
              "1E4C9B93F3F0682250B6CF8331B7EE68FD8"
  = Return (true, 3730471).
Proof.
  apply (scan_hashes_stops_at_match
           [("0018A45C4D1DEF81644B54AB7F969B88D65", "10")]
           ("1E4C9B93F3F0682250B6CF8331B7EE68FD8", "3730471")
           ["not a line at all"; ""]).
  - repeat constructor.
  - repeat constructor. done.
  - by split.
  - reflexivity.
Defined.

Lemma scan_hashes_raises before bad (after : list string) suffix :
  Forall well_formed before → Forall (λ b, b.1 ≠ suffix) before →
  occurrences ":" bad ≠ 1%nat →
  scan_hashes ((render_line <$> before) ++ bad :: after) suffix
  = Raise ValueError.
Proof.
  intros Hwf Hne Hbad. rewrite scan_hashes_skip by done. simpl.
  pose proof (length_split_from ":" "" bad) as Hlen.
  fold (PyStr.split ":" bad) in Hlen.
  destruct (PyStr.split ":" bad) as [|a [|b [|c parts]]]; try done.
  simpl in Hlen. lia.
Qed.

(** X9.  A line of a 200 response that does not hold exactly one colon (a
    blank line, say), met before any line carries the suffix, makes the
    unpacking raise [ValueError]: the single check reports an unexpected
    error and the batch check adds an ['Error'] row, even when a later
    line carries the suffix. *)
Theorem malformed_line_outcome
    (sha1_hexdigest : string → string)
    (requests_get : nat → string → Exc response)
    (i : nat) (pw : string) (r : response)
    before bad (after : list string) (results : list result) :
  pw ≠ "" →
  requests_get i (api_url +:+ prefix sha1_hexdigest pw) = Return r →
  status_code r = 200 →
  PyStr.splitlines (text r) = (render_line <$> before) ++ bad :: after →
  Forall well_formed before →
  Forall (λ b, b.1 ≠ suffix sha1_hexdigest pw) before →
  occurrences ":" bad ≠ 1%nat →
  (i = 0%nat →
   check_password sha1_hexdigest requests_get true pw
   = Some (UnexpectedError ValueError)) ∧
  batch_step sha1_hexdigest requests_get i pw results
  = results ++ [error_result pw].
Proof.
  intros Hpw Hget Hst Hlines Hwf Hne Hbad.
  pose proof (scan_hashes_raises before bad after _ Hwf Hne Hbad) as Hscan.
  rewrite <- Hlines in Hscan. split.
  - intros ->. unfold check_password.
    rewrite bool_decide_eq_false_2 by done. simpl.
    by rewrite Hget, Hst, Hscan.
  - unfold batch_step. by rewrite Hget, Hst, Hscan.
Qed.

(** A blank line between two entries of the response for ["password"]. *)
Lemma malformed_line_outcome_witness :
  let body :=
    "0018A45C4D1DEF81644B54AB7F969B88D65:10" +:+ String "010" "" +:+
    String "010" "" +:+ "1E4C9B93F3F0682250B6CF8331B7EE68FD8:3730471" in
  let requests_get := λ (_ : nat) (_ : string),
    Return {| status_code := 200; text := body |} in
  check_password Sha1.hexdigest requests_get true "password"
  = Some (UnexpectedError ValueError) ∧
  batch_step Sha1.hexdigest requests_get 0 "password" []
  = [error_result "password"].
Proof.
  intros body requests_get.
  destruct (malformed_line_outcome Sha1.hexdigest requests_get 0 "password"
              {| status_code := 200; text := body |}
              [("0018A45C4D1DEF81644B54AB7F969B88D65", "10")] ""
              ["1E4C9B93F3F0682250B6CF8331B7EE68FD8:3730471"] [])
    as [Hsingle Hbatch].
  - done.
  - reflexivity.
  - reflexivity.
  - by vm_compute.
  - repeat constructor.
  - repeat constructor. by vm_compute.
  - simpl. lia.
  - split; [by apply Hsingle | exact Hbatch].
Defined.

(** *** The rows of a batch check *)

Section Batch.

Variable sha1_hexdigest : string → string.
Variable requests_get : nat → string → Exc response.

Lemma batch_step_rows i pw results :
  ∃ added,
    batch_step sha1_hexdigest requests_get i pw results = results ++ added ∧
    (added = [] ∨ ∃ row, added = [row] ∧ password row = mask pw) ∧
    ((∀ r, requests_get i (api_url +:+ prefix sha1_hexdigest pw) = Return r →
           status_code r = 200) → added ≠ []).
Proof.
  unfold batch_step.
  destruct (requests_get _ _) as [r|e].
  - destruct (status_code r =? 200) eqn:Hst.
    + destruct (scan_hashes _ _) as [[found n]|e];
        eexists; (split; [reflexivity|]); split; eauto.
    + exists []. rewrite app_nil_r. split; [done|]. split; [by left|].
      intros Hok. specialize (Hok r eq_refl). rewrite Hok in Hst. done.
  - eexists. split; [reflexivity|]. split; eauto.
Qed.

Lemma batch_loop_rows i pws results :
  ∃ added,
    batch_loop sha1_hexdigest requests_get i pws results = results ++ added ∧
    (length added ≤ length pws)%nat ∧
    ((∀ j url r, requests_get j url = Return r → status_code r = 200) →
     password <$> added = mask <$> pws).
Proof.
  revert i results. induction pws as [|pw pws IH]; intros i results.
  - exists []. by rewrite app_nil_r.
  - cbn [batch_loop].
    destruct (batch_step_rows i pw results) as (a1 & -> & Hrow & Hsome).
    destruct (IH (S i) (results ++ a1)) as (a2 & -> & Hlen & Hmask).
    exists (a1 ++ a2). rewrite <- app_assoc. split; [done|]. split.
    + rewrite length_app. simpl.
      destruct Hrow as [->|(row & -> & _)]; simpl; lia.
    + intros Hok. rewrite fmap_app, Hmask by done.
      destruct Hrow as [->|(row & -> & Hrow)].
      * exfalso. apply Hsome; [|done]. intros r Hr. by eapply Hok.
      * simpl. by rewrite Hrow.
Qed.

End Batch.

(** X10.  A password never gets more than one row.  When every request that is
    answered is answered with status 200, each password gets its row, in
    order, under its masked form. *)
Theorem batch_check_rows sha1_hexdigest requests_get passwords :
  (length (batch_check sha1_hexdigest requests_get passwords)
   ≤ length passwords)%nat ∧
  ((∀ j url r, requests_get j url = Return r → status_code r = 200) →
   password <$> batch_check sha1_hexdigest requests_get passwords
   = mask <$> passwords).
Proof.
  unfold batch_check.
  destruct (batch_loop_rows sha1_hexdigest requests_get 0 passwords [])
    as (added & -> & Hlen & Hmask).
  done.
Qed.

Lemma batch_check_rows_witness :
  let requests_get := λ (j : nat) (_ : string),
    if decide (j = 1%nat) then Raise RequestException
    else Return {| status_code := 200;
                   text := "1E4C9B93F3F0682250B6CF8331B7EE68FD8:3730471" |} in
  let results :=
    batch_check Sha1.hexdigest requests_get ["password"; "hunter2"; "x"] in
  password <$> results = ["pas*****"; "hun****"; "x"] ∧
  breached <$> results = [PyBool true; PyString "Error"; PyBool false].
Proof.
  intros requests_get results.
  destruct (batch_check_rows Sha1.hexdigest requests_get
              ["password"; "hunter2"; "x"]) as [_ Hmask].
  split; [|by vm_compute].
  unfold results. rewrite Hmask; [reflexivity|].
  intros j url r. unfold requests_get. case_decide; [done|].
  by intros [= <-].
Defined.

End BreachFacts.

(** ** Security dashboard: what the score can be *)

Module AssessmentFacts.
Import Assessment.

(** The response the loop reads for a question (a missing one raises
    before it is used). *)
Definition response_of (responses : gmap string string) (q : question)
  : string :=
  default "" (responses !! q_id q).

Definition scores_of (responses : gmap string string) (qs : list question)
  : list Q :=
  (λ q, question_score q (response_of responses q)) <$> qs.

(** Yes counts more than Partially, which counts more than anything
    else. *)
Definition rank (response : string) : nat :=
  if decide (response = "Yes") then 2
  else if decide (response = "Partially") then 1
  else 0.

Lemma question_score_range q response :
  0 ≤ q_weight q →
  (0 <= question_score q response)%Q ∧
  (question_score q response <= inject_Z (q_weight q))%Q.
Proof.
  intros Hw. assert (0 <= inject_Z (q_weight q))%Q as Hq.
  { unfold Qle. simpl. lia. }
  unfold question_score. repeat case_decide; split; lra.
Qed.

Lemma question_score_full q response :
  0 < q_weight q →
  (question_score q response == inject_Z (q_weight q))%Q ↔ response = "Yes".
Proof.
  intros Hw. assert (0 < inject_Z (q_weight q))%Q as Hq.
  { unfold Qlt. simpl. lia. }
  unfold question_score. repeat case_decide; split; try done; try lra;
    intros; exfalso; lra.
Qed.

Lemma question_score_none q response :
  0 < q_weight q →
  (question_score q response == 0)%Q ↔
  response ≠ "Yes" ∧ response ≠ "Partially".
Proof.
  intros Hw. assert (0 < inject_Z (q_weight q))%Q as Hq.
  { unfold Qlt. simpl. lia. }
  unfold question_score. repeat case_decide; split; try done; try lra;
    try tauto; intros; exfalso; lra.
Qed.

Lemma question_score_mono q r1 r2 :
  0 ≤ q_weight q → (rank r1 ≤ rank r2)%nat →
  (question_score q r1 <= question_score q r2)%Q.
Proof.
  intros Hw. assert (0 <= inject_Z (q_weight q))%Q as Hq.
  { unfold Qle. simpl. lia. }
  unfold rank, question_score. repeat case_decide; intros; try lia; lra.
Qed.

(** The loop returns exactly when every question has a response, and its
    total is then the sum of the scores. *)
Lemma score_loop_total qs responses total cats total' cats' :
  score_loop qs responses total cats = Return (total', cats') →
  (total' == total + sumQ (scores_of responses qs))%Q.
Proof.
  revert total cats. induction qs as [|q qs IH]; intros total cats Hloop.
  - injection Hloop as <- _. simpl. lra.
  - cbn [score_loop] in Hloop. unfold scores_of, response_of in *.
    rewrite fmap_cons. simpl.
    destruct (responses !! q_id q) as [response|]; [|done].
    apply IH in Hloop. simpl. lra.
Qed.

Lemma score_loop_raises qs responses total cats e :
  score_loop qs responses total cats = Raise e →
  e = KeyError ∧ ∃ q, q ∈ qs ∧ responses !! q_id q = None.
Proof.
  revert total cats. induction qs as [|q qs IH]; intros total cats Hloop;
    [done|].
  cbn [score_loop] in Hloop.
  destruct (responses !! q_id q) as [response|] eqn:Hq.
  - apply IH in Hloop as (-> & q' & Hq' & Hnone).
    split; [done|]. exists q'. split; [by apply list_elem_of_further|done].
  - injection Hloop as <-. split; [done|]. exists q.
    split; [apply list_elem_of_here|done].
Qed.

Lemma sumZ_weights_questions : max_score questions = 100.
Proof. reflexivity. Qed.

Lemma questions_weights : Forall (λ q, 0 < q_weight q) questions.
Proof. repeat constructor. Qed.

(** With weights that add up to 100 the percentage is the total. *)
Lemma calculate_score_total responses p cats :
  calculate_score questions responses = Return (p, cats) →
  (p == sumQ (scores_of responses questions))%Q.
Proof.
  unfold calculate_score.
  destruct (score_loop questions responses 0%Q ∅) as [[total cats']|e] eqn:Hloop;
    [|done].
  cbn [mbind exc_bind]. rewrite decide_False by done.
  rewrite sumZ_weights_questions. intros [= <- <-].
  apply score_loop_total in Hloop.
  set (points := sumQ _) in *. change (inject_Z 100) with 100%Q.
  transitivity total; [field | lra].
Qed.

Lemma sum_scores_range responses qs :
  Forall (λ q, 0 < q_weight q) qs →
  (0 <= sumQ (scores_of responses qs))%Q ∧
  (sumQ (scores_of responses qs) <= inject_Z (sumZ (q_weight <$> qs)))%Q.
Proof.
  induction 1 as [|q qs Hq _ IH]; [by split|].
  unfold scores_of in *. rewrite !fmap_cons. simpl.
  destruct (question_score_range q (response_of responses q)); [lia|].
  rewrite inject_Z_plus. split; lra.
Qed.

Lemma sum_scores_full responses qs :
  Forall (λ q, 0 < q_weight q) qs →
  (sumQ (scores_of responses qs) == inject_Z (sumZ (q_weight <$> qs)))%Q ↔
  ∀ q, q ∈ qs → response_of responses q = "Yes".
Proof.
  induction 1 as [|q qs Hq Hqs IH].
  - split; [|done]. intros _ q Hin. by apply elem_of_nil in Hin.
  - unfold scores_of in *. rewrite !fmap_cons. simpl.
    destruct (question_score_range q (response_of responses q)); [lia|].
    destruct (sum_scores_range responses qs Hqs) as [_ Hle].
    unfold scores_of in Hle. rewrite inject_Z_plus. split.
    + intros Hsum q' [->|Hin]%elem_of_cons.
      * apply (question_score_full q); [done|]. lra.
      * apply IH; [lra|done].
    + intros Hall.
      assert (question_score q (response_of responses q)
              == inject_Z (q_weight q))%Q as ->.
      { apply question_score_full; [done|]. apply Hall, list_elem_of_here. }
      rewrite (proj2 IH); [lra|].
      intros q' Hin. by apply Hall, list_elem_of_further.
Qed.

Lemma sum_scores_none responses qs :
  Forall (λ q, 0 < q_weight q) qs →
  (sumQ (scores_of responses qs) == 0)%Q ↔
  ∀ q, q ∈ qs → response_of responses q ≠ "Yes" ∧
                  response_of responses q ≠ "Partially".
Proof.
  induction 1 as [|q qs Hq Hqs IH].
  - split; [|done]. intros _ q Hin. by apply elem_of_nil in Hin.
  - unfold scores_of in *. rewrite !fmap_cons. simpl.
    destruct (question_score_range q (response_of responses q)); [lia|].
    destruct (sum_scores_range responses qs Hqs) as [Hge _].
    unfold scores_of in Hge. split.
    + intros Hsum q' [->|Hin]%elem_of_cons.
      * apply (question_score_none q); [done|]. lra.
      * apply IH; [lra|done].
    + intros Hall.
      assert (question_score q (response_of responses q) == 0)%Q as ->.
      { apply question_score_none; [done|]. apply Hall, list_elem_of_here. }
      rewrite (proj2 IH); [lra|].
      intros q' Hin. by apply Hall, list_elem_of_further.
Qed.

Lemma sum_scores_mono responses1 responses2 qs :
  Forall (λ q, 0 < q_weight q) qs →
  (∀ q, q ∈ qs →
        (rank (response_of responses1 q) ≤ rank (response_of responses2 q))%nat) →
  (sumQ (scores_of responses1 qs) <= sumQ (scores_of responses2 qs))%Q.
Proof.
  induction 1 as [|q qs Hq Hqs IH]; intros Hrank; [simpl; lra|].
  unfold scores_of in *. rewrite !fmap_cons. simpl.
  pose proof (question_score_mono q (response_of responses1 q)
                (response_of responses2 q) ltac:(lia)
                (Hrank q (list_elem_of_here _ _))).
  assert (sumQ ((λ q, question_score q (response_of responses1 q)) <$> qs)
          <= sumQ ((λ q, question_score q (response_of responses2 q)) <$> qs))%Q.
  { apply IH. intros q' Hin. by apply Hrank, list_elem_of_further. }
  lra.
Qed.

Lemma score_loop_missing qs responses total cats :
  (∃ q, q ∈ qs ∧ responses !! q_id q = None) →
  score_loop qs responses total cats = Raise KeyError.
Proof.
  revert total cats. induction qs as [|q qs IH];
    intros total cats (q' & Hin & Hnone).
  - by apply elem_of_nil in Hin.
  - cbn [score_loop]. destruct (responses !! q_id q) as [r|] eqn:Hq; [|done].
    apply IH. exists q'. split; [|done].
    apply elem_of_cons in Hin as [->|Hin]; [congruence|done].
Qed.

Lemma present_response_of (responses : gmap string string) q r :
  is_Some (responses !! q_id q) →
  response_of responses q = r ↔ responses !! q_id q = Some r.
Proof.
  unfold response_of. intros [r' ->]. simpl. split; congruence.
Qed.

(** X12.  The computation returns exactly when every question has a response;
    a missing response raises [KeyError], and nothing else is raised. *)
Theorem calculate_score_key_error (responses : gmap string string) :
  ((∃ r, calculate_score questions responses = Return r) ↔
   ∀ q, q ∈ questions → is_Some (responses !! q_id q)) ∧
  (calculate_score questions responses = Raise KeyError ↔
   ∃ q, q ∈ questions ∧ responses !! q_id q = None) ∧
  (∀ e, calculate_score questions responses = Raise e → e = KeyError).
Proof.
  unfold calculate_score.
  destruct (score_loop questions responses 0%Q ∅) as [[total cats]|e] eqn:Hloop;
    cbn [mbind exc_bind]; rewrite ?decide_False by done.
  - split; [|split; [|done]].
    + split; [|by eexists]. intros _ q Hq.
      destruct (responses !! q_id q) eqn:Hlook; [by eexists|].
      rewrite score_loop_missing in Hloop; [done|by exists q].
    + split; [done|]. intros Hmiss.
      by rewrite score_loop_missing in Hloop.
  - apply score_loop_raises in Hloop as Hraise.
    destruct Hraise as (-> & Hmiss). split; [|split].
    + split; [by intros [r ?]|]. intros Hall.
      destruct (score_loop_returns questions responses 0%Q ∅ Hall) as [r Hr].
      congruence.
    + done.
    + by intros e [= <-].
Qed.

Lemma calculate_score_returns (responses : gmap string string) :
  (∀ q, q ∈ questions → is_Some (responses !! q_id q)) →
  ∃ p cats, calculate_score questions responses = Return (p, cats).
Proof.
  intros Hall. unfold calculate_score.
  destruct (score_loop_returns questions responses 0%Q ∅ Hall)
    as [[total cats] ->].
  cbn [mbind exc_bind]. rewrite decide_False by done. by eexists _, _.
Qed.

(** X13.  With a response for every question, whatever the responses are, the
    percentage lies between 0 and 100, so the room for improvement
    [100 - percentage_score] is never negative. *)
Theorem percentage_score_range (responses : gmap string string) :
  (∀ q, q ∈ questions → is_Some (responses !! q_id q)) →
  ∃ percentage_score category_scores,
    calculate_score questions responses
    = Return (percentage_score, category_scores) ∧
    (0 <= percentage_score)%Q ∧ (percentage_score <= 100)%Q ∧
    (0 <= 100 - percentage_score)%Q.
Proof.
  intros Hall.
  destruct (calculate_score_returns responses Hall) as (p & cats & Hcalc).
  exists p, cats. split; [done|].
  pose proof (calculate_score_total _ _ _ Hcalc) as Hp.
  destruct (sum_scores_range responses questions questions_weights)
    as [Hge Hle].
  change (inject_Z (sumZ (q_weight <$> questions))) with 100%Q in Hle.
  repeat split; lra.
Qed.

Lemma collected_present picked q :
  q ∈ questions →
  is_Some (collect_responses questions picked ∅ !! q_id q).
Proof.
  intros Hq. rewrite collect_responses_lookup.
  rewrite decide_True; [by eexists|]. by apply list_elem_of_fmap_2.
Qed.

Lemma percentage_score_range_witness :
  ∃ percentage_score category_scores,
    calculate_score questions responses_with_maybe
    = Return (percentage_score, category_scores) ∧
    (0 <= percentage_score)%Q ∧ (percentage_score <= 100)%Q.
Proof.
  assert (Hall : ∀ q, q ∈ questions →
                      is_Some (responses_with_maybe !! q_id q)).
  { intros q Hq. unfold responses_with_maybe.
    destruct (decide (q_id q = "antivirus")) as [->|Hne].
    - rewrite lookup_insert_eq. by eexists.
    - rewrite lookup_insert_ne by done. by apply collected_present. }
  destruct (percentage_score_range responses_with_maybe Hall)
    as (p & cats & Hcalc & Hge & Hle & _).
  exists p, cats. split; [exact Hcalc|]. split; [exact Hge | exact Hle].
Defined.

(** X14.  The percentage is 100 exactly when every question is answered Yes, and
    0 exactly when no question is answered Yes or Partially. *)
Theorem percentage_score_extremes (responses : gmap string string) :
  (∀ q, q ∈ questions → is_Some (responses !! q_id q)) →
  ∃ percentage_score category_scores,
    calculate_score questions responses
    = Return (percentage_score, category_scores) ∧
    ((percentage_score == 100)%Q ↔
     ∀ q, q ∈ questions → responses !! q_id q = Some "Yes") ∧
    ((percentage_score == 0)%Q ↔
     ∀ q, q ∈ questions →
          responses !! q_id q ≠ Some "Yes" ∧
          responses !! q_id q ≠ Some "Partially").
Proof.
  intros Hall.
  destruct (calculate_score_returns responses Hall) as (p & cats & Hcalc).
  exists p, cats. split; [done|].
  pose proof (calculate_score_total _ _ _ Hcalc) as Hp.
  pose proof (sum_scores_full responses questions questions_weights) as Hfull.
  pose proof (sum_scores_none responses questions questions_weights) as Hnone.
  change (inject_Z (sumZ (q_weight <$> questions))) with 100%Q in Hfull.
  rewrite Hp. split.
  - rewrite Hfull. split; intros Hyes q Hq.
    + apply present_response_of; auto.
    + apply present_response_of; auto.
  - rewrite Hnone. split; intros Hno q Hq.
    + destruct (Hno q Hq) as [H1 H2].
      split; intros Hr; apply present_response_of in Hr; auto.
    + destruct (Hno q Hq) as [H1 H2].
      split; intros Hr; apply present_response_of in Hr; auto.
Qed.

Lemma percentage_score_extremes_witness :
  ∃ percentage_score category_scores,
    calculate_score questions (collect_responses questions (λ _, 0%nat) ∅)
    = Return (percentage_score, category_scores) ∧
    (percentage_score == 100)%Q.
Proof.
  destruct (percentage_score_extremes
              (collect_responses questions (λ _, 0%nat) ∅)
              (collected_present (λ _, 0%nat)))
    as (p & cats & Hcalc & Hfull & _).
  exists p, cats. split; [exact Hcalc|]. apply Hfull.
  intros q Hq. rewrite collect_responses_lookup.
  rewrite decide_True; [done|]. by apply list_elem_of_fmap_2.
Defined.

(** X15.  Changing answers for the better (anything else to Partially or Yes,
    Partially to Yes) never lowers the percentage. *)
Theorem percentage_score_monotone (responses1 responses2 : gmap string string) :
  (∀ q, q ∈ questions → is_Some (responses1 !! q_id q)) →
  (∀ q, q ∈ questions → is_Some (responses2 !! q_id q)) →
  (∀ q r1 r2, q ∈ questions →
     responses1 !! q_id q = Some r1 → responses2 !! q_id q = Some r2 →
     (rank r1 ≤ rank r2)%nat) →
  ∃ p1 p2 cats1 cats2,
    calculate_score questions responses1 = Return (p1, cats1) ∧
    calculate_score questions responses2 = Return (p2, cats2) ∧
    (p1 <= p2)%Q.
Proof.
  intros Hall1 Hall2 Hrank.
  destruct (calculate_score_returns responses1 Hall1) as (p1 & c1 & Hc1).
  destruct (calculate_score_returns responses2 Hall2) as (p2 & c2 & Hc2).
  exists p1, p2, c1, c2. split; [done|]. split; [done|].
  rewrite (calculate_score_total _ _ _ Hc1), (calculate_score_total _ _ _ Hc2).
  apply sum_scores_mono; [apply questions_weights|].
  intros q Hq.
  destruct (Hall1 q Hq) as [r1 Hr1]. destruct (Hall2 q Hq) as [r2 Hr2].
  unfold response_of. rewrite Hr1, Hr2. simpl. by eapply Hrank.
Qed.

Lemma percentage_score_monotone_witness :
  ∃ p1 p2 cats1 cats2,
    calculate_score questions (collect_responses questions (λ _, 2%nat) ∅)
    = Return (p1, cats1) ∧
    calculate_score questions (collect_responses questions (λ _, 1%nat) ∅)
    = Return (p2, cats2) ∧
    (p1 <= p2)%Q.
Proof.
  apply percentage_score_monotone.
  - apply collected_present.
  - apply collected_present.
  - intros q r1 r2 Hq. rewrite !collect_responses_lookup.
    rewrite !decide_True by (by apply list_elem_of_fmap_2).
    intros [= <-] [= <-]. vm_compute. lia.
Defined.

(** *** The category breakdown *)

(** [(scores["score"] / scores["max"]) * 100] *)
Definition category_percentage (scores : category_score) : Exc Q :=
  if decide (cs_max scores = 0) then Raise ZeroDivisionError
  else Return ((cs_score scores / inject_Z (cs_max scores)) * 100)%Q.

(** The score of an entry is between 0 and its maximum, which is above 0. *)
Definition sound (scores : category_score) : Prop :=
  (0 <= cs_score scores)%Q ∧
  (cs_score scores <= inject_Z (cs_max scores))%Q ∧
  0 < cs_max scores.

Lemma track_category_sound q score cats :
  0 < q_weight q →
  (0 <= score)%Q → (score <= inject_Z (q_weight q))%Q →
  map_Forall (λ _, sound) cats →
  map_Forall (λ _, sound) (track_category q score cats).
Proof.
  intros Hw Hs0 Hs1 Hcats c cs. rewrite track_category_lookup.
  destruct (decide (c = q_category q)) as [->|_]; [|by apply Hcats].
  intros [= <-]. unfold cat_totals, sound. simpl.
  destruct (cats !! q_category q) as [cs|] eqn:Hc; simpl.
  - destruct (Hcats _ _ Hc) as (H0 & H1 & Hm).
    rewrite inject_Z_plus. repeat split; try lra; lia.
  - rewrite inject_Z_plus. change (inject_Z 0) with 0%Q.
    repeat split; try lra; lia.
Qed.

Lemma score_loop_sound qs responses total cats total' cats' :
  Forall (λ q, 0 < q_weight q) qs →
  map_Forall (λ _, sound) cats →
  score_loop qs responses total cats = Return (total', cats') →
  map_Forall (λ _, sound) cats'.
Proof.
  intros Hqs. revert total cats.
  induction Hqs as [|q qs Hq _ IH]; intros total cats Hcats Hloop.
  - by injection Hloop as _ <-.
  - cbn [score_loop] in Hloop.
    destruct (responses !! q_id q) as [response|]; [|done].
    eapply IH; [|exact Hloop].
    destruct (question_score_range q response); [lia|].
    by apply track_category_sound.
Qed.

(** X16.  For every entry of [category_scores] the percentage of the category is
    computed without a division by zero and lies between 0 and 100. *)
Theorem category_percentage_defined (responses : gmap string string) :
  (∀ q, q ∈ questions → is_Some (responses !! q_id q)) →
  ∃ percentage_score category_scores,
    calculate_score questions responses
    = Return (percentage_score, category_scores) ∧
    ∀ category scores,
      category_scores !! category = Some scores →
      ∃ category_percentage_value,
        category_percentage scores = Return category_percentage_value ∧
        (0 <= category_percentage_value)%Q ∧
        (category_percentage_value <= 100)%Q.
Proof.
  intros Hall.
  destruct (calculate_score_returns responses Hall) as (p & cats & Hcalc).
  exists p, cats. split; [done|]. intros c cs Hc.
  unfold calculate_score in Hcalc.
  destruct (score_loop questions responses 0%Q ∅) as [[total cats']|e] eqn:Hloop;
    [|done].
  cbn [mbind exc_bind] in Hcalc. rewrite decide_False in Hcalc by done.
  injection Hcalc as _ <-.
  apply score_loop_sound in Hloop;
    [|apply questions_weights|apply map_Forall_empty].
  destruct (Hloop c cs Hc) as (H0 & H1 & Hm).
  unfold category_percentage. rewrite decide_False by lia.
  eexists. split; [done|].
  assert (0 < inject_Z (cs_max cs))%Q as Hpos.
  { unfold Qlt. simpl. lia. }
  assert (0 <= cs_score cs / inject_Z (cs_max cs))%Q.
  { apply Qle_shift_div_l; [done|]. by rewrite Qmult_0_l. }
  assert (cs_score cs / inject_Z (cs_max cs) <= 1)%Q.
  { apply Qle_shift_div_r; [done|]. by rewrite Qmult_1_l. }
  set (ratio := (cs_score cs / inject_Z (cs_max cs))%Q) in *.
  split; lra.
Qed.

Lemma category_percentage_defined_witness :
  ∃ percentage_score category_scores scores value,
    calculate_score questions (collect_responses questions (λ _, 1%nat) ∅)
    = Return (percentage_score, category_scores) ∧
    category_scores !! "System Security" = Some scores ∧
    category_percentage scores = Return value ∧
    (value <= 100)%Q.
Proof.
  destruct (category_percentage_defined
              (collect_responses questions (λ _, 1%nat) ∅)
              (collected_present (λ _, 1%nat)))
    as (p & cats & Hcalc & Hpct).
  assert (Hcats : ∃ scores, cats !! "System Security" = Some scores).
  { vm_compute in Hcalc. injection Hcalc as _ <-. by eexists. }
  destruct Hcats as [scores Hscores].
  destruct (Hpct _ _ Hscores) as (value & Hvalue & _ & Hle).
  exists p, cats, scores, value. repeat split; assumption.
Defined.

End AssessmentFacts.

(** ** Security dashboard: the document and the page's actions *)

Module Dashboard.
Import Assessment.

(** An entry of [security_data["assessments"]]. *)
Record assessment := {
  date : string;                           (* [datetime.now().isoformat()] *)
  total_score : Q;
  responses : gmap string string;
  category_scores : gmap string category_score
}.

(** [security_data]; nothing in the page touches ["habits"]. *)
Record security_data := {
  assessments : list assessment;
  goals : list Goals.goal_dict;
  habits : list string;
  last_assessment : option assessment
}.

(** The document of [load_security_data] when there is no usable file. *)
Definition empty_data : security_data :=
  {| assessments := []; goals := []; habits := []; last_assessment := None |}.

Definition with_goals (f : list Goals.goal_dict → list Goals.goal_dict)
    (data : security_data) : security_data :=
  {| assessments := assessments data; goals := f (goals data);
     habits := habits data; last_assessment := last_assessment data |}.

(** The button of the assessment tab: compute, append to the history and
    remember as the last assessment.  An exception of the computation
    leaves the document as it was. *)
Definition submit_assessment (now : string) (responses : gmap string string)
    (data : security_data) : Exc security_data :=
  '(percentage_score, category_scores) ← calculate_score questions responses;
  let assessment :=
    {| date := now; total_score := percentage_score;
       responses := responses; category_scores := category_scores |} in
  Return {| assessments := assessments data ++ [assessment];
            goals := goals data; habits := habits data;
            last_assessment := Some assessment |}.

(** *** Dates *)

Record date_value := { year : Z; month : Z; day : Z }.

Definition is_leap (y : Z) : bool :=
  (y `mod` 4 =? 0) && (negb (y `mod` 100 =? 0) || (y `mod` 400 =? 0)).

Definition days_in_month (y m : Z) : Z :=
  if m =? 2 then (if is_leap y then 29 else 28)
  else if bool_decide (m ∈ [4; 6; 9; 11]) then 30
  else 31.

(** A value of [datetime.date]. *)
Definition valid_date (d : date_value) : Prop :=
  1 ≤ year d ≤ 9999 ∧ 1 ≤ month d ≤ 12 ∧
  1 ≤ day d ≤ days_in_month (year d) (month d).

(** [d.replace(month=m)]: the same year and day in another month, or
    [ValueError] when there is no such date. *)
Definition replace_month (d : date_value) (m : Z) : Exc date_value :=
  if bool_decide (1 ≤ m ≤ 12) && (day d <=? days_in_month (year d) m)
  then Return {| year := year d; month := m; day := day d |}
  else Raise ValueError.

(** A number on [width] digits, zeros in front. *)
Definition zero_padded (width : nat) (n : Z) : string :=
  let digits := pretty n in
  string_of_list_ascii
    (replicate (width - String.length digits) "0"%char) +:+ digits.

(** [d.isoformat()] *)
Definition isoformat (d : date_value) : string :=
  zero_padded 4 (year d) +:+ "-" +:+ zero_padded 2 (month d) +:+ "-" +:+
  zero_padded 2 (day d).

(** *** Suggested goals *)

Record suggestion := {
  s_title : string;
  s_description : string;
  s_category : string
}.

(** The suggestion a weak response to a question leads to, if any. *)
Definition suggestion_for (item : string * string) : option suggestion :=
  let '(q_id, response) := item in
  if bool_decide (response ∈ ["No"; "Partially"]) then
    if decide (q_id = "unique_passwords") then
      Some {| s_title := "Implement Unique Passwords";
              s_description :=
                "Create unique passwords for all important accounts";
              s_category := "Password Security" |}
    else if decide (q_id = "password_manager") then
      Some {| s_title := "Set Up Password Manager";
              s_description :=
                "Research and install a reputable password manager";
              s_category := "Password Security" |}
    else if decide (q_id = "two_factor_auth") then
      Some {| s_title := "Enable 2FA on All Accounts";
              s_description :=
                "Activate two-factor authentication on email, banking, and social media";
              s_category := "Account Security" |}
    else None
  else None.

(** [for q_id, response in last_assessment["responses"].items(): ...] on
    the items of the dictionary, in their order. *)
Definition suggestions (items : list (string * string)) : list suggestion :=
  omap suggestion_for items.

(** [suggestions[:3]], the ones that get a button. *)
Definition shown_suggestions (items : list (string * string))
  : list suggestion :=
  take 3 (suggestions items).

(** The items of a responses dictionary that the assessment tab built:
    one per question, in the order of the questions. *)
Definition response_items (responses : gmap string string)
  : list (string * string) :=
  omap (λ q, pair (q_id q) <$> responses !! q_id q) questions.

(** The button of a suggestion: a goal due in a month, with high
    priority.  [today] and [month_now] are the two readings of the clock
    in the deadline expression; the exception of [replace] is raised
    before anything is appended. *)
Definition add_suggested_goal (today : date_value) (month_now : Z)
    (now : string) (s : suggestion) (data : security_data)
  : Exc security_data :=
  deadline ← replace_month today (month_now + 1);
  Return (with_goals (λ goals,
    goals ++ [ {| Goals.g_id := Z.of_nat (length goals);
                  Goals.g_title := s_title s;
                  Goals.g_description := s_description s;
                  Goals.g_category := s_category s;
                  Goals.g_deadline := isoformat deadline;
                  Goals.g_priority := "High";
                  Goals.g_created_date := now;
                  Goals.g_completed := false;
                  Goals.g_progress := 0 |} ]) data).

(** *** Recommendations *)

(** [for q_id, response in last_assessment["responses"].items()] of the
    recommendations tab: the three lists, in the order of the items. *)
Fixpoint recommendations (items : list (string * string))
    (priority_actions quick_wins long_term_goals : list string)
  : list string * list string * list string :=
  match items with
  | [] => (priority_actions, quick_wins, long_term_goals)
  | (q_id, response) :: items =>
      if decide (response = "No") then
        if decide (q_id = "two_factor_auth") then
          recommendations items
            (priority_actions ++
               ["🚨 **URGENT:** Enable two-factor authentication on all important accounts"])
            quick_wins long_term_goals
        else if decide (q_id = "unique_passwords") then
          recommendations items
            (priority_actions ++
               ["🚨 **URGENT:** Stop reusing passwords across accounts"])
            quick_wins long_term_goals
        else if decide (q_id = "password_manager") then
          recommendations items priority_actions
            (quick_wins ++
               ["💡 **Quick Win:** Install and set up a password manager (1-2 hours)"])
            long_term_goals
        else if decide (q_id = "software_updates") then
          recommendations items priority_actions
            (quick_wins ++
               ["💡 **Quick Win:** Enable automatic updates on all devices"])
            long_term_goals
        else if decide (q_id = "antivirus") then
          recommendations items priority_actions
            (quick_wins ++
               ["💡 **Quick Win:** Install reputable antivirus software"])
            long_term_goals
        else if decide (q_id = "backup_strategy") then
          recommendations items priority_actions quick_wins
            (long_term_goals ++
               ["📅 **Long-term:** Set up automated backup system"])
        else recommendations items priority_actions quick_wins long_term_goals
      else recommendations items priority_actions quick_wins long_term_goals
  end.

(** The questions a No to which leads to a recommendation. *)
Definition recommended_ids : list string :=
  [ "two_factor_auth"; "unique_passwords"; "password_manager";
    "software_updates"; "antivirus"; "backup_strategy" ].

(** *** The page's actions *)

Inductive action :=
  | Submit (now : string) (picked : string → nat)
  | CreateGoal (clicked : bool) (f : Goals.form)
  | MoveSlider (id : Z) (position : Z)
  | PressComplete (id : Z)
  | AddSuggested (today : date_value) (now : string) (button : nat).

(** One run of the page with one action of the user. *)
Definition perform (a : action) (data : security_data) : Exc security_data :=
  match a with
  | Submit now picked =>
      submit_assessment now (collect_responses questions picked ∅) data
  | CreateGoal clicked f =>
      Return (with_goals (Goals.create_goal clicked f) data)
  | MoveSlider id position =>
      Return (with_goals (Goals.update_progress id position) data)
  | PressComplete id =>
      Return (with_goals (Goals.complete id) data)
  | AddSuggested today now button =>
      match last_assessment data with
      | None => Return data
      | Some last =>
          match shown_suggestions (response_items (responses last)) !! button with
          | None => Return data
          | Some s => add_suggested_goal today (month today) now s data
          end
      end
  end.

(** What the widgets allow: a slider position between 0 and 100, and a
    valid date from the clock. *)
Definition allowed (a : action) : Prop :=
  match a with
  | MoveSlider _ position => 0 ≤ position ≤ 100
  | AddSuggested today _ _ => valid_date today
  | _ => True
  end.

(** The documents the page can reach from the empty one. *)
Inductive reachable : security_data → Prop :=
  | reachable_empty : reachable empty_data
  | reachable_step a data data' :
      reachable data → allowed a → perform a data = Return data' →
      reachable data'.


(** *** Suggestions *)

Definition suggested_ids : list string :=
  [ "unique_passwords"; "password_manager"; "two_factor_auth" ].

Lemma suggestion_for_id item s :
  suggestion_for item = Some s → item.1 ∈ suggested_ids.
Proof.
  destruct item as [q_id response]. unfold suggestion_for, suggested_ids.
  case_bool_decide; [|done].
  repeat case_decide; [| | |done]; intros _; subst; simpl;
    rewrite !elem_of_cons; tauto.
Qed.

Lemma length_omap_filter {A B} (f : A → option B) (P : A → Prop)
    `{!∀ x, Decision (P x)} (l : list A) :
  (∀ x y, f x = Some y → P x) →
  (length (omap f l) ≤ length (filter P l))%nat.
Proof.
  intros Hf. induction l as [|x l IH]; [done|].
  cbn [omap list_omap]. rewrite filter_cons.
  destruct (f x) as [y|] eqn:Hx.
  - rewrite decide_True by eauto. simpl. lia.
  - case_decide; simpl; lia.
Qed.

Lemma length_suggestions items :
  NoDup items.*1 → (length (suggestions items) ≤ 3)%nat.
Proof.
  intros Hnd. unfold suggestions.
  etrans; [apply (length_omap_filter _ (λ item, item.1 ∈ suggested_ids))|].
  { intros. by eapply suggestion_for_id. }
  rewrite <- (length_fmap fst).
  change 3%nat with (length suggested_ids).
  apply submseteq_length, NoDup_submseteq.
  - eapply sublist_NoDup; [done|]. apply fmap_sublist, sublist_filter.
  - intros k Hk. apply list_elem_of_fmap in Hk as (item & -> & Hitem).
    by apply list_elem_of_filter in Hitem as [? _].
Qed.

Lemma suggestion_for_weak item :
  is_Some (suggestion_for item) ↔
  item.1 ∈ suggested_ids ∧ item.2 ∈ ["No"; "Partially"].
Proof.
  destruct item as [q_id response]. unfold suggestion_for, suggested_ids.
  cbn [fst snd]. case_bool_decide as Hr.
  - repeat case_decide; subst.
    + split; [intros _; split; [|done] | eauto].
      rewrite !elem_of_cons. tauto.
    + split; [intros _; split; [|done] | eauto].
      rewrite !elem_of_cons. tauto.
    + split; [intros _; split; [|done] | eauto].
      rewrite !elem_of_cons. tauto.
    + split; [by intros [? ?]|]. intros [Hin _].
      rewrite !elem_of_cons, elem_of_nil in Hin. tauto.
  - split; [by intros [? ?] | tauto].
Qed.

Lemma length_suggestions_weak items :
  length (suggestions items) =
  length (filter (λ item, item.1 ∈ suggested_ids ∧
                          item.2 ∈ ["No"; "Partially"]) items).
Proof.
  unfold suggestions. induction items as [|item items IH]; [done|].
  cbn [omap list_omap]. rewrite filter_cons.
  destruct (suggestion_for item) as [s|] eqn:Hs.
  - rewrite decide_True; [simpl; by rewrite IH|].
    apply suggestion_for_weak. by rewrite Hs.
  - rewrite decide_False; [done|].
    intros Hw. apply suggestion_for_weak in Hw. rewrite Hs in Hw.
    by destruct Hw.
Qed.

(** X17.  The cut to three suggestions never drops one: a dictionary has each
    key once, so there is one button for each of the three questions on
    passwords and two-factor authentication that was answered No or
    Partially, and none for any other question. *)
Theorem suggestions_all_shown (items : list (string * string)) :
  NoDup items.*1 →
  shown_suggestions items = suggestions items ∧
  length (shown_suggestions items) =
  length (filter (λ item, item.1 ∈ suggested_ids ∧
                          item.2 ∈ ["No"; "Partially"]) items).
Proof.
  intros Hnd.
  assert (shown_suggestions items = suggestions items) as ->.
  { apply take_ge. by apply length_suggestions. }
  split; [done|]. apply length_suggestions_weak.
Qed.

Lemma suggestions_all_shown_witness :
  let items := response_items (collect_responses questions (λ _, 2%nat) ∅) in
  shown_suggestions items = suggestions items ∧
  length (shown_suggestions items) = 3%nat.
Proof.
  intros items.
  destruct (suggestions_all_shown items) as [Hall Hlen].
  { apply (bool_decide_unpack _). by vm_compute. }
  split; [done|]. rewrite Hlen. by vm_compute.
Defined.

(** *** Recommendations *)

Lemma recommendations_length items priority_actions quick_wins long_term_goals :
  let r := recommendations items priority_actions quick_wins long_term_goals in
  (length r.1.1 + length r.1.2 + length r.2 =
   length priority_actions + length quick_wins + length long_term_goals +
   length (filter (λ item, item.2 = "No" ∧ item.1 ∈ recommended_ids) items))%nat.
Proof.
  revert priority_actions quick_wins long_term_goals.
  induction items as [|[q_id response] items IH]; intros p q l.
  { simpl. lia. }
  cbn [recommendations]. rewrite filter_cons. cbn [fst snd].
  destruct (decide (response = "No")) as [->|Hno].
  - destruct (decide (_ ∧ q_id ∈ recommended_ids)) as [[_ Hin]|Hnin].
    + unfold recommended_ids in Hin.
      rewrite !elem_of_cons, elem_of_nil in Hin.
      repeat case_decide; subst; try (exfalso; tauto);
        cbn zeta in IH |- *; rewrite IH, ?length_app; simpl; lia.
    + assert (q_id ∉ recommended_ids) as Hin by tauto.
      unfold recommended_ids in Hin.
      rewrite !elem_of_cons, elem_of_nil in Hin.
      repeat case_decide; subst; try (exfalso; tauto).
      cbn zeta in IH |- *. rewrite IH. lia.
  - rewrite decide_False by tauto. apply IH.
Qed.

(** X18.  The recommendations tab lists one line for each No to one of six
    questions.  A Partially gives nothing, and neither does a No to the
    questions on browsing and on public Wi-Fi. *)
Theorem recommendations_count (items : list (string * string)) :
  let r := recommendations items [] [] [] in
  (length r.1.1 + length r.1.2 + length r.2)%nat =
  length (filter (λ item, item.2 = "No" ∧ item.1 ∈ recommended_ids) items) ∧
  q_id <$> filter (λ q, q_id q ∉ recommended_ids) questions =
  ["secure_browsing"; "wifi_security"].
Proof.
  split.
  - apply (recommendations_length items [] [] []).
  - by vm_compute.
Qed.

(** *** The deadline of a suggested goal *)

(** The date a month after [today], when the calendar has one. *)
Definition next_month (today : date_value) : date_value :=
  {| year := year today; month := month today + 1; day := day today |}.

Lemma days_in_month_range y m : 28 ≤ days_in_month y m ≤ 31.
Proof.
  unfold days_in_month. destruct (m =? 2); [destruct (is_leap y); lia|].
  case_bool_decide; lia.
Qed.

Lemma replace_month_next today :
  valid_date today →
  replace_month today (month today + 1) =
  if decide (month today = 12 ∨
             days_in_month (year today) (month today + 1) < day today)
  then Raise ValueError else Return (next_month today).
Proof.
  intros (Hy & Hm & Hd). unfold replace_month.
  case_decide as Hc.
  - destruct Hc as [Hc|Hc].
    + rewrite bool_decide_eq_false_2 by lia. done.
    + replace (_ <=? _) with false by (symmetry; apply Z.leb_gt; lia).
      by rewrite andb_false_r.
  - rewrite bool_decide_eq_true_2 by lia.
    replace (_ <=? _) with true by (symmetry; apply Z.leb_le; lia).
    done.
Qed.

(** X19.  The button of a suggestion fails with [ValueError], and adds no
    goal, every day of December and on the days of a month that the next
    month does not have; on any other day it appends one goal, due on the
    same day of the next month. *)
Theorem suggested_goal_deadline today now s data :
  valid_date today →
  (add_suggested_goal today (month today) now s data = Raise ValueError ↔
   month today = 12 ∨
   days_in_month (year today) (month today + 1) < day today) ∧
  (∀ data', add_suggested_goal today (month today) now s data = Return data' →
     valid_date (next_month today) ∧
     assessments data' = assessments data ∧
     last_assessment data' = last_assessment data ∧
     ∃ goal, goals data' = goals data ++ [goal] ∧
             Goals.g_id goal = Z.of_nat (length (goals data)) ∧
             Goals.g_title goal = s_title s ∧
             Goals.g_deadline goal = isoformat (next_month today) ∧
             Goals.g_priority goal = "High") ∧
  (day today ≤ 28 → month today < 12 →
   ∃ data', add_suggested_goal today (month today) now s data = Return data').
Proof.
  intros Hv. unfold add_suggested_goal.
  rewrite (replace_month_next today Hv).
  destruct Hv as (Hy & Hm & Hd).
  case_decide as Hc; cbn.
  - split; [tauto|]. split; [done|]. intros ? ?.
    pose proof (days_in_month_range (year today) (month today + 1)). lia.
  - split; [split; [done | tauto]|]. split; [|eauto].
    intros data' [= <-]. split.
    { unfold valid_date, next_month. simpl. lia. }
    do 2 (split; [done|]). eexists. split; [done|]. by simpl.
Qed.

Lemma suggested_goal_deadline_witness :
  let s := {| s_title := "Set Up Password Manager";
              s_description := "";
              s_category := "Password Security" |} in
  add_suggested_goal {| year := 2025; month := 12; day := 15 |} 12
    "2025-12-15T10:00:00" s empty_data = Raise ValueError ∧
  add_suggested_goal {| year := 2025; month := 1; day := 31 |} 1
    "2025-01-31T10:00:00" s empty_data = Raise ValueError ∧
  ∃ data', add_suggested_goal {| year := 2025; month := 1; day := 5 |} 1
    "2025-01-05T10:00:00" s empty_data = Return data' ∧
    Goals.g_deadline <$> goals data' = ["2025-02-05"].
Proof.
  intros s. split; [|split].
  - apply (suggested_goal_deadline {| year := 2025; month := 12; day := 15 |}).
    + unfold valid_date. by vm_compute.
    + by left.
  - apply (suggested_goal_deadline {| year := 2025; month := 1; day := 31 |}).
    + unfold valid_date. by vm_compute.
    + right. by vm_compute.
  - eexists. split; by vm_compute.
Defined.

(** *** What the actions do to the document *)

Lemma submit_assessment_returns now picked data :
  ∃ percentage_score category_scores,
    calculate_score questions (collect_responses questions picked ∅)
    = Return (percentage_score, category_scores) ∧
    submit_assessment now (collect_responses questions picked ∅) data =
    Return {| assessments := assessments data ++
                [ {| date := now; total_score := percentage_score;
                     responses := collect_responses questions picked ∅;
                     category_scores := category_scores |} ];
              goals := goals data; habits := habits data;
              last_assessment :=
                Some {| date := now; total_score := percentage_score;
                        responses := collect_responses questions picked ∅;
                        category_scores := category_scores |} |}.
Proof.
  destruct (AssessmentFacts.calculate_score_returns
              (collect_responses questions picked ∅)) as (p & cats & Hs).
  { intros q Hq. by apply AssessmentFacts.collected_present. }
  exists p, cats. split; [done|].
  unfold submit_assessment. by rewrite Hs.
Qed.

(** X20.  The only run of the page that ends in an exception is the press of a
    suggestion's button on a day without a date one month later. *)
Theorem perform_raises a data e :
  allowed a →
  perform a data = Raise e →
  e = ValueError ∧
  ∃ today now button s,
    a = AddSuggested today now button ∧
    (∃ last, last_assessment data = Some last ∧
       shown_suggestions (response_items (responses last)) !! button = Some s) ∧
    (month today = 12 ∨
     days_in_month (year today) (month today + 1) < day today).
Proof.
  intros Ha Hr.
  destruct a as [clock picked|clicked f|id position|id|today clock button];
    cbn [perform] in Hr; [|discriminate Hr..|].
  { destruct (submit_assessment_returns clock picked data)
      as (? & ? & _ & Hs).
    rewrite Hs in Hr. discriminate Hr. }
  destruct (last_assessment data) as [last|] eqn:Hlast; [|discriminate Hr].
  destruct (_ !! button) as [s|] eqn:Hs; [|discriminate Hr].
  unfold add_suggested_goal in Hr.
  rewrite (replace_month_next today Ha) in Hr.
  case_decide; [|discriminate Hr]. cbn in Hr. injection Hr as <-.
  split; [done|]. exists today, clock, button, s. eauto.
Qed.

Lemma perform_raises_witness :
  let today := {| year := 2024; month := 1; day := 30 |} in
  ∃ data,
    reachable data ∧
    perform (AddSuggested today "2024-01-30T08:00:00" 0) data = Raise ValueError ∧
    days_in_month (year today) (month today + 1) < day today.
Proof.
  intros today.
  assert (allowed (AddSuggested today "2024-01-30T08:00:00" 0)) as Ha.
  { unfold allowed, valid_date. by vm_compute. }
  destruct (submit_assessment_returns "2024-01-29T08:00:00" (λ _, 2%nat)
              empty_data) as (p & cats & _ & Hs).
  pose proof (reachable_step (Submit "2024-01-29T08:00:00" (λ _, 2%nat))
                empty_data _ reachable_empty I Hs) as Hreach.
  clear Hs.
  eexists. split; [exact Hreach|]. split; [|by vm_compute].
  match goal with |- ?run = _ => destruct run as [data'|e] eqn:Hr end.
  - exfalso. vm_compute in Hr. discriminate Hr.
  - destruct (perform_raises _ _ _ Ha Hr) as [-> _]. reflexivity.
Defined.

(** *** Reachable documents *)

(** A goal at position [i] of a document the page has written. *)
Definition goal_ok (i : nat) (g : Goals.goal_dict) : Prop :=
  Goals.g_id g = Z.of_nat i ∧
  0 ≤ Goals.g_progress g ≤ 100 ∧
  (Goals.g_completed g = true ↔ Goals.g_progress g = 100).

Definition goals_ok (goals : list Goals.goal_dict) : Prop :=
  ∀ i g, goals !! i = Some g → goal_ok i g.

Lemma goals_ok_snoc goals g :
  goals_ok goals →
  Goals.g_id g = Z.of_nat (length goals) →
  Goals.g_progress g = 0 → Goals.g_completed g = false →
  goals_ok (goals ++ [g]).
Proof.
  intros Hok Hid Hp Hc i g' Hg'.
  apply lookup_app_Some in Hg' as [Hg'|[Hlen Hg']]; [by apply Hok|].
  apply list_lookup_singleton_Some in Hg' as [Hi <-].
  unfold goal_ok. rewrite Hid, Hp, Hc.
  split; [f_equal; lia|]. split; [lia|]. split; [discriminate | lia].
Qed.

Lemma create_goal_ok clicked f goals :
  goals_ok goals → goals_ok (Goals.create_goal clicked f goals).
Proof.
  intros Hok. unfold Goals.create_goal.
  destruct (clicked && _); [|exact Hok].
  apply goals_ok_snoc; [exact Hok|reflexivity..].
Qed.

Lemma update_progress_ok id position goals :
  0 ≤ position ≤ 100 →
  goals_ok goals → goals_ok (Goals.update_progress id position goals).
Proof.
  intros Hpos Hok i g Hg. rewrite Goals.update_progress_lookup in Hg.
  destruct (goals !! i) as [g0|] eqn:Hg0; [|discriminate Hg].
  injection Hg as <-. specialize (Hok i g0 Hg0).
  destruct (Goals.g_completed g0) eqn:Hc; [exact Hok|].
  case_decide; [|exact Hok].
  unfold Goals.track_progress. case_decide; [|exact Hok].
  destruct Hok as (Hid & Hp & Hdone). unfold goal_ok.
  destruct (Z.leb_spec 100 position); simpl.
  - split; [exact Hid|]. split; [lia|]. split; [lia | reflexivity].
  - rewrite Hc. split; [exact Hid|]. split; [lia|].
    split; [discriminate | lia].
Qed.

Lemma complete_ok id goals : goals_ok goals → goals_ok (Goals.complete id goals).
Proof.
  intros Hok i g Hg. unfold Goals.complete in Hg.
  rewrite list_lookup_fmap in Hg.
  destruct (goals !! i) as [g0|] eqn:Hg0; [|discriminate Hg].
  injection Hg as <-. specialize (Hok i g0 Hg0).
  destruct (Goals.g_completed g0) eqn:Hc; [exact Hok|].
  case_decide; [|exact Hok].
  destruct Hok as (Hid & Hp & Hdone). unfold goal_ok. simpl.
  split; [exact Hid|]. split; [lia|]. split; reflexivity.
Qed.

(** The page keeps its document in shape. *)
Definition invariant (data : security_data) : Prop :=
  last_assessment data = last (assessments data) ∧
  habits data = [] ∧
  goals_ok (goals data) ∧
  ∀ a, a ∈ assessments data →
       calculate_score questions (responses a)
       = Return (total_score a, category_scores a).

Lemma perform_invariant a data data' :
  allowed a → invariant data → perform a data = Return data' →
  invariant data'.
Proof.
  intros Ha (Hlast & Hhabits & Hgoals & Hscores) Hr.
  destruct a as [clock picked|clicked f|id position|id|today clock button];
    cbn [perform] in Hr.
  - destruct (submit_assessment_returns clock picked data)
      as (p & cats & Hp & Hs).
    rewrite Hs in Hr. clear Hs. injection Hr as <-.
    unfold invariant. cbn [assessments goals habits last_assessment].
    rewrite last_snoc. do 3 (split; [assumption || reflexivity|]).
    intros a Ha'. apply elem_of_app in Ha' as [Ha'|Ha'].
    + by apply Hscores.
    + apply list_elem_of_singleton in Ha' as ->. exact Hp.
  - injection Hr as <-.
    refine (conj Hlast (conj Hhabits (conj _ Hscores))).
    by apply create_goal_ok.
  - injection Hr as <-.
    refine (conj Hlast (conj Hhabits (conj _ Hscores))).
    by apply update_progress_ok.
  - injection Hr as <-.
    refine (conj Hlast (conj Hhabits (conj _ Hscores))).
    by apply complete_ok.
  - destruct (last_assessment data) as [last|] eqn:Hl;
      rewrite <- Hl in Hlast; clear Hl.
    2:{ injection Hr as <-.
        exact (conj Hlast (conj Hhabits (conj Hgoals Hscores))). }
    destruct (_ !! button) as [s|].
    2:{ injection Hr as <-.
        exact (conj Hlast (conj Hhabits (conj Hgoals Hscores))). }
    unfold add_suggested_goal in Hr.
    destruct (replace_month _ _) as [deadline|]; [|discriminate Hr].
    cbn in Hr. injection Hr as <-.
    refine (conj Hlast (conj Hhabits (conj _ Hscores))).
    apply goals_ok_snoc; [assumption|reflexivity..].
Qed.

Lemma invariant_empty : invariant empty_data.
Proof.
  split; [reflexivity|]. split; [reflexivity|]. split.
  - intros i g Hg. cbn in Hg. discriminate Hg.
  - intros a Ha. by apply elem_of_nil in Ha.
Qed.

Lemma reachable_invariant_holds data : reachable data → invariant data.
Proof.
  induction 1 as [|a data data' _ IH Ha Hr]; [apply invariant_empty|].
  by eapply perform_invariant.
Qed.

(** X21.  Whatever the user does, a document that started empty has the last
    assessment at the end of the history, every score between 0 and 100,
    goals numbered by their position, and a goal completed exactly when
    its progress is 100. *)
Theorem reachable_document data :
  reachable data →
  last_assessment data = last (assessments data) ∧
  habits data = [] ∧
  (∀ i g, goals data !! i = Some g →
     Goals.g_id g = Z.of_nat i ∧
     0 ≤ Goals.g_progress g ≤ 100 ∧
     (Goals.g_completed g = true ↔ Goals.g_progress g = 100)) ∧
  (∀ a, a ∈ assessments data →
     (0 <= total_score a)%Q ∧ (total_score a <= 100)%Q).
Proof.
  intros Hreach.
  destruct (reachable_invariant_holds data Hreach)
    as (Hlast & Hhabits & Hgoals & Hscores).
  split; [exact Hlast|]. split; [exact Hhabits|]. split; [exact Hgoals|].
  intros a Ha. specialize (Hscores a Ha).
  pose proof (AssessmentFacts.calculate_score_total _ _ _ Hscores) as Hp.
  clear Hscores.
  destruct (AssessmentFacts.sum_scores_range (responses a) questions
              AssessmentFacts.questions_weights) as [Hge Hle].
  change (inject_Z (sumZ (q_weight <$> questions))) with 100%Q in Hle.
  split; lra.
Qed.

Lemma reachable_document_witness :
  let data :=
    with_goals (Goals.update_progress 0 100)
      (with_goals (Goals.create_goal true (Goals.example_form "Use a manager"))
         empty_data) in
  ∃ g, goals data !! 0%nat = Some g ∧
       Goals.g_id g = 0 ∧ Goals.g_progress g = 100 ∧
       Goals.g_completed g = true.
Proof.
  intros data.
  assert (reachable data) as Hreach.
  { apply (reachable_step (MoveSlider 0 100)
             (with_goals
                (Goals.create_goal true (Goals.example_form "Use a manager"))
                empty_data)).
    - apply (reachable_step
               (CreateGoal true (Goals.example_form "Use a manager"))
               empty_data);
        [apply reachable_empty | exact I | reflexivity].
    - simpl. lia.
    - reflexivity. }
  destruct (reachable_document data Hreach) as (_ & _ & Hgoals & _).
  eexists. split; [reflexivity|].
  destruct (Hgoals 0%nat _ eq_refl) as (Hid & _ & Hdone).
  split; [exact Hid|]. split; [reflexivity|]. apply Hdone. reflexivity.
Defined.

(** *** Nothing is lost *)

(** The fields of a goal that no action writes. *)
Definition same_goal (g g' : Goals.goal_dict) : Prop :=
  Goals.g_id g' = Goals.g_id g ∧
  Goals.g_title g' = Goals.g_title g ∧
  Goals.g_description g' = Goals.g_description g ∧
  Goals.g_category g' = Goals.g_category g ∧
  Goals.g_deadline g' = Goals.g_deadline g ∧
  Goals.g_priority g' = Goals.g_priority g ∧
  Goals.g_created_date g' = Goals.g_created_date g.

Definition goals_kept (goals goals' : list Goals.goal_dict) : Prop :=
  (length goals ≤ length goals')%nat ∧
  ∀ i g, goals !! i = Some g →
    ∃ g', goals' !! i = Some g' ∧ same_goal g g' ∧
          (Goals.g_completed g = true → g' = g).

Lemma same_goal_refl g : same_goal g g.
Proof. by repeat split. Qed.

Lemma goals_kept_refl goals : goals_kept goals goals.
Proof.
  split; [lia|]. intros i g Hg. exists g.
  split; [exact Hg|]. split; [apply same_goal_refl | reflexivity].
Qed.

Lemma goals_kept_app goals more : goals_kept goals (goals ++ more).
Proof.
  split; [rewrite length_app; lia|]. intros i g Hg. exists g.
  split; [by apply lookup_app_l_Some|].
  split; [apply same_goal_refl | reflexivity].
Qed.

Lemma goals_kept_fmap (h : Goals.goal_dict → Goals.goal_dict) goals :
  (∀ g, same_goal g (h g)) →
  (∀ g, Goals.g_completed g = true → h g = g) →
  goals_kept goals (h <$> goals).
Proof.
  intros Hsame Hdone. split; [rewrite length_fmap; lia|].
  intros i g Hg. exists (h g). rewrite list_lookup_fmap, Hg.
  split; [reflexivity|]. split; [apply Hsame | apply Hdone].
Qed.

Lemma track_progress_same p g : same_goal g (Goals.track_progress p g).
Proof.
  unfold Goals.track_progress. case_decide; [|apply same_goal_refl].
  destruct (100 <=? p); by repeat split.
Qed.

Lemma create_goal_kept clicked f goals :
  goals_kept goals (Goals.create_goal clicked f goals).
Proof.
  unfold Goals.create_goal.
  destruct (clicked && _); [apply goals_kept_app | apply goals_kept_refl].
Qed.

Lemma progress_tracker_kept sliders goals :
  goals_kept goals (Goals.progress_tracker sliders goals).
Proof.
  apply goals_kept_fmap.
  - intros g. destruct (Goals.g_completed g);
      [apply same_goal_refl | apply track_progress_same].
  - by intros g ->.
Qed.

Lemma complete_kept id goals : goals_kept goals (Goals.complete id goals).
Proof.
  apply goals_kept_fmap.
  - intros g. destruct (Goals.g_completed g); [apply same_goal_refl|].
    case_decide; [by repeat split | apply same_goal_refl].
  - by intros g ->.
Qed.

(** X22.  No action deletes or rewrites history: the assessments so far stay
    at the front of the list, every goal stays at its position with its
    id, title, description, category, deadline, priority and creation
    date, and a completed goal is never changed again. *)
Theorem perform_keeps_history a data data' :
  perform a data = Return data' →
  assessments data `prefix_of` assessments data' ∧
  habits data' = habits data ∧
  (length (goals data) ≤ length (goals data'))%nat ∧
  ∀ i g, goals data !! i = Some g →
    ∃ g', goals data' !! i = Some g' ∧ same_goal g g' ∧
          (Goals.g_completed g = true → g' = g).
Proof.
  intros Hr.
  enough (assessments data `prefix_of` assessments data' ∧
          habits data' = habits data ∧
          goals_kept (goals data) (goals data')) as (? & ? & ? & ?)
    by (repeat (split; [assumption|]); assumption).
  destruct a as [clock picked|clicked f|id position|id|today clock button];
    cbn [perform] in Hr.
  - destruct (submit_assessment_returns clock picked data)
      as (p & cats & _ & Hs).
    rewrite Hs in Hr. clear Hs. injection Hr as <-.
    cbn [assessments goals habits].
    split; [by apply prefix_app_r|]. split; [reflexivity|].
    apply goals_kept_refl.
  - injection Hr as <-. split; [reflexivity|]. split; [reflexivity|].
    apply create_goal_kept.
  - injection Hr as <-. split; [reflexivity|]. split; [reflexivity|].
    apply progress_tracker_kept.
  - injection Hr as <-. split; [reflexivity|]. split; [reflexivity|].
    apply complete_kept.
  - destruct (last_assessment data) as [last|].
    2:{ injection Hr as <-. split; [reflexivity|]. split; [reflexivity|].
        apply goals_kept_refl. }
    destruct (_ !! button) as [s|].
    2:{ injection Hr as <-. split; [reflexivity|]. split; [reflexivity|].
        apply goals_kept_refl. }
    unfold add_suggested_goal in Hr.
    destruct (replace_month _ _) as [deadline|]; [|discriminate Hr].
    cbn in Hr. injection Hr as <-.
    split; [reflexivity|]. split; [reflexivity|]. apply goals_kept_app.
Qed.

Lemma perform_keeps_history_witness :
  let data :=
    with_goals (Goals.create_goal true (Goals.example_form "Use a manager"))
      empty_data in
  ∃ g', goals (with_goals (Goals.complete 0) data) !! 0%nat = Some g' ∧
        Goals.g_title g' = "Use a manager".
Proof.
  intros data.
  destruct (perform_keeps_history (PressComplete 0) data
              (with_goals (Goals.complete 0) data) eq_refl)
    as (_ & _ & _ & Hkept).
  destruct (Hkept 0%nat (Goals.new_goal 0 (Goals.example_form "Use a manager"))
              eq_refl) as (g' & Hg' & Hsame & _).
  exists g'. split; [exact Hg'|]. apply Hsame.
Defined.

(** *** Goal statistics *)

(** [len(goals_df)] *)
Definition total_goals (goals : list Goals.goal_dict) : Z :=
  Z.of_nat (length goals).

(** [len(goals_df[goals_df['completed']])] *)
Definition completed_goals (goals : list Goals.goal_dict) : Z :=
  Z.of_nat (length (filter (λ g, Goals.g_completed g = true) goals)).

Lemma goals_ok_tail g goals :
  (∀ i g', (g :: goals) !! i = Some g' →
           0 ≤ Goals.g_progress g' ≤ 100 ∧
           (Goals.g_completed g' = true ↔ Goals.g_progress g' = 100)) →
  (0 ≤ Goals.g_progress g ≤ 100 ∧
   (Goals.g_completed g = true ↔ Goals.g_progress g = 100)) ∧
  ∀ i g', goals !! i = Some g' →
          0 ≤ Goals.g_progress g' ≤ 100 ∧
          (Goals.g_completed g' = true ↔ Goals.g_progress g' = 100).
Proof.
  intros Hok. split; [by apply (Hok 0%nat)|].
  intros i g' Hg'. by apply (Hok (S i)).
Qed.

Lemma goal_counts goals :
  (∀ i g, goals !! i = Some g →
          0 ≤ Goals.g_progress g ≤ 100 ∧
          (Goals.g_completed g = true ↔ Goals.g_progress g = 100)) →
  0 ≤ completed_goals goals ≤ total_goals goals ∧
  100 * completed_goals goals ≤ sumZ (Goals.g_progress <$> goals) ∧
  sumZ (Goals.g_progress <$> goals) ≤ 100 * total_goals goals ∧
  (sumZ (Goals.g_progress <$> goals) = 100 * total_goals goals ↔
   completed_goals goals = total_goals goals).
Proof.
  unfold completed_goals, total_goals, sumZ.
  induction goals as [|g goals IH]; intros Hok.
  { cbn. lia. }
  apply goals_ok_tail in Hok as [[Hp Hdone] Hok].
  specialize (IH Hok). rewrite filter_cons, fmap_cons.
  cbn [foldr length]. case_decide as Hc.
  - cbn [length]. assert (Goals.g_progress g = 100) by tauto. lia.
  - assert (Goals.g_progress g ≠ 100) by tauto. lia.
Qed.

(** X23.  On a document of the page with at least one goal, the figures of
    the progress tab rest on these counts: the number of goals is positive
    (the [else 0] of the completion rate is never taken, and the mean is
    of a column that is not empty); the completed goals are at most the
    goals; the progress values add up to at least 100 per completed goal
    and at most 100 per goal; and all goals are counted as completed
    exactly when every goal is completed, which is exactly when the
    progress values add up to 100 per goal. *)
Theorem goal_statistics data :
  reachable data → goals data ≠ [] →
  0 < total_goals (goals data) ∧
  0 ≤ completed_goals (goals data) ≤ total_goals (goals data) ∧
  100 * completed_goals (goals data)
    ≤ sumZ (Goals.g_progress <$> goals data) ∧
  sumZ (Goals.g_progress <$> goals data)
    ≤ 100 * total_goals (goals data) ∧
  (completed_goals (goals data) = total_goals (goals data) ↔
   ∀ g, g ∈ goals data → Goals.g_completed g = true) ∧
  (completed_goals (goals data) = total_goals (goals data) ↔
   sumZ (Goals.g_progress <$> goals data)
   = 100 * total_goals (goals data)).
Proof.
  intros Hreach Hne.
  destruct (reachable_invariant_holds data Hreach) as (_ & _ & Hgoals & _).
  assert (∀ i g, goals data !! i = Some g →
            0 ≤ Goals.g_progress g ≤ 100 ∧
            (Goals.g_completed g = true ↔ Goals.g_progress g = 100)) as Hok.
  { intros i g Hg. by destruct (Hgoals i g Hg) as (_ & ? & ?). }
  clear Hreach Hgoals.
  destruct (goal_counts (goals data) Hok) as (Hc & Hlow & Hhigh & Hiff).
  assert (0 < total_goals (goals data)) as Hpos.
  { unfold total_goals. destruct (goals data); [done|cbn; lia]. }
  split; [exact Hpos|]. split; [exact Hc|]. split; [exact Hlow|].
  split; [exact Hhigh|]. split; [|by rewrite Hiff].
  unfold completed_goals, total_goals. clear.
  induction (goals data) as [|g goals IH].
  - split; [|done]. intros _ g Hg. by apply elem_of_nil in Hg.
  - rewrite filter_cons. pose proof (length_filter
      (λ g, Goals.g_completed g = true) goals) as Hlen.
    case_decide as Hg; cbn [length].
    + split.
      * intros Heq g' Hg'. apply elem_of_cons in Hg' as [->|Hg']; [done|].
        apply IH; [lia | done].
      * intros Hall. f_equal. f_equal. apply Nat2Z.inj, IH.
        intros g' Hg'. apply Hall. by right.
    + split; [lia|]. intros Hall. exfalso. apply Hg, Hall. by left.
Qed.

Lemma goal_statistics_witness :
  let data :=
    with_goals (Goals.update_progress 0 100)
      (with_goals (Goals.create_goal true (Goals.example_form "Use a manager"))
         empty_data) in
  completed_goals (goals data) = 1 ∧ total_goals (goals data) = 1 ∧
  sumZ (Goals.g_progress <$> goals data) = 100.
Proof.
  intros data.
  assert (reachable data) as Hreach.
  { apply (reachable_step (MoveSlider 0 100)
             (with_goals
                (Goals.create_goal true (Goals.example_form "Use a manager"))
                empty_data)).
    - apply (reachable_step
               (CreateGoal true (Goals.example_form "Use a manager"))
               empty_data);
        [apply reachable_empty | exact I | reflexivity].
    - simpl. lia.
    - reflexivity. }
  destruct (goal_statistics data Hreach) as (_ & _ & _ & _ & Hall & Hsum).
  { by vm_compute. }
  assert (completed_goals (goals data) = total_goals (goals data)) as Heq.
  { apply Hall. intros g Hg. apply list_elem_of_singleton in Hg as ->.
    reflexivity. }
  split; [by rewrite Heq|]. split; [reflexivity|].
  rewrite (proj1 Hsum Heq). reflexivity.
Defined.

End Dashboard.

(** ** Security dashboard: sliders and the Complete button *)

Module GoalsFacts.
Import Goals.

Lemma set_progress_same g : set_progress (g_progress g) g = g.
Proof. by destruct g. Qed.

Lemma track_progress_full g :
  g_completed g = false → g_progress g < 100 →
  track_progress 100 g = set_progress 100 (set_completed true g).
Proof.
  intros Hc Hp. unfold track_progress.
  rewrite decide_True by lia. reflexivity.
Qed.

(** X24.  Moving a slider to 100 does what the Complete button does. *)
Theorem slider_full_is_complete id goals :
  consistent goals →
  update_progress id 100 goals = complete id goals.
Proof.
  intros Hcons. apply list_eq. intros i.
  rewrite update_progress_lookup. unfold complete.
  rewrite list_lookup_fmap.
  destruct (goals !! i) as [g|] eqn:Hg; [|reflexivity].
  cbn [fmap option_fmap option_map]. f_equal.
  destruct (Hcons i g Hg) as [_ Hbelow].
  destruct (g_completed g) eqn:Hc; [reflexivity|].
  case_decide; [|reflexivity].
  apply track_progress_full; [exact Hc | by apply Hbelow].
Qed.

Lemma slider_full_is_complete_witness :
  let goals := create_goals [example_form "Use a manager";
                             example_form "Turn on 2FA"] [] in
  update_progress 1 100 goals = complete 1 goals ∧
  g_completed <$> complete 1 goals = [false; true].
Proof.
  intros goals. split; [|reflexivity].
  apply (slider_full_is_complete 1 goals).
  apply reachable_consistent.
  apply (reachable_create true (example_form "Turn on 2FA")).
  apply (reachable_create true (example_form "Use a manager")).
  apply reachable_nil.
Defined.

Lemma track_progress_twice p q g :
  g_completed g = false → g_progress g < 100 → q < 100 →
  g_completed (track_progress q g) = false ∧
  track_progress p (track_progress q g) = track_progress p g.
Proof.
  intros Hc Hg Hq. unfold track_progress at 1 3.
  destruct (decide (q ≠ g_progress g)) as [Hne|Heq].
  - replace (100 <=? q) with false by (symmetry; apply Z.leb_gt; lia).
    split; [exact Hc|]. unfold track_progress. cbn [g_progress set_progress].
    destruct (decide (p ≠ q)) as [Hpq|Hpq].
    + destruct (decide (p ≠ g_progress g)) as [Hpg|Hpg].
      * reflexivity.
      * assert (p = g_progress g) as -> by lia.
        replace (100 <=? g_progress g) with false
          by (symmetry; apply Z.leb_gt; lia).
        destruct g. reflexivity.
    + assert (p = q) as -> by lia.
      rewrite decide_True by done.
      replace (100 <=? q) with false by (symmetry; apply Z.leb_gt; lia).
      reflexivity.
  - split; [exact Hc | reflexivity].
Qed.

Lemma track_progress_done q g :
  g_progress g < 100 → 100 ≤ q →
  g_completed (track_progress q g) = true.
Proof.
  intros Hg Hq. unfold track_progress. rewrite decide_True by lia.
  by replace (100 <=? q) with true by (symmetry; apply Z.leb_le; lia).
Qed.

(** X25.  Two moves of the slider of one goal: while the first stays below
    100 only the second counts, and once the first reaches 100 the goal
    is completed and the second changes nothing. *)
Theorem slider_moves_compose id p q goals :
  consistent goals →
  update_progress id p (update_progress id q goals) =
  if decide (q < 100) then update_progress id p goals
  else update_progress id q goals.
Proof.
  intros Hcons. apply list_eq. intros i.
  rewrite update_progress_lookup.
  assert (∀ r, update_progress id r goals !! i =
               (λ goal, if g_completed goal then goal
                        else if decide (g_id goal = id)
                             then track_progress r goal else goal)
                 <$> goals !! i) as Hlookup
    by (intros r; apply update_progress_lookup).
  rewrite (Hlookup q).
  destruct (decide (q < 100)) as [Hq|Hq]; rewrite Hlookup;
    (destruct (goals !! i) as [g|] eqn:Hg; [|reflexivity]);
    cbn [fmap option_fmap option_map]; f_equal;
    destruct (Hcons i g Hg) as [_ Hbelow];
    (destruct (g_completed g) eqn:Hc; [by rewrite Hc|]);
    (destruct (decide (g_id g = id)) as [Hid|Hid];
       [|by rewrite Hc, decide_False]);
    specialize (Hbelow eq_refl).
  - destruct (track_progress_twice p q g Hc Hbelow Hq) as [-> Htwice].
    rewrite decide_True by (by rewrite track_progress_id).
    exact Htwice.
  - by rewrite track_progress_done by lia.
Qed.

Lemma slider_moves_compose_witness :
  let goals := create_goals [example_form "Use a manager"] [] in
  update_progress 0 70 (update_progress 0 40 goals) = update_progress 0 70 goals ∧
  update_progress 0 70 (update_progress 0 100 goals) = update_progress 0 100 goals.
Proof.
  intros goals.
  assert (consistent goals) as Hcons.
  { apply reachable_consistent.
    apply (reachable_create true (example_form "Use a manager")).
    apply reachable_nil. }
  split.
  - apply (slider_moves_compose 0 70 40 goals Hcons).
  - apply (slider_moves_compose 0 70 100 goals Hcons).
Defined.

End GoalsFacts.
